(** * org-audit-action: the collaborator collector of [src/index.js]

    A shallow embedding of [CollectUserData] (the nested-pagination
    traversal [collectData], the archived-repository retry in
    [requestOrganizationData], the normalizer, [JSONtoCSV] and the export in
    [endCollection]) together with the properties of the specification
    that concern them.

    Conventions of the embedding.
    - A JavaScript value that the program only moves around (cursors,
      logins, names, permissions) is a [JsVal]: [undefined], [null] or a
      string.
    - Repository objects are mutated in place and can be reached through
      more than one reference ([result = data] on the first page), so they
      live in a store ([heap]) and the accumulator holds locations.
    - [this.result] is a plain object used as a dictionary; it is modelled
      with the property order that [Object.keys] observes.
    - [await] is sequential here (one logical thread), so an [async]
      method is a state-passing function; the two recursive methods take
      fuel and report [OutOfFuel] apart from their real results.
    - [core.info]/[core.debug] logging has no effect on the data and is left
      out, except where building the log line can throw (lines 128 and
      219); the queries sent, the files written and the process exit are
      recorded in [trace]. *)

From stdpp Require Import base list strings pretty.
From Stdlib Require Import Ascii NArith Lia.

Local Open Scope string_scope.
Local Open Scope list_scope.

(** ** JavaScript values *)

Inductive JsVal : Type :=
| JUndefined
| JNull
| JStr (s : string).

#[global] Instance JsVal_eq_dec : EqDecision JsVal.
Proof. solve_decision. Defined.

(** A parameter declared [p = null] takes the default for [undefined] only. *)
Definition default_null (v : JsVal) : JsVal :=
  match v with JUndefined => JNull | _ => v end.

(** [ToString], as applied by a property access [o[v]] and by [csv += v]. *)
Definition ToString (v : JsVal) : string :=
  match v with
  | JUndefined => "undefined"
  | JNull => "null"
  | JStr s => s
  end.

(** [ToBoolean] on these values: only a non-empty string is truthy. *)
Definition truthy (v : JsVal) : bool :=
  match v with
  | JStr s => negb (String.eqb s "")
  | _ => false
  end.

(** [a || b] where [a] is a string (what [core.getInput] returns). *)
Definition js_or (a : string) (b : JsVal) : JsVal :=
  if truthy (JStr a) then JStr a else b.

(** ** Plain objects used as dictionaries

    [OrdinaryOwnPropertyKeys]: the keys that are array indices (canonical
    decimal numerals below 2^32 - 1) come first, in ascending numeric
    order; all other string keys follow in the order of their creation.
    Assigning to an existing key keeps its place. The keys here are
    logins (letters, digits and hyphens) or ["undefined"]; the accessor
    key [__proto__] is not among them. *)

Definition digit_of (c : ascii) : option N :=
  let n := N_of_ascii c in
  if ((48 <=? n) && (n <=? 57))%N then Some (n - 48)%N else None.

Fixpoint digits_value (s : string) (acc : N) : option N :=
  match s with
  | EmptyString => Some acc
  | String c s' =>
      match digit_of c with
      | Some d => digits_value s' (10 * acc + d)%N
      | None => None
      end
  end.

(** The numeral a string denotes, when it is the canonical one: no sign,
    no leading zero (except ["0"] itself), at least one digit. *)
Definition canonical_numeral (s : string) : option N :=
  match s with
  | EmptyString => None
  | String c s' =>
      if Ascii.eqb c "0"%char
      then (if String.eqb s' "" then Some 0%N else None)
      else digits_value s 0%N
  end.

Definition array_index (k : string) : option N :=
  match canonical_numeral k with
  | Some n => if (n <? 4294967295)%N then Some n else None
  | None => None
  end.

Section JsObject.
Context {V : Type}.

Definition JsObject : Type := list (string * V).

Definition Object_keys (o : JsObject) : list string := map fst o.

Fixpoint obj_get (k : string) (o : JsObject) : option V :=
  match o with
  | [] => None
  | (k', v) :: o' => if String.eqb k k' then Some v else obj_get k o'
  end.

Fixpoint obj_replace (k : string) (v : V) (o : JsObject) : JsObject :=
  match o with
  | [] => []
  | (k', v') :: o' =>
      if String.eqb k k' then (k, v) :: o' else (k', v') :: obj_replace k v o'
  end.

(** Creation of an integer-indexed property: before the first key that is
    not an index or is a larger index. *)
Fixpoint obj_insert_index (n : N) (k : string) (v : V) (o : JsObject) : JsObject :=
  match o with
  | [] => [(k, v)]
  | (k', v') :: o' =>
      match array_index k' with
      | Some n' =>
          if (n <? n')%N then (k, v) :: o
          else (k', v') :: obj_insert_index n k v o'
      | None => (k, v) :: o
      end
  end.

(** [o[k] = v] *)
Definition obj_set (k : string) (v : V) (o : JsObject) : JsObject :=
  match obj_get k o with
  | Some _ => obj_replace k v o
  | None =>
      match array_index k with
      | Some n => obj_insert_index n k v o
      | None => o ++ [(k, v)]
      end
  end.
End JsObject.

Arguments JsObject V : clear implicits.

(** ** The Gateway contract (what [graphqlClient] resolves or rejects with) *)

Record PageInfo : Type := mkPageInfo {
  hasNextPage : bool;
  endCursor : JsVal
}.

(** [edge.node] *)
Record Actor : Type := mkActor {
  actor_name : JsVal;
  actor_login : JsVal
}.

(** One element of [collaborators.edges]. *)
Record Edge : Type := mkEdge {
  node : Actor;
  permission : JsVal
}.

(** [repository.collaborators]; [edges] may be [null], which
    [normalizeResult] tests for. *)
Record Collaborators : Type := mkCollaborators {
  edges : option (list Edge);
  pageInfo : PageInfo
}.

(** One element of [data.repositories.nodes] as the Gateway sends it. *)
Record RepositoryNode : Type := mkRepositoryNode {
  name : string;
  collaborators : Collaborators
}.

(** [data.repositories] *)
Record RepositoriesPage : Type := mkRepositoriesPage {
  nodes : list RepositoryNode;
  repositories_pageInfo : PageInfo
}.

(** [error.data.organization.repositories] of a rejected query: the names
    of the nodes of the page and its page info. *)
Record PartialData : Type := mkPartialData {
  partial_nodes : list string;
  partial_pageInfo : PageInfo
}.

Record GraphqlError : Type := mkGraphqlError {
  message : string;
  data : option PartialData
}.

(** The promise of one organization query: resolved with [organization]
    ([null] when there is none), or rejected with an error (which may be a
    falsy value, hence the option). *)
Inductive Response : Type :=
| Resolved (organization : option RepositoriesPage)
| Rejected (error : option GraphqlError).

Definition ERROR_MESSAGE_ARCHIVED_REPO : string :=
  "Must have push access to view repository collaborators.".

Definition ARTIFACT_FILE_NAME : string := "raw-data".
Definition DATA_FOLDER : string := "./data".

(** ** The collector's state *)

(** Locations of the store are indices into it. *)
Abbreviation loc := nat (only parsing).

(** A repository object in the store: the node received, its
    [collaborators.edges] replaced on every merge, and the
    [previousCursor] property the engine adds ([undefined] until set). *)
Record RepoObj : Type := mkRepoObj {
  obj_name : string;
  obj_edges : option (list Edge);
  obj_pageInfo : PageInfo;
  previousCursor : JsVal
}.

Definition alloc (r : RepositoryNode) : RepoObj :=
  {| obj_name := name r;
     obj_edges := edges (collaborators r);
     obj_pageInfo := pageInfo (collaborators r);
     previousCursor := JUndefined |}.

(** [result[organization].repositories]: the sequence of repository
    objects and the page info of the first page received. *)
Record Accumulator : Type := mkAccumulator {
  acc_nodes : list loc;
  acc_pageInfo : PageInfo
}.

Inductive Event : Type :=
| EvEnterpriseQuery (enterprise : JsVal)
| EvQuery (organization collaboratorsCursor repositoriesCursor : JsVal)
| EvWriteFile (path content : string)
| EvUploadArtifacts
| EvPostIssue (csv : string)
| EvExit.

Record Collector : Type := mkCollector {
  organizations : list JsVal;                 (* the [login] of each entry *)
  enterprise : JsVal;
  result : JsObject (option Accumulator);     (* [None] is [null] *)
  normalizedData : list (list JsVal);
  heap : list RepoObj;
  trace : list Event
}.

Definition set_organizations (l : list JsVal) (st : Collector) : Collector :=
  {| organizations := l; enterprise := enterprise st; result := result st;
     normalizedData := normalizedData st; heap := heap st; trace := trace st |}.

Definition set_result (r : JsObject (option Accumulator)) (st : Collector) : Collector :=
  {| organizations := organizations st; enterprise := enterprise st; result := r;
     normalizedData := normalizedData st; heap := heap st; trace := trace st |}.

Definition set_normalizedData (d : list (list JsVal)) (st : Collector) : Collector :=
  {| organizations := organizations st; enterprise := enterprise st; result := result st;
     normalizedData := d; heap := heap st; trace := trace st |}.

Definition set_heap (h : list RepoObj) (st : Collector) : Collector :=
  {| organizations := organizations st; enterprise := enterprise st; result := result st;
     normalizedData := normalizedData st; heap := h; trace := trace st |}.

Definition log (e : Event) (st : Collector) : Collector :=
  {| organizations := organizations st; enterprise := enterprise st; result := result st;
     normalizedData := normalizedData st; heap := heap st; trace := trace st ++ [e] |}.

Definition set_edges (e : option (list Edge)) (o : RepoObj) : RepoObj :=
  {| obj_name := obj_name o; obj_edges := e; obj_pageInfo := obj_pageInfo o;
     previousCursor := previousCursor o |}.

Definition set_previousCursor (c : JsVal) (o : RepoObj) : RepoObj :=
  {| obj_name := obj_name o; obj_edges := obj_edges o; obj_pageInfo := obj_pageInfo o;
     previousCursor := c |}.

(** ** The pagination and merge engine *)

(** How an [async] method ends: its promise resolves, it rejects (here
    always with a [TypeError]), or the model's fuel ran out before either. *)
Inductive Outcome : Type :=
| Returned
| Thrown
| OutOfFuel.

(** The same for [requestOrganizationData], whose resolved value is used. *)
Inductive Requested : Type :=
| ReqData (data : option RepositoriesPage)
| ReqThrown
| ReqOutOfFuel.

Section Engine.
(** [this.graphqlClient(organizationQuery, {organization,
    collaboratorsCursor, repositoriesCursor})] *)
Variable graphqlClient : JsVal -> JsVal -> JsVal -> Response.

(** [requestOrganizationData]. In the [catch] block the log line reads
    [error.data.organization.repositories.nodes[0].name] before the
    retry, which throws when the partial data or its first node is
    missing. *)
Fixpoint requestOrganizationData (fuel : nat)
    (organization collaboratorsCursor repositoriesCursor : JsVal)
    (st : Collector) : Collector * Requested :=
  match fuel with
  | 0 => (st, ReqOutOfFuel)
  | S fuel' =>
      let collaboratorsCursor := default_null collaboratorsCursor in
      let repositoriesCursor := default_null repositoriesCursor in
      let st := log (EvQuery organization collaboratorsCursor repositoriesCursor) st in
      match graphqlClient organization collaboratorsCursor repositoriesCursor with
      | Resolved data => (st, ReqData data)
      | Rejected None => (st, ReqData None)
      | Rejected (Some error) =>
          if String.eqb (message error) ERROR_MESSAGE_ARCHIVED_REPO then
            match data error with
            | Some partial =>
                match partial_nodes partial with
                | _ :: _ =>
                    requestOrganizationData fuel' organization JNull
                      (endCursor (partial_pageInfo partial)) st
                | [] => (st, ReqThrown)
                end
            | None => (st, ReqThrown)
            end
          else (st, ReqData None)
      end
  end.

(** What one invocation of [collectData] does after its query. *)
Inductive Step : Type :=
| Stop (st : Collector) (o : Outcome)
| Again (st : Collector) (collaboratorsCursor repositoriesCursor : JsVal).

(** Lines 208-227 of [collectData]: choose [result] (the accumulator of
    the organization if there is one, the page [data] itself otherwise),
    merge [currentRepository] into it and store it. [None] is a
    [TypeError]; otherwise the new state, [result] and
    [repositoriesInResult] (the length before the merge). In the branch
    that appends, the log line of line 219 reads
    [lastRepositoryInResult.collaborators.edges.length] before anything
    is changed, which throws when those edges are [null]. *)
Definition merge (organization repositoriesCursor : JsVal)
    (currentRepository : loc) (data : Accumulator) (st : Collector)
    : option (Collector * Accumulator * nat) :=
  let key := ToString organization in
  let result0 :=
    match obj_get key (result st) with
    | Some (Some r) => r
    | _ => data
    end in
  let repositoriesInResult := length (acc_nodes result0) in
  (* nodes[repositoriesInResult - 1]: undefined on an empty sequence *)
  match acc_nodes result0 !! (repositoriesInResult - 1) with
  | None => None
  | Some lastRepositoryInResult =>
      match heap st !! currentRepository, heap st !! lastRepositoryInResult with
      | Some current, Some last =>
          let merged : option (list loc * list RepoObj) :=
            if String.eqb (obj_name current) (obj_name last) then
              (* spreading null throws *)
              match obj_edges last, obj_edges current with
              | Some le, Some ce =>
                  Some (acc_nodes result0,
                        <[lastRepositoryInResult := set_edges (Some (le ++ ce)) last]> (heap st))
              | _, _ => None
              end
            else
              (* reading the length of null edges throws *)
              match obj_edges last with
              | Some _ =>
                  Some (acc_nodes result0 ++ [currentRepository],
                        <[lastRepositoryInResult := set_previousCursor repositoriesCursor last]> (heap st))
              | None => None
              end
          in
          match merged with
          | None => None
          | Some (nodes', heap') =>
              let result1 := {| acc_nodes := nodes'; acc_pageInfo := acc_pageInfo result0 |} in
              Some (set_result (obj_set key (Some result1) (result st)) (set_heap heap' st),
                    result1, repositoriesInResult)
          end
      | _, _ => None
      end
  end.

(** Lines 229-253: the cursors of the next call, read from
    [collaboratorsPage = currentRepository.collaborators], from
    [repositoriesPage.pageInfo] and from [result]. *)
Definition next_call (currentRepository : loc)
    (repositories_pageInfo : PageInfo) (result1 : Accumulator)
    (repositoriesInResult : nat) (st : Collector) : Step :=
  match heap st !! currentRepository with
  | None => Stop st Thrown
  | Some current =>
      if hasNextPage (obj_pageInfo current) then
        if Nat.eqb repositoriesInResult 1 then
          Again st (endCursor (obj_pageInfo current)) JNull
        else
          match acc_nodes result1 !! (repositoriesInResult - 2) with
          | Some before =>
              match heap st !! before with
              | Some b => Again st (endCursor (obj_pageInfo current)) (previousCursor b)
              | None => Stop st Thrown
              end
          | None => Stop st Thrown
          end
      else if hasNextPage repositories_pageInfo then
        Again st JNull (endCursor repositories_pageInfo)
      else Stop st Returned
  end.

(** The body of [collectData] from [const repositoriesPage] on, for a
    page with at least one node. The nodes of the page are fresh objects
    at the end of the store and [currentRepository] is the first of
    them. *)
Definition merge_page (organization repositoriesCursor : JsVal)
    (repositoriesPage : RepositoriesPage) (st : Collector) : Step :=
  let currentRepository : loc := length (heap st) in
  let st := set_heap (heap st ++ map alloc (nodes repositoriesPage)) st in
  let data :=
    {| acc_nodes := seq currentRepository (length (nodes repositoriesPage));
       acc_pageInfo := repositories_pageInfo repositoriesPage |} in
  match merge organization repositoriesCursor currentRepository data st with
  | None => Stop st Thrown
  | Some (st', result1, repositoriesInResult) =>
      next_call currentRepository (repositories_pageInfo repositoriesPage)
        result1 repositoriesInResult st'
  end.

(** One invocation of [collectData] given what the request gave. *)
Definition collect_step (organization repositoriesCursor : JsVal)
    (st : Collector) (r : Requested) : Step :=
  match r with
  | ReqOutOfFuel => Stop st OutOfFuel
  | ReqThrown => Stop st Thrown
  | ReqData None => Stop st Returned
  | ReqData (Some repositoriesPage) =>
      match nodes repositoriesPage with
      | [] => Stop st Returned
      | _ :: _ => merge_page organization repositoriesCursor repositoriesPage st
      end
  end.

Fixpoint collectData (fuel : nat)
    (organization collaboratorsCursor repositoriesCursor : JsVal)
    (st : Collector) : Collector * Outcome :=
  match fuel with
  | 0 => (st, OutOfFuel)
  | S fuel' =>
      let '(st1, r) :=
        requestOrganizationData (S fuel') organization
          collaboratorsCursor repositoriesCursor st in
      match collect_step organization repositoriesCursor st1 r with
      | Stop st2 o => (st2, o)
      | Again st2 collaboratorsCursor' repositoriesCursor' =>
          collectData fuel' organization collaboratorsCursor' repositoriesCursor' st2
      end
  end.

(** The [for ... of this.organizations] loop of [startCollection]. An
    exception leaves the loop (it is caught around it). *)
Fixpoint collect_organizations (fuel : nat) (logins : list JsVal)
    (st : Collector) : Collector * Outcome :=
  match logins with
  | [] => (st, Returned)
  | login :: rest =>
      let st := set_result (obj_set (ToString login) None (result st)) st in
      match collectData fuel login JUndefined JUndefined st with
      | (st', Returned) => collect_organizations fuel rest st'
      | (st', o) => (st', o)
      end
  end.
End Engine.

(** ** The normalizer *)

(** The array pushed for one collaborator edge. *)
Definition record_of (enterprise : JsVal) (organization repository : string)
    (collaborator : Edge) : list JsVal :=
  [ enterprise; JStr organization; JStr repository;
    actor_name (node collaborator); actor_login (node collaborator);
    permission collaborator ].

(** [repository.collaborators.edges.forEach(collaborator => push ...)],
    after the [!edges] guard. A location always denotes an object of the
    store; the model skips a dangling one. *)
Definition normalize_repository (enterprise : JsVal) (organization : string)
    (h : list RepoObj) (normalizedData : list (list JsVal)) (repository : loc)
    : list (list JsVal) :=
  match h !! repository with
  | Some r =>
      match obj_edges r with
      | None => normalizedData
      | Some es =>
          fold_left
            (fun acc collaborator =>
               acc ++ [record_of enterprise organization (obj_name r) collaborator])
            es normalizedData
      end
  | None => normalizedData
  end.

(** The callback of [Object.keys(this.result).forEach]: a missing or
    [null] accumulator returns at once ([repositories] is always present on
    an accumulator, so the second half of the guard never fires). *)
Definition normalize_organization (enterprise : JsVal)
    (res : JsObject (option Accumulator)) (h : list RepoObj)
    (normalizedData : list (list JsVal)) (organization : string)
    : list (list JsVal) :=
  match obj_get organization res with
  | Some (Some acc) =>
      fold_left (normalize_repository enterprise organization h)
        (acc_nodes acc) normalizedData
  | _ => normalizedData
  end.

Definition normalizeResult (st : Collector) : Collector :=
  set_normalizedData
    (fold_left (normalize_organization (enterprise st) (result st) (heap st))
       (Object_keys (result st)) (normalizedData st))
    st.

(** ** Serialisation *)

Definition keys : list string :=
  ["enterprise"; "organization"; "repo"; "user"; "login"; "permission"].

(** [Array.prototype.join] on strings *)
Fixpoint join (sep : string) (l : list string) : string :=
  match l with
  | [] => ""
  | [x] => x
  | x :: l' => x +:+ sep +:+ join sep l'
  end.

(** [JSONtoCSV]; [record[i]] is [undefined] past the end of the record. *)
Definition JSONtoCSV (EOL : string) (json : list (list JsVal)) : string :=
  fold_left
    (fun csv record =>
       fold_left
         (fun csv i =>
            let csv := csv +:+ ToString (nth i record JUndefined) in
            if negb (Nat.eqb i (length keys - 1)) then csv +:+ "," else csv)
         (seq 0 (length keys)) csv
       +:+ EOL)
    json
    (join "," keys +:+ EOL).

(** The line feed, [os.EOL] on POSIX systems. *)
Definition LF : string := String "010"%char EmptyString.

Definition quote_char : ascii := "034"%char.
Definition backslash : ascii := "092"%char.

Definition hex_digit (n : N) : ascii :=
  ascii_of_N (if (n <? 10)%N then 48 + n else 87 + n).

Definition str2 (a b : ascii) : string := String a (String b EmptyString).

(** [QuoteJSONString] on one code unit below 128 (a larger byte belongs to
    a UTF-8 sequence, which is copied as it is). *)
Definition json_escape (c : ascii) : string :=
  let n := N_of_ascii c in
  if (n =? 8)%N then str2 backslash "b"
  else if (n =? 9)%N then str2 backslash "t"
  else if (n =? 10)%N then str2 backslash "n"
  else if (n =? 12)%N then str2 backslash "f"
  else if (n =? 13)%N then str2 backslash "r"
  else if (n =? 34)%N then str2 backslash quote_char
  else if (n =? 92)%N then str2 backslash backslash
  else if (n <? 32)%N then
    str2 backslash "u" +:+ "00" +:+ str2 (hex_digit (n / 16)) (hex_digit (n mod 16))
  else String c EmptyString.

Fixpoint json_escape_string (s : string) : string :=
  match s with
  | EmptyString => EmptyString
  | String c s' => json_escape c +:+ json_escape_string s'
  end.

(** [JSON.stringify] of a string *)
Definition JSON_stringify_string (s : string) : string :=
  String quote_char (json_escape_string s +:+ String quote_char EmptyString).

(** [JSON.stringify] of an element of an array: [undefined] and [null]
    both give [null]. *)
Definition JSON_stringify_value (v : JsVal) : string :=
  match v with
  | JStr s => JSON_stringify_string s
  | _ => "null"
  end.

(** [JSON.stringify] of [normalizedData] *)
Definition JSON_stringify_records (json : list (list JsVal)) : string :=
  "[" +:+ join ","
    (map (fun record => "[" +:+ join "," (map JSON_stringify_value record) +:+ "]") json)
  +:+ "]".

(** ** Export and the run as a whole *)

(** How [startCollection] ends: [process.exit()] at the end of
    [endCollection], a rejection nobody handles, or fuel running out. *)
Inductive Ending : Type :=
| ProcessExit
| Unhandled
| Unfinished.

Section Run.
Variable graphqlClient : JsVal -> JsVal -> JsVal -> Response.

(** The enterprise query: the logins of [enterprise.organizations.nodes],
    or [None] when the query rejects or yields no enterprise. *)
Variable enterpriseClient : JsVal -> option (list JsVal).

Variable EOL : string.                                   (* [os.EOL] *)

(** Whether these steps resolve ([true]) or reject. *)
Variable writeFileAsync : string -> string -> bool.      (* path, content *)
Variable createandUploadArtifacts : bool.
Variable postResultsToIssue : string -> bool.

(** [endCollection]; the flag tells whether [process.exit()] was reached
    ([false]: one of the awaited steps rejected). *)
Definition endCollection (st : Collector) : Collector * bool :=
  let st := normalizeResult st in
  let json := normalizedData st in
  let csv := JSONtoCSV EOL json in
  let json_path := DATA_FOLDER +:+ "/" +:+ ARTIFACT_FILE_NAME +:+ ".json" in
  let csv_path := DATA_FOLDER +:+ "/" +:+ ARTIFACT_FILE_NAME +:+ ".csv" in
  let st := log (EvWriteFile json_path (JSON_stringify_records json)) st in
  if negb (writeFileAsync json_path (JSON_stringify_records json)) then (st, false) else
  let st := log (EvWriteFile csv_path (JSON_stringify_string csv)) st in
  if negb (writeFileAsync csv_path (JSON_stringify_string csv)) then (st, false) else
  let st := log EvUploadArtifacts st in
  if negb createandUploadArtifacts then (st, false) else
  let st := log (EvPostIssue csv) st in
  if negb (postResultsToIssue csv) then (st, false) else
  (log EvExit st, true).

Definition finish (r : Collector * bool) : Collector * Ending :=
  (fst r, if snd r then ProcessExit else Unhandled).

(** The first lines of [startCollection]: with an enterprise, its
    organizations replace [this.organizations]. The flag is [false] when
    the query rejects or [enterpriseData] is [null]; this happens outside
    the [try]. *)
Definition expand_enterprise (st : Collector) : Collector * bool :=
  if truthy (enterprise st) then
    let st := log (EvEnterpriseQuery (enterprise st)) st in
    match enterpriseClient (enterprise st) with
    | Some logins => (set_organizations logins st, true)
    | None => (st, false)
    end
  else (st, true).

(** [startCollection]: the loop and the first [endCollection] are inside
    the [try], and the [catch] calls [endCollection] again. *)
Definition startCollection (fuel : nat) (st : Collector) : Collector * Ending :=
  match expand_enterprise st with
  | (st, false) => (st, Unhandled)
  | (st, true) =>
      match collect_organizations graphqlClient fuel (organizations st) st with
      | (st1, OutOfFuel) => (st1, Unfinished)
      | (st1, Thrown) => finish (endCollection st1)
      | (st1, Returned) =>
          match endCollection st1 with
          | (st2, true) => (st2, ProcessExit)
          | (st2, false) => finish (endCollection st2)
          end
      end
  end.

(** [new CollectUserData(token, organization, enterprise, options)] as
    [main] calls it ([options.data] absent): [None] when [validateInput]
    reports the configuration error and exits. *)
Definition CollectUserData (organization enterprise : JsVal) : option Collector :=
  if truthy organization && truthy enterprise then None
  else Some {| organizations := [organization]; enterprise := enterprise;
               result := []; normalizedData := []; heap := []; trace := [] |}.

(** [main]: the inputs are [core.getInput(...)] (a string, empty when the
    input is absent) and the environment variable (possibly undefined). *)
Definition main (fuel : nat) (input_organization : string) (env_ORGANIZATION : JsVal)
    (input_enterprise : string) (env_ENTERPRISE : JsVal)
    : option (Collector * Ending) :=
  let organization := js_or input_organization env_ORGANIZATION in
  let enterprise := js_or input_enterprise env_ENTERPRISE in
  match CollectUserData organization enterprise with
  | None => None
  | Some collector => Some (startCollection fuel collector)
  end.
End Run.

(** ** A well-behaved Gateway

    The reference Gateway over a finite organization: repositories are
    served one per page, the collaborators of the repository [pageSize] at
    a time. A cursor is the decimal numeral of the number of items before
    it ([null]: none), so cursors advance monotonically, every collection
    is finite, and both [hasNextPage] flags turn false at the end. *)

Definition cursor_of (n : nat) : JsVal := JStr (pretty n).

Definition position (c : JsVal) : option nat :=
  match c with
  | JStr s => N.to_nat <$> canonical_numeral s
  | _ => Some 0
  end.

Definition collaborators_page (pageSize : nat) (es : list Edge) (after : nat)
    : Collaborators :=
  let page := take pageSize (drop after es) in
  {| edges := Some page;
     pageInfo :=
       {| hasNextPage := Nat.ltb (after + pageSize) (length es);
          endCursor := match page with
                       | [] => JNull
                       | _ :: _ => cursor_of (after + length page)
                       end |} |}.

Definition repositories_page (pageSize : nat) (repos : list (string * list Edge))
    (after_repository after_collaborator : nat) : RepositoriesPage :=
  {| nodes :=
       match repos !! after_repository with
       | Some (nm, es) =>
           [ {| name := nm;
                collaborators := collaborators_page pageSize es after_collaborator |} ]
       | None => []
       end;
     repositories_pageInfo :=
       {| hasNextPage := Nat.ltb (S after_repository) (length repos);
          endCursor := if Nat.ltb after_repository (length repos)
                       then cursor_of (S after_repository) else JNull |} |}.

Definition well_behaved_gateway (login : string) (pageSize : nat)
    (repos : list (string * list Edge)) : JsVal -> JsVal -> JsVal -> Response :=
  fun organization collaboratorsCursor repositoriesCursor =>
    if decide (organization = JStr login) then
      match position repositoriesCursor, position collaboratorsCursor with
      | Some i, Some j => Resolved (Some (repositories_page pageSize repos i j))
      | _, _ => Rejected (Some {| message := "Invalid cursor"; data := None |})
      end
    else Resolved None.

(** The scenario of the specification: organization [acme], repository
    [r1] with alice/admin and bob/read on two pages of one, repository
    [r2] with carol/write. *)
Definition collaborator (nm lg perm : string) : Edge :=
  {| node := {| actor_name := JStr nm; actor_login := JStr lg |};
     permission := JStr perm |}.

Definition alice : Edge := collaborator "Alice" "alice" "admin".
Definition bob : Edge := collaborator "Bob" "bob" "read".
Definition carol : Edge := collaborator "Carol" "carol" "write".

Definition acme : JsVal -> JsVal -> JsVal -> Response :=
  well_behaved_gateway "acme" 1 [("r1", [alice; bob]); ("r2", [carol])].

Definition fresh (organization enterprise : JsVal) : Collector :=
  {| organizations := [organization]; enterprise := enterprise;
     result := []; normalizedData := []; heap := []; trace := [] |}.

(** The organization on which the traversal goes wrong: [r1] has one page
    of collaborators, [r2] has two. *)
Definition second_repository_paged : JsVal -> JsVal -> JsVal -> Response :=
  well_behaved_gateway "acme" 1 [("r1", [alice]); ("r2", [bob; carol])].

(** A Gateway that refuses the collaborators of the repositories named in
    [archived]: the query is rejected with the message of
    [ERROR_MESSAGE_ARCHIVED_REPO] and the partial data of the page. *)
Definition gateway_with_archived (login : string) (pageSize : nat)
    (repos : list (string * list Edge)) (archived : list string)
    : JsVal -> JsVal -> JsVal -> Response :=
  fun organization collaboratorsCursor repositoriesCursor =>
    match well_behaved_gateway login pageSize repos organization
            collaboratorsCursor repositoriesCursor with
    | Resolved (Some page) =>
        match nodes page with
        | r :: _ =>
            if bool_decide (name r ∈ archived) then
              Rejected (Some {| message := ERROR_MESSAGE_ARCHIVED_REPO;
                                data := Some {| partial_nodes := map name (nodes page);
                                                partial_pageInfo := repositories_pageInfo page |} |})
            else Resolved (Some page)
        | [] => Resolved (Some page)
        end
    | r => r
    end.

(** The scenario of the specification with an archived repository in the
    middle of three. *)
Definition with_archived1 : JsVal -> JsVal -> JsVal -> Response :=
  gateway_with_archived "acme" 1
    [("r1", [alice]); ("archived1", [bob]); ("r3", [carol])] ["archived1"].

(** Two Gateways side by side: the second answers for the organizations
    the first does not know. *)
Definition or_else (g1 g2 : JsVal -> JsVal -> JsVal -> Response)
    : JsVal -> JsVal -> JsVal -> Response :=
  fun organization collaboratorsCursor repositoriesCursor =>
    match g1 organization collaboratorsCursor repositoriesCursor with
    | Resolved None => g2 organization collaboratorsCursor repositoriesCursor
    | r => r
    end.

(** An enterprise with the organizations [b] and [7], listed in this order. *)
Definition b_and_7 : JsVal -> JsVal -> JsVal -> Response :=
  or_else (well_behaved_gateway "b" 1 [("rb", [bob])])
          (well_behaved_gateway "7" 1 [("r7", [carol])]).

(** A Gateway that knows no organization, and one that always fails. *)
Definition no_organization : JsVal -> JsVal -> JsVal -> Response :=
  fun _ _ _ => Resolved None.

Definition unreachable : JsVal -> JsVal -> JsVal -> Response :=
  fun _ _ _ => Rejected (Some {| message := "Bad credentials"; data := None |}).

(** ** Properties of the accumulated state, as the specification words them *)

(** The records of the specification's normalizer: one per collaborator
    edge, by nesting. *)
Definition records_of_repository (enterprise : JsVal) (organization : string)
    (h : list RepoObj) (repository : loc) : list (list JsVal) :=
  match h !! repository with
  | Some r =>
      match obj_edges r with
      | Some es => map (record_of enterprise organization (obj_name r)) es
      | None => []
      end
  | None => []
  end.

Definition records_of_organization (enterprise : JsVal)
    (res : JsObject (option Accumulator)) (h : list RepoObj)
    (organization : string) : list (list JsVal) :=
  match obj_get organization res with
  | Some (Some acc) =>
      concat (map (records_of_repository enterprise organization h) (acc_nodes acc))
  | _ => []
  end.

(** The records of the organizations taken in a given order. *)
Definition records_in_order (enterprise : JsVal)
    (res : JsObject (option Accumulator)) (h : list RepoObj)
    (order : list string) : list (list JsVal) :=
  concat (map (records_of_organization enterprise res h) order).

(** The number of collaborator edges held by the state. *)
Definition edge_count_repository (h : list RepoObj) (repository : loc) : nat :=
  match h !! repository with
  | Some r => match obj_edges r with Some es => length es | None => 0 end
  | None => 0
  end.

Definition edge_count_organization (res : JsObject (option Accumulator))
    (h : list RepoObj) (organization : string) : nat :=
  match obj_get organization res with
  | Some (Some acc) => sum_list (map (edge_count_repository h) (acc_nodes acc))
  | _ => 0
  end.

Definition edge_count (res : JsObject (option Accumulator)) (h : list RepoObj) : nat :=
  sum_list (map (edge_count_organization res h) (Object_keys res)).

Definition JsVal_eqb (a b : JsVal) : bool :=
  match a, b with
  | JUndefined, JUndefined => true
  | JNull, JNull => true
  | JStr x, JStr y => String.eqb x y
  | _, _ => false
  end.

Definition Edge_eqb (a b : Edge) : bool :=
  JsVal_eqb (actor_name (node a)) (actor_name (node b))
  && JsVal_eqb (actor_login (node a)) (actor_login (node b))
  && JsVal_eqb (permission a) (permission b).

(** An entry is in progress (its collaborators are not fully drained)
    while the Gateway, which serves the repositories [repos], holds a
    collaborator of the repository of that name that is not among the
    edges of the entry. *)
Definition in_progress (repos : list (string * list Edge)) (o : RepoObj) : bool :=
  let held := match obj_edges o with Some es => es | None => [] end in
  existsb (fun repo : string * list Edge =>
             String.eqb (fst repo) (obj_name o)
             && existsb (fun e => negb (existsb (Edge_eqb e) held)) (snd repo))
          repos.

(** "At most one entry is in progress, and it is the last one": no entry
    before the last is in progress. *)
Definition only_last_in_progress (repos : list (string * list Edge))
    (h : list RepoObj) (acc : Accumulator) : bool :=
  forallb (fun l : loc =>
             match h !! l with
             | Some o => negb (in_progress repos o)
             | None => true
             end)
          (removelast (acc_nodes acc)).

(** The shape every accumulated repository sequence has: not empty, no
    object twice, every location allocated. *)
Definition sequence_ok (h : list RepoObj) (acc : Accumulator) : Prop :=
  acc_nodes acc <> [] /\ NoDup (acc_nodes acc) /\
  Forall (fun l : loc => l < length h) (acc_nodes acc).

Definition store_ok (st : Collector) : Prop :=
  forall (k : string) (acc : Accumulator),
    obj_get k (result st) = Some (Some acc) -> sequence_ok (heap st) acc.

(** The state a [Step] carries. *)
Definition step_state (s : Step) : Collector :=
  match s with
  | Stop st _ => st
  | Again st _ _ => st
  end.

Definition step_thrown (s : Step) : bool :=
  match s with
  | Stop _ Thrown => true
  | _ => false
  end.

(** What [merge] stores and returns for the sequence [nodes'] and the
    store [heap']. *)
Definition merged (organization : JsVal) (st : Collector) (pi : PageInfo)
    (nodes' : list loc) (heap' : list RepoObj) (repositoriesInResult : nat)
    : option (Collector * Accumulator * nat) :=
  let result1 := {| acc_nodes := nodes'; acc_pageInfo := pi |} in
  Some (set_result (obj_set (ToString organization) (Some result1) (result st))
          (set_heap heap' st),
        result1, repositoriesInResult).

(** The Gateway serves at most one repository per page (the query asks
    for the first repository after the cursor). *)
Definition one_repository_per_page (g : JsVal -> JsVal -> JsVal -> Response) : Prop :=
  forall organization cc rc page,
    g organization cc rc = Resolved (Some page) -> length (nodes page) <= 1.

(** The two states between which the traversal of
    [second_repository_paged] alternates: the last entry is a copy of [r1]
    and the next query is [(null, "1")], or the last entry is a copy of
    [r2] and the next query is [("1", null)]. In the first, the entry two
    places before the end (if any) has a [null] [previousCursor]. The
    last entry always has an edge list. *)
Definition about_to_fetch_r2 (st : Collector) : Prop :=
  exists (acc : Accumulator) (l : list loc) (x : loc) (ox : RepoObj),
    obj_get "acme" (result st) = Some (Some acc) /\
    acc_nodes acc = l ++ [x] /\
    heap st !! x = Some ox /\ obj_name ox = "r1" /\ obj_edges ox <> None /\
    Forall (fun y : loc => y < length (heap st)) l /\
    (x ∉ l) /\
    (l = [] \/
     exists (l' : list loc) (y : loc) (oy : RepoObj),
       l = l' ++ [y] /\ heap st !! y = Some oy /\ previousCursor oy = JNull).

Definition about_to_refetch_r1 (st : Collector) : Prop :=
  exists (acc : Accumulator) (l : list loc) (x : loc) (ox : RepoObj),
    obj_get "acme" (result st) = Some (Some acc) /\
    acc_nodes acc = l ++ [x] /\
    heap st !! x = Some ox /\ obj_name ox = "r2" /\ obj_edges ox <> None /\
    Forall (fun y : loc => y < length (heap st)) l.

(** The two pages that [second_repository_paged] keeps serving: the first
    page of [r2], and what is left of [r1] after its only collaborator. *)
Definition r2_first_page : RepositoryNode :=
  {| name := "r2";
     collaborators :=
       {| edges := Some [bob];
          pageInfo := {| hasNextPage := true; endCursor := JStr "1" |} |} |}.

Definition r1_past_the_end : RepositoryNode :=
  {| name := "r1";
     collaborators :=
       {| edges := Some [];
          pageInfo := {| hasNextPage := false; endCursor := JNull |} |} |}.

Definition page_of_r2 : RepositoriesPage :=
  {| nodes := [r2_first_page];
     repositories_pageInfo := {| hasNextPage := false; endCursor := JStr "2" |} |}.

Definition page_of_r1_again : RepositoriesPage :=
  {| nodes := [r1_past_the_end];
     repositories_pageInfo := {| hasNextPage := true; endCursor := JStr "1" |} |}.

(** The first page of [acme], and the rejection [with_archived1] answers
    with when the traversal reaches [archived1]. *)
Definition acme_first_page : RepositoriesPage :=
  {| nodes := [ {| name := "r1";
                   collaborators :=
                     {| edges := Some [alice];
                        pageInfo := {| hasNextPage := true; endCursor := JStr "1" |} |} |} ];
     repositories_pageInfo := {| hasNextPage := true; endCursor := JStr "1" |} |}.

Definition archived1_partial : PartialData :=
  {| partial_nodes := ["archived1"];
     partial_pageInfo := {| hasNextPage := true; endCursor := JStr "2" |} |}.

Definition archived1_error : GraphqlError :=
  {| message := ERROR_MESSAGE_ARCHIVED_REPO; data := Some archived1_partial |}.

Definition page_of_r3 : RepositoriesPage :=
  {| nodes := [ {| name := "r3";
                   collaborators :=
                     {| edges := Some [carol];
                        pageInfo := {| hasNextPage := false; endCursor := JStr "1" |} |} |} ];
     repositories_pageInfo := {| hasNextPage := false; endCursor := JStr "3" |} |}.

(** The collector after the first page of [acme]. *)
Definition after_first_page : Collector :=
  step_state (merge_page (JStr "acme") JUndefined acme_first_page
                (fresh (JStr "acme") JUndefined)).

(** An export in which everything succeeds, and one in which the tabular
    file cannot be written. *)
Definition writes_succeed : string -> string -> bool := fun _ _ => true.
Definition csv_write_fails : string -> string -> bool :=
  fun path _ => negb (String.eqb path "./data/raw-data.csv").
Definition posts_succeed : string -> bool := fun _ => true.
Definition no_enterprise : JsVal -> option (list JsVal) := fun _ => None.

(** The tabular layout the specification describes: one line per record,
    its six fields joined by commas. *)
Definition csv_line (record : list JsVal) : string :=
  join "," (map (fun i => ToString (nth i record JUndefined)) (seq 0 (length keys))).

Fixpoint csv_lines (EOL : string) (json : list (list JsVal)) : string :=
  match json with
  | [] => ""
  | record :: rest => csv_line record +:+ EOL +:+ csv_lines EOL rest
  end.

(** The collector after the complete traversal of [acme]. *)
Definition acme_collected : Collector :=
  fst (collect_organizations acme 3 [JStr "acme"] (fresh (JStr "acme") JUndefined)).

(** The enterprise query that lists [b] and then [7]. *)
Definition enterprise_of_b_and_7 : JsVal -> option (list JsVal) :=
  fun _ => Some [JStr "b"; JStr "7"].

(** A collector whose only organization could not be read. *)
Definition nothing_collected : Collector :=
  fst (collect_organizations unreachable 1 [JStr "acme"] (fresh (JStr "acme") JUndefined)).

(** ** The optional steps of the export

    [createandUploadArtifacts] and [postResultsToIssue] in their own right.
    The artifact client, the Octokit client, the clock and the
    [csv-to-markdown-table] package are outside the repository and are
    taken as parameters. *)

(** [s.split('/')]: the pieces between the slashes, at least one. *)
Fixpoint split_slash (s : string) : list string :=
  match s with
  | EmptyString => [""]
  | String c s' =>
      if Ascii.eqb c "/"%char then "" :: split_slash s'
      else match split_slash s' with
           | piece :: pieces => String c piece :: pieces
           | [] => [String c EmptyString]
           end
  end.

(** A string without a slash. *)
Fixpoint slash_free (s : string) : bool :=
  match s with
  | EmptyString => true
  | String c s' => negb (Ascii.eqb c "/"%char) && slash_free s'
  end.

(** [this.options] as [main] builds it. *)
Record Options : Type := mkOptions {
  options_repository : JsVal;      (* process.env.GITHUB_REPOSITORY *)
  options_postToIssue : JsVal      (* core.getInput('issue') || process.env.ISSUE *)
}.

Definition main_options (env_GITHUB_REPOSITORY : JsVal) (input_issue : string)
    (env_ISSUE : JsVal) : Options :=
  {| options_repository := env_GITHUB_REPOSITORY;
     options_postToIssue := js_or input_issue env_ISSUE |}.

Inductive OctokitCall : Type :=
| IssuesCreate (owner : string) (repo : JsVal) (title body : string)
| IssuesUpdate (owner : string) (repo : JsVal) (issue_number : nat) (state : string).

Section Issue.
Variable csvToMarkdown : string -> string.   (* csvToMarkdown(csv, ",", true) *)
Variable toLocaleString : string.            (* new Date().toLocaleString() *)
(** [octokit.issues.create]: the number of the issue created, or [None]
    when the call rejects; [octokit.issues.update]: whether it resolves. *)
Variable issues_create : string -> JsVal -> string -> string -> option nat.
Variable issues_update : string -> JsVal -> nat -> string -> bool.

(** [postResultsToIssue]: the Octokit calls made, and whether the method
    resolves. Without the flag it returns at once; [split] on an
    undefined repository throws before any call. *)
Definition postResultsToIssue_calls (options : Options) (csv : string)
    : list OctokitCall * bool :=
  if negb (truthy (options_postToIssue options)) then ([], true)
  else
    match options_repository options with
    | JStr full_name =>
        let pieces := split_slash full_name in
        let owner := nth 0 pieces "" in
        let repo := match pieces !! 1 with
                    | Some piece => JStr piece
                    | None => JUndefined
                    end in
        let body := csvToMarkdown csv in
        let title := "Audit log report for " +:+ toLocaleString in
        match issues_create owner repo title body with
        | None => ([IssuesCreate owner repo title body], false)
        | Some issue_number =>
            ([IssuesCreate owner repo title body;
              IssuesUpdate owner repo issue_number "closed"],
             issues_update owner repo issue_number "closed")
        end
    | _ => ([], false)
    end.
End Issue.

(** The arguments of [artifactClient.uploadArtifact]. *)
Record ArtifactUpload : Type := mkArtifactUpload {
  artifactName : string;
  files : list string;
  rootDirectory : string;
  continueOnError : bool
}.

(** [createandUploadArtifacts]: the upload made, if any, and whether the
    method resolves. [getTime] is [new Date().getTime()]. *)
Definition createandUploadArtifacts_call (GITHUB_RUN_NUMBER : JsVal) (getTime : N)
    (uploadArtifact : ArtifactUpload -> bool) : option ArtifactUpload * bool :=
  if negb (truthy GITHUB_RUN_NUMBER) then (None, true)
  else
    let upload :=
      {| artifactName := "user-report-" +:+ pretty getTime;
         files := [ "./data/" +:+ ARTIFACT_FILE_NAME +:+ ".json";
                    "./data/" +:+ ARTIFACT_FILE_NAME +:+ ".csv" ];
         rootDirectory := "./";
         continueOnError := true |} in
    (Some upload, uploadArtifact upload).

(** ** Notions used to state what the code keeps *)

(** A repository object after further merges: same name, same page info,
    and edges that extend the earlier ones. *)
Definition object_grows (o o' : RepoObj) : Prop :=
  obj_name o' = obj_name o /\ obj_pageInfo o' = obj_pageInfo o /\
  match obj_edges o with
  | Some es => exists more, obj_edges o' = Some (es ++ more)
  | None => obj_edges o' = None
  end.

Definition store_grows (h h' : list RepoObj) : Prop :=
  forall (l : loc) (o : RepoObj),
    h !! l = Some o -> exists o', h' !! l = Some o' /\ object_grows o o'.

(** The accumulator of an organization after further merges: the earlier
    sequence is the beginning of the later one. *)
Definition accumulator_grows (res res' : JsObject (option Accumulator))
    (organization : string) : Prop :=
  forall acc, obj_get organization res = Some (Some acc) ->
    exists acc', obj_get organization res' = Some (Some acc') /\
                 acc_nodes acc `prefix_of` acc_nodes acc' /\
                 acc_pageInfo acc' = acc_pageInfo acc.

(** A query of the trace for [organization], with cursors that are
    [null] or strings. *)
Definition query_for (organization : JsVal) (e : Event) : Prop :=
  exists cc rc, e = EvQuery organization cc rc /\ cc <> JUndefined /\ rc <> JUndefined.

Definition is_query (e : Event) : bool :=
  match e with
  | EvQuery _ _ _ => true
  | _ => false
  end.

(** A Gateway that refuses every query as for an archived repository. *)
Definition always_archived : JsVal -> JsVal -> JsVal -> Response :=
  fun _ _ _ => Rejected (Some archived1_error).

(** An input or environment variable that counts as given. *)
Definition given (input : string) (env : JsVal) : Prop :=
  input <> "" \/ exists s, env = JStr s /\ s <> "".

(** Every character satisfies [P]. *)
Fixpoint all_chars (P : ascii -> bool) (s : string) : bool :=
  match s with
  | EmptyString => true
  | String c s' => P c && all_chars P s'
  end.

Definition printable (c : ascii) : bool := (32 <=? N_of_ascii c)%N.

(** Strings one after the other. *)
Fixpoint concat_strings (l : list string) : string :=
  match l with
  | [] => ""
  | x :: l' => x +:+ concat_strings l'
  end.

(** The record [JSONtoCSV] reads: the first six fields, [undefined] where
    the array is shorter. *)
Definition six_fields (record : list JsVal) : list JsVal :=
  take 6 (record ++ replicate 6 JUndefined).

(** The steps of a complete export, in order. *)
Definition export_steps (EOL : string) (json : list (list JsVal)) : list Event :=
  [ EvWriteFile "./data/raw-data.json" (JSON_stringify_records json);
    EvWriteFile "./data/raw-data.csv" (JSON_stringify_string (JSONtoCSV EOL json));
    EvUploadArtifacts;
    EvPostIssue (JSONtoCSV EOL json);
    EvExit ].

(** What the merges of one organization may do between two states, when
    the accumulator of the organization holds no object below [n0]: the
    store grows, the objects below [n0] and the other organizations are
    left alone, and the accumulator only grows. *)
Definition traversal_effect (n0 : nat) (organization : string)
    (st st' : Collector) : Prop :=
  length (heap st) <= length (heap st') /\
  store_grows (heap st) (heap st') /\
  (forall l : loc, l < n0 -> heap st' !! l = heap st !! l) /\
  (forall k, k <> organization -> obj_get k (result st') = obj_get k (result st)) /\
  accumulator_grows (result st) (result st') organization /\
  (forall acc, obj_get organization (result st') = Some (Some acc) ->
               Forall (fun l : loc => n0 <= l) (acc_nodes acc)).

(** An answer of the Gateway that [collectData] takes as "no data": no
    organization, an empty repository page, or a rejection other than the
    archived-repository one. *)
Definition no_data (answer : Response) : Prop :=
  answer = Resolved None \/
  (exists page, answer = Resolved (Some page) /\ nodes page = []) \/
  answer = Rejected None \/
  (exists error, answer = Rejected (Some error) /\
                 message error <> ERROR_MESSAGE_ARCHIVED_REPO).

(** The paths of the files an event sequence writes, in order. *)
Definition written_paths (events : list Event) : list string :=
  concat (map (fun e => match e with
                        | EvWriteFile path _ => [path]
                        | _ => []
                        end) events).

(** ** Further instances *)

(** The organization [b] alone, its only page, and the collector once
    [b] has been collected from [b_and_7]. *)
Definition only_b : JsVal -> JsVal -> JsVal -> Response :=
  well_behaved_gateway "b" 1 [("rb", [bob])].

Definition rb_node : RepositoryNode :=
  {| name := "rb";
     collaborators :=
       {| edges := Some [bob];
          pageInfo := {| hasNextPage := false; endCursor := JStr "1" |} |} |}.

Definition rb_page : RepositoriesPage :=
  {| nodes := [rb_node];
     repositories_pageInfo := {| hasNextPage := false; endCursor := JStr "1" |} |}.

Definition b_collected : Collector :=
  fst (collect_organizations b_and_7 1 [JStr "b"] (fresh JUndefined (JStr "e"))).

Definition b_accumulator : Accumulator :=
  {| acc_nodes := [0];
     acc_pageInfo := {| hasNextPage := false; endCursor := JStr "1" |} |}.

(** The loop about to traverse [b]: its entry has just been set to
    [null]. *)
Definition b_about_to_start : Collector :=
  set_result [("b", None)] (fresh (JStr "b") JUndefined).

(** The organizations [b] and [acme] side by side. *)
Definition b_and_acme : JsVal -> JsVal -> JsVal -> Response := or_else only_b acme.

Definition b_and_acme_collected : Collector :=
  fst (collect_organizations b_and_acme 3 [JStr "b"; JStr "acme"]
         (fresh JUndefined JUndefined)).





(** An enterprise without organizations. *)
Definition empty_enterprise : JsVal -> option (list JsVal) := fun _ => Some [].

(** Octokit answering every creation with issue 7 and accepting every
    update; the table of a CSV text left abstract as the text itself. *)
Definition creates_issue_7 : string -> JsVal -> string -> string -> option nat :=
  fun _ _ _ _ => Some 7.
Definition updates_succeed : string -> JsVal -> nat -> string -> bool :=
  fun _ _ _ _ => true.
Definition as_it_is : string -> string := fun csv => csv.

Definition audit_options : Options :=
  {| options_repository := JStr "octo/audit"; options_postToIssue := JStr "true" |}.

Definition options_without_repository : Options :=
  {| options_repository := JUndefined; options_postToIssue := JStr "true" |}.

(** ** Organizations whose repositories have one collaborator page each *)

(** The records a repository node stands for. *)
Definition node_records (enterprise : JsVal) (organization : string)
    (r : RepositoryNode) : list (list JsVal) :=
  match edges (collaborators r) with
  | Some es => map (record_of enterprise organization (name r)) es
  | None => []
  end.

Definition one_page (r : RepositoryNode) (pi : PageInfo) : RepositoriesPage :=
  {| nodes := [r]; repositories_pageInfo := pi |}.

(** The Gateway serves the repositories of [chain] one after the other
    from the repository cursor [rc] on: each on a page of its own, named
    differently from the one before, with no further collaborator page,
    and with a next repository page exactly when the chain goes on. Every
    repository but the last comes with an edge list (the merge of its
    successor reads the length of it). *)
Fixpoint served_in_turn (g : JsVal -> JsVal -> JsVal -> Response)
    (organization rc : JsVal) (previous : string)
    (chain : list (RepositoryNode * PageInfo)) : Prop :=
  match chain with
  | [] => True
  | (r, pi) :: rest =>
      g organization JNull (default_null rc) = Resolved (Some (one_page r pi)) /\
      name r <> previous /\
      hasNextPage (pageInfo (collaborators r)) = false /\
      hasNextPage pi = match rest with [] => false | _ :: _ => true end /\
      (rest <> [] -> edges (collaborators r) <> None) /\
      served_in_turn g organization (endCursor pi) (name r) rest
  end.

(** Two repositories with one collaborator each. *)
Definition two_small_repositories : JsVal -> JsVal -> JsVal -> Response :=
  well_behaved_gateway "acme" 1 [("r1", [alice]); ("r2", [bob])].

Definition small_r1 : RepositoryNode :=
  {| name := "r1";
     collaborators :=
       {| edges := Some [alice];
          pageInfo := {| hasNextPage := false; endCursor := JStr "1" |} |} |}.

Definition small_r2 : RepositoryNode :=
  {| name := "r2";
     collaborators :=
       {| edges := Some [bob];
          pageInfo := {| hasNextPage := false; endCursor := JStr "1" |} |} |}.

Definition acme_about_to_start : Collector :=
  set_result [("acme", None)] (fresh (JStr "acme") JUndefined).

(** A rejection as for an archived repository that carries no partial
    data, and a Gateway that answers with it. *)
Definition bare_archived_error : GraphqlError :=
  {| message := ERROR_MESSAGE_ARCHIVED_REPO; data := None |}.

Definition archived_without_data : JsVal -> JsVal -> JsVal -> Response :=
  fun _ _ _ => Rejected (Some bare_archived_error).

(** A first page whose repository has [null] edges. *)
Definition r1_without_edges : RepositoryNode :=
  {| name := "r1";
     collaborators :=
       {| edges := None;
          pageInfo := {| hasNextPage := false; endCursor := JNull |} |} |}.

Definition page_without_edges : RepositoriesPage :=
  one_page r1_without_edges {| hasNextPage := false; endCursor := JNull |}.

Definition serves_null_edges : JsVal -> JsVal -> JsVal -> Response :=
  fun _ _ _ => Resolved (Some page_without_edges).

(** ** The archived-repository message as the specification words it *)

Definition message_of_the_specification : string :=
  "must have administrative access to view collaborators of an archived repository".

(** [with_archived1] with its rejections carrying that wording. *)
Definition with_archived1_as_specified : JsVal -> JsVal -> JsVal -> Response :=
  fun organization collaboratorsCursor repositoriesCursor =>
    match with_archived1 organization collaboratorsCursor repositoriesCursor with
    | Rejected (Some error) =>
        Rejected (Some {| message := message_of_the_specification; data := data error |})
    | r => r
    end.

Definition archived1_error_as_specified : GraphqlError :=
  {| message := message_of_the_specification; data := Some archived1_partial |}.

(** ** The steps of an export and how they end *)

(** Whether a step of the export resolves, given how the file writes, the
    upload and the issue step end; [process.exit()] does not reject. *)
Definition step_resolves (writeFileAsync : string -> string -> bool)
    (createandUploadArtifacts : bool) (postResultsToIssue : string -> bool)
    (e : Event) : bool :=
  match e with
  | EvWriteFile path content => writeFileAsync path content
  | EvUploadArtifacts => createandUploadArtifacts
  | EvPostIssue csv => postResultsToIssue csv
  | _ => true
  end.

(** The steps that are attempted when each is awaited before the next:
    all up to and including the first that rejects. *)
Fixpoint until_rejected (resolves : Event -> bool) (steps : list Event) : list Event :=
  match steps with
  | [] => []
  | e :: rest => e :: (if resolves e then until_rejected resolves rest else [])
  end.

(** ** A repository with [null] edges between two others *)

Definition r2_without_edges : RepositoryNode :=
  {| name := "r2";
     collaborators :=
       {| edges := None;
          pageInfo := {| hasNextPage := false; endCursor := JNull |} |} |}.

Definition null_edges_in_the_middle : JsVal -> JsVal -> JsVal -> Response :=
  fun _ _ repositoriesCursor =>
    match repositoriesCursor with
    | JStr "1" =>
        Resolved (Some (one_page r2_without_edges
                          {| hasNextPage := true; endCursor := JStr "2" |}))
    | JStr _ =>
        Resolved (Some page_of_r3)
    | _ =>
        Resolved (Some (one_page small_r1 {| hasNextPage := true; endCursor := JStr "1" |}))
    end.

(** The collector after [r1] and the edgeless [r2] have been received. *)
Definition r2_without_edges_appended : Collector :=
  fst (collectData null_edges_in_the_middle 2 (JStr "acme") JUndefined JUndefined
         acme_about_to_start).

(** * Properties *)

(** ** Objects as dictionaries *)

Section JsObjectFacts.
Context {V : Type}.
Implicit Types (o : JsObject V) (k : string) (v : V).

Lemma obj_get_replace_eq k v o :
  obj_get k o <> None -> obj_get k (obj_replace k v o) = Some v.
Proof.
  induction o as [|[k' v'] o IH]; simpl; [congruence|].
  destruct (String.eqb k k') eqn:E; simpl.
  - now rewrite String.eqb_refl.
  - rewrite E. exact IH.
Qed.

Lemma obj_get_replace_ne k k' v o :
  k <> k' -> obj_get k' (obj_replace k v o) = obj_get k' o.
Proof.
  intros Hne. induction o as [|[k0 v0] o IH]; simpl; [reflexivity|].
  destruct (String.eqb k k0) eqn:E; simpl.
  - apply String.eqb_eq in E. subst k0.
    destruct (String.eqb k' k) eqn:E'; [|reflexivity].
    apply String.eqb_eq in E'. congruence.
  - now rewrite IH.
Qed.

Lemma obj_get_insert_index_eq n k v o :
  obj_get k o = None -> obj_get k (obj_insert_index n k v o) = Some v.
Proof.
  induction o as [|[k' v'] o IH]; simpl; intros H.
  - now rewrite String.eqb_refl.
  - destruct (String.eqb k k') eqn:E; [discriminate|].
    destruct (array_index k') as [n'|]; simpl.
    + destruct (n <? n')%N; simpl.
      * now rewrite String.eqb_refl.
      * rewrite E. now apply IH.
    + now rewrite String.eqb_refl.
Qed.

Lemma obj_get_insert_index_ne n k k' v o :
  k <> k' -> obj_get k' (obj_insert_index n k v o) = obj_get k' o.
Proof.
  intros Hne. apply String.eqb_neq in Hne. rewrite String.eqb_sym in Hne.
  induction o as [|[k0 v0] o IH]; simpl.
  - now rewrite Hne.
  - destruct (array_index k0) as [n'|]; simpl.
    + destruct (n <? n')%N; simpl.
      * now rewrite Hne.
      * now rewrite IH.
    + now rewrite Hne.
Qed.

Lemma obj_get_app_None k o o' :
  obj_get k o = None -> obj_get k (o ++ o') = obj_get k o'.
Proof.
  induction o as [|[k0 v0] o IH]; simpl; [reflexivity|].
  destruct (String.eqb k k0); [discriminate|]. exact IH.
Qed.

Lemma obj_get_app_Some k o o' v :
  obj_get k o = Some v -> obj_get k (o ++ o') = Some v.
Proof.
  induction o as [|[k0 v0] o IH]; simpl; [discriminate|].
  destruct (String.eqb k k0); [trivial|]. exact IH.
Qed.

(** Reading back what was assigned. *)
Lemma obj_get_set_eq k v o : obj_get k (obj_set k v o) = Some v.
Proof.
  unfold obj_set. destruct (obj_get k o) eqn:E.
  - apply obj_get_replace_eq. congruence.
  - destruct (array_index k).
    + now apply obj_get_insert_index_eq.
    + rewrite obj_get_app_None by exact E. simpl. now rewrite String.eqb_refl.
Qed.

(** An assignment leaves the other properties alone. *)
Lemma obj_get_set_ne k k' v o : k <> k' -> obj_get k' (obj_set k v o) = obj_get k' o.
Proof.
  intros Hne. unfold obj_set. destruct (obj_get k o) eqn:E.
  - now apply obj_get_replace_ne.
  - destruct (array_index k).
    + now apply obj_get_insert_index_ne.
    + destruct (obj_get k' o) eqn:E'.
      * now apply obj_get_app_Some.
      * rewrite obj_get_app_None by exact E'. simpl.
        apply String.eqb_neq in Hne. rewrite String.eqb_sym in Hne. now rewrite Hne.
Qed.

Lemma Object_keys_replace k v o : Object_keys (obj_replace k v o) = Object_keys o.
Proof.
  unfold Object_keys.
  induction o as [|[k' v'] o IH]; simpl; [reflexivity|].
  destruct (String.eqb k k') eqn:E; simpl.
  - apply String.eqb_eq in E. now subst.
  - f_equal. exact IH.
Qed.

(** Assigning to an existing property keeps the enumeration order. *)
Lemma Object_keys_set_present k v o :
  obj_get k o <> None -> Object_keys (obj_set k v o) = Object_keys o.
Proof.
  intros H. unfold obj_set. destruct (obj_get k o); [|congruence].
  apply Object_keys_replace.
Qed.

(** A new property that is not an array index goes last. *)
Lemma Object_keys_set_new k v o :
  obj_get k o = None -> array_index k = None ->
  Object_keys (obj_set k v o) = Object_keys o ++ [k].
Proof.
  intros H1 H2. unfold obj_set. rewrite H1, H2.
  unfold Object_keys. now rewrite map_app.
Qed.
End JsObjectFacts.

(** ** The normalizer *)

Lemma fold_left_push {A B : Type} (f : A -> B) (l : list A) (acc : list B) :
  fold_left (fun acc x => acc ++ [f x]) l acc = acc ++ map f l.
Proof.
  revert acc. induction l as [|x l IH]; intros acc; simpl.
  - now rewrite app_nil_r.
  - rewrite IH. now rewrite <- app_assoc.
Qed.

Lemma fold_left_append {A B : Type} (step : list B -> A -> list B) (f : A -> list B)
    (l : list A) (acc : list B) :
  (forall acc x, step acc x = acc ++ f x) ->
  fold_left step l acc = acc ++ concat (map f l).
Proof.
  intros Hstep. revert acc. induction l as [|x l IH]; intros acc; simpl.
  - now rewrite app_nil_r.
  - rewrite IH, Hstep. now rewrite <- app_assoc.
Qed.

Lemma normalize_repository_records enterprise organization h acc repository :
  normalize_repository enterprise organization h acc repository
  = acc ++ records_of_repository enterprise organization h repository.
Proof.
  unfold normalize_repository, records_of_repository.
  destruct (h !! repository) as [r|]; [|now rewrite app_nil_r].
  destruct (obj_edges r) as [es|]; [|now rewrite app_nil_r].
  apply fold_left_push.
Qed.

Lemma normalize_organization_records enterprise res h acc organization :
  normalize_organization enterprise res h acc organization
  = acc ++ records_of_organization enterprise res h organization.
Proof.
  unfold normalize_organization, records_of_organization.
  destruct (obj_get organization res) as [[a|]|]; try now rewrite app_nil_r.
  apply fold_left_append. intros. apply normalize_repository_records.
Qed.

Lemma normalizeResult_appends st :
  normalizedData (normalizeResult st)
  = normalizedData st
    ++ records_in_order (enterprise st) (result st) (heap st) (Object_keys (result st)).
Proof.
  unfold normalizeResult, records_in_order. simpl.
  apply fold_left_append. intros. apply normalize_organization_records.
Qed.

Lemma normalizeResult_frame st :
  organizations (normalizeResult st) = organizations st /\
  enterprise (normalizeResult st) = enterprise st /\
  result (normalizeResult st) = result st /\
  heap (normalizeResult st) = heap st /\
  trace (normalizeResult st) = trace st.
Proof. unfold normalizeResult. simpl. tauto. Qed.

Lemma length_concat_sum {A B : Type} (f : A -> list B) (l : list A) :
  length (concat (map f l)) = sum_list (map (fun x => length (f x)) l).
Proof.
  induction l as [|x l IH]; simpl; [reflexivity|].
  rewrite length_app, IH. reflexivity.
Qed.

Lemma records_of_repository_length enterprise organization h repository :
  length (records_of_repository enterprise organization h repository)
  = edge_count_repository h repository.
Proof.
  unfold records_of_repository, edge_count_repository.
  destruct (h !! repository) as [r|]; [|reflexivity].
  destruct (obj_edges r); [|reflexivity]. apply length_map.
Qed.

Lemma records_of_organization_length enterprise res h organization :
  length (records_of_organization enterprise res h organization)
  = edge_count_organization res h organization.
Proof.
  unfold records_of_organization, edge_count_organization.
  destruct (obj_get organization res) as [[a|]|]; try reflexivity.
  rewrite length_concat_sum. f_equal. apply map_ext.
  intros. apply records_of_repository_length.
Qed.

(** C6 (as amended): [normalizeResult] appends to [normalizedData] exactly
    one record per collaborator edge of the state, and nothing else; the
    records come organization by organization in the order in which
    [Object.keys] enumerates [result], within an organization repository
    by repository in sequence order, within a repository edge by edge in
    sequence order; an organization whose accumulator is [null] and a
    repository whose edges are [null] contribute no record, and the
    function has no failing path. *)
Theorem normalizeResult_nesting_order (st : Collector) :
  normalizedData (normalizeResult st)
  = normalizedData st
    ++ concat (map (fun organization =>
         match obj_get organization (result st) with
         | Some (Some acc) =>
             concat (map (fun repository =>
               match heap st !! repository with
               | Some r =>
                   match obj_edges r with
                   | Some es => map (record_of (enterprise st) organization (obj_name r)) es
                   | None => []
                   end
               | None => []
               end) (acc_nodes acc))
         | _ => []
         end) (Object_keys (result st)))
  /\ length (normalizedData (normalizeResult st))
     = length (normalizedData st) + edge_count (result st) (heap st)
  /\ (forall organization, obj_get organization (result st) = Some None ->
        records_of_organization (enterprise st) (result st) (heap st) organization = [])
  /\ result (normalizeResult st) = result st
  /\ heap (normalizeResult st) = heap st.
Proof.
  split; [apply normalizeResult_appends|].
  split.
  - rewrite normalizeResult_appends, length_app. f_equal.
    unfold records_in_order, edge_count. rewrite length_concat_sum.
    f_equal. apply map_ext. intros. apply records_of_organization_length.
  - split; [|split; apply normalizeResult_frame].
    intros organization H. unfold records_of_organization. now rewrite H.
Qed.

(** The records depend on the enterprise, the result object and the store
    only. *)
Lemma normalizeResult_same_input st st' :
  enterprise st' = enterprise st -> result st' = result st -> heap st' = heap st ->
  normalizedData (normalizeResult st')
  = normalizedData st'
    ++ records_in_order (enterprise st) (result st) (heap st) (Object_keys (result st)).
Proof. intros E R H. rewrite normalizeResult_appends. now rewrite E, R, H. Qed.

(** ** The request and its retry *)

Section RequestFacts.
Variable graphqlClient : JsVal -> JsVal -> JsVal -> Response.

(** A request touches nothing but the trace, which it extends. *)
Lemma request_frame fuel organization cc rc st :
  let st' := fst (requestOrganizationData graphqlClient fuel organization cc rc st) in
  organizations st' = organizations st /\ enterprise st' = enterprise st /\
  result st' = result st /\ normalizedData st' = normalizedData st /\
  heap st' = heap st /\ exists more, trace st' = trace st ++ more.
Proof.
  revert cc rc st. induction fuel as [|fuel IH]; intros cc rc st; simpl.
  - repeat split; trivial. exists []. now rewrite app_nil_r.
  - set (q := EvQuery organization (default_null cc) (default_null rc)).
    assert (Hlog : organizations (log q st) = organizations st /\
                   enterprise (log q st) = enterprise st /\
                   result (log q st) = result st /\
                   normalizedData (log q st) = normalizedData st /\
                   heap (log q st) = heap st /\
                   exists more, trace (log q st) = trace st ++ more).
    { repeat split; trivial. now exists [q]. }
    destruct (graphqlClient organization (default_null cc) (default_null rc))
      as [d|[error|]]; try exact Hlog.
    destruct (String.eqb (message error) ERROR_MESSAGE_ARCHIVED_REPO); try exact Hlog.
    destruct (data error) as [partial|]; try exact Hlog.
    destruct (partial_nodes partial) as [|nm rest]; try exact Hlog.
    destruct (IH JNull (endCursor (partial_pageInfo partial)) (log q st))
      as (H1 & H2 & H3 & H4 & H5 & more & H6).
    repeat split; try (etransitivity; [eassumption|reflexivity]).
    exists ([q] ++ more). rewrite H6. simpl. now rewrite <- app_assoc.
Qed.

(** C3 (as amended): when the query is rejected with the message of
    [ERROR_MESSAGE_ARCHIVED_REPO] (the literal of line 16, "Must have push
    access to view repository collaborators.") and the partial data of the
    page, the
    request merges nothing (result, store and normalized data are left as
    they were) and re-issues the query right away, once, with the
    collaborator cursor reset to [null] and the repository cursor taken
    from [error.data.organization.repositories.pageInfo.endCursor]; when
    that query resolves, its data is what the request returns, after
    exactly two queries. A rejection with any other error (or with no
    error value) is answered with [null] after the one query, without a
    retry. *)
Theorem archived_repository_retry fuel organization cc rc st rejection :
  graphqlClient organization (default_null cc) (default_null rc) = Rejected rejection ->
  let failed := EvQuery organization (default_null cc) (default_null rc) in
  (forall error partial,
      rejection = Some error ->
      message error = ERROR_MESSAGE_ARCHIVED_REPO ->
      data error = Some partial ->
      partial_nodes partial <> [] ->
      let cursor := default_null (endCursor (partial_pageInfo partial)) in
      let out := requestOrganizationData graphqlClient (S (S fuel)) organization cc rc st in
      (exists more,
          trace (fst out) = trace st ++ [failed; EvQuery organization JNull cursor] ++ more) /\
      result (fst out) = result st /\ heap (fst out) = heap st /\
      normalizedData (fst out) = normalizedData st /\
      (forall d, graphqlClient organization JNull cursor = Resolved d ->
                 snd out = ReqData d /\
                 trace (fst out) = trace st ++ [failed; EvQuery organization JNull cursor]))
  /\
  ((rejection = None \/
    exists error, rejection = Some error /\ message error <> ERROR_MESSAGE_ARCHIVED_REPO) ->
   requestOrganizationData graphqlClient (S fuel) organization cc rc st
   = (log failed st, ReqData None)).
Proof.
  intros Hrej failed. split.
  - intros error partial -> Hmsg Hdata Hnodes cursor out.
    assert (Hout : out = requestOrganizationData graphqlClient (S fuel) organization
                           JNull (endCursor (partial_pageInfo partial)) (log failed st)).
    { unfold out. cbn [requestOrganizationData]. fold failed. rewrite Hrej.
      apply String.eqb_eq in Hmsg. rewrite Hmsg, Hdata.
      destruct (partial_nodes partial); [congruence|reflexivity]. }
    destruct (request_frame (S fuel) organization JNull
                (endCursor (partial_pageInfo partial)) (log failed st))
      as (_ & _ & Hr & Hn & Hh & _).
    rewrite <- Hout in Hr, Hn, Hh.
    split; [|split; [exact Hr|split; [exact Hh|split; [exact Hn|]]]].
    + rewrite Hout. cbn [requestOrganizationData]. fold cursor.
      set (st2 := log (EvQuery organization (default_null JNull) cursor) (log failed st)).
      assert (Hst2 : trace st2 = trace st ++ [failed; EvQuery organization JNull cursor]).
      { unfold st2. simpl. now rewrite <- app_assoc. }
      assert (Hnil : forall r : Requested, exists more,
                 trace (fst (st2, r))
                 = trace st ++ [failed; EvQuery organization JNull cursor] ++ more).
      { intros r. exists []. rewrite app_nil_r. exact Hst2. }
      destruct (graphqlClient organization (default_null JNull) cursor) as [d|[e2|]];
        [apply Hnil| |apply Hnil].
      destruct (String.eqb (message e2) ERROR_MESSAGE_ARCHIVED_REPO); [|apply Hnil].
      destruct (data e2) as [p2|]; [|apply Hnil].
      destruct (partial_nodes p2); [apply Hnil|].
      destruct (request_frame fuel organization JNull (endCursor (partial_pageInfo p2)) st2)
        as (_ & _ & _ & _ & _ & more & Hmore).
      exists more. rewrite Hmore, Hst2. now rewrite <- app_assoc.
    + intros d Hd. rewrite Hout. cbn [requestOrganizationData]. fold cursor.
      change (default_null JNull) with JNull. rewrite Hd. simpl.
      split; [reflexivity|]. now rewrite <- app_assoc.
  - intros Hother. cbn [requestOrganizationData]. fold failed. rewrite Hrej.
    destruct Hother as [->|(error & -> & Hmsg)]; [reflexivity|].
    apply String.eqb_neq in Hmsg. now rewrite Hmsg.
Qed.
End RequestFacts.

(** ** The merge *)

Section MergeFacts.
Implicit Types (st : Collector) (acc : Accumulator) (h : list RepoObj).

(** The merge into an existing accumulator whose last entry is [last]. *)
Lemma merge_existing organization rc (cur : loc) data st acc (l : list loc)
    (last : loc) (c o : RepoObj) :
  obj_get (ToString organization) (result st) = Some (Some acc) ->
  acc_nodes acc = l ++ [last] ->
  heap st !! cur = Some c ->
  heap st !! last = Some o ->
  merge organization rc cur data st =
    if String.eqb (obj_name c) (obj_name o) then
      match obj_edges o, obj_edges c with
      | Some le, Some ce =>
          merged organization st (acc_pageInfo acc) (l ++ [last])
            (<[last := set_edges (Some (le ++ ce)) o]> (heap st)) (S (length l))
      | _, _ => None
      end
    else
      match obj_edges o with
      | Some _ =>
          merged organization st (acc_pageInfo acc) (l ++ [last; cur])
            (<[last := set_previousCursor rc o]> (heap st)) (S (length l))
      | None => None
      end.
Proof.
  intros Hacc Hnodes Hc Ho. unfold merge, merged. rewrite Hacc, Hnodes.
  rewrite length_app. simpl.
  replace (length l + 1 - 1) with (length l + 0) by lia.
  rewrite lookup_app_r by lia.
  replace (length l + 0 - length l) with 0 by lia. simpl.
  rewrite Hc, Ho.
  replace (length l + 1) with (S (length l)) by lia.
  destruct (String.eqb (obj_name c) (obj_name o)).
  - destruct (obj_edges o), (obj_edges c); reflexivity.
  - destruct (obj_edges o); [|reflexivity]. now rewrite <- app_assoc.
Qed.

(** The merge of the first page of an organization: [result] is the page
    itself, its last repository is [currentRepository], and the edges of
    that object are appended to themselves. *)
Lemma merge_first organization rc (cur : loc) data st (c : RepoObj) :
  (forall acc, obj_get (ToString organization) (result st) <> Some (Some acc)) ->
  acc_nodes data = [cur] ->
  heap st !! cur = Some c ->
  merge organization rc cur data st =
    match obj_edges c with
    | Some es =>
        merged organization st (acc_pageInfo data) [cur]
          (<[cur := set_edges (Some (es ++ es)) c]> (heap st)) 1
    | None => None
    end.
Proof.
  intros Hacc Hnodes Hc. unfold merge, merged.
  assert (Hr : match obj_get (ToString organization) (result st) with
               | Some (Some r) => r
               | _ => data
               end = data).
  { destruct (obj_get (ToString organization) (result st)) as [[a|]|]; trivial.
    now destruct (Hacc a). }
  rewrite Hr, Hnodes. simpl. rewrite Hc, String.eqb_refl.
  destruct (obj_edges c); reflexivity.
Qed.

Lemma store_ok_grow st h :
  store_ok st -> length (heap st) <= length h -> store_ok (set_heap h st).
Proof.
  intros Hok Hlen k acc Hk. destruct (Hok k acc Hk) as (H1 & H2 & H3).
  repeat split; trivial. simpl.
  eapply Forall_impl; [exact H3|]. simpl. intros; lia.
Qed.

(** Storing a well-shaped sequence keeps the state well-shaped. *)
Lemma store_ok_set st organization acc h :
  store_ok st -> length (heap st) <= length h -> sequence_ok h acc ->
  store_ok (set_result (obj_set organization (Some acc) (result st)) (set_heap h st)).
Proof.
  intros Hok Hlen Hacc k a. simpl.
  destruct (decide (organization = k)) as [->|Hne].
  - rewrite obj_get_set_eq. intros [= <-]. exact Hacc.
  - rewrite obj_get_set_ne by exact Hne. intros Hk.
    exact (store_ok_grow st h Hok Hlen k a Hk).
Qed.

Lemma store_ok_reset st organization :
  store_ok st -> store_ok (set_result (obj_set organization None (result st)) st).
Proof.
  intros Hok k a. simpl.
  destruct (decide (organization = k)) as [->|Hne].
  - rewrite obj_get_set_eq. discriminate.
  - rewrite obj_get_set_ne by exact Hne. apply Hok.
Qed.
End MergeFacts.

Section MergePageFacts.
Implicit Types (st : Collector) (acc : Accumulator) (h : list RepoObj).

Lemma next_call_state cur rpi result1 n st :
  step_state (next_call cur rpi result1 n st) = st.
Proof.
  unfold next_call. destruct (heap st !! cur) as [c|]; [|reflexivity].
  destruct (hasNextPage (obj_pageInfo c)).
  - destruct (Nat.eqb n 1); [reflexivity|].
    destruct (acc_nodes result1 !! (n - 2)) as [b|]; [|reflexivity].
    destruct (heap st !! b); reflexivity.
  - destruct (hasNextPage rpi); reflexivity.
Qed.

(** A page merged into an existing accumulator. *)
Lemma merge_page_existing organization rc page r rest st acc (l : list loc)
    (last : loc) (o : RepoObj) :
  nodes page = r :: rest ->
  obj_get (ToString organization) (result st) = Some (Some acc) ->
  acc_nodes acc = l ++ [last] ->
  heap st !! last = Some o ->
  merge_page organization rc page st =
    let cur := length (heap st) in
    let h0 := heap st ++ map alloc (r :: rest) in
    if String.eqb (name r) (obj_name o) then
      match obj_edges o, edges (collaborators r) with
      | Some le, Some ce =>
          next_call cur (repositories_pageInfo page)
            {| acc_nodes := l ++ [last]; acc_pageInfo := acc_pageInfo acc |} (S (length l))
            (set_result
               (obj_set (ToString organization)
                  (Some {| acc_nodes := l ++ [last]; acc_pageInfo := acc_pageInfo acc |})
                  (result st))
               (set_heap (<[last := set_edges (Some (le ++ ce)) o]> h0) st))
      | _, _ => Stop (set_heap h0 st) Thrown
      end
    else
      match obj_edges o with
      | Some _ =>
          next_call cur (repositories_pageInfo page)
            {| acc_nodes := l ++ [last; cur]; acc_pageInfo := acc_pageInfo acc |}
            (S (length l))
            (set_result
               (obj_set (ToString organization)
                  (Some {| acc_nodes := l ++ [last; cur]; acc_pageInfo := acc_pageInfo acc |})
                  (result st))
               (set_heap (<[last := set_previousCursor rc o]> h0) st))
      | None => Stop (set_heap h0 st) Thrown
      end.
Proof.
  intros Hnodes Hacc Hl Ho. unfold merge_page. rewrite Hnodes.
  assert (Hlast : last < length (heap st)) by (eapply lookup_lt_Some; eauto).
  rewrite (merge_existing organization rc (length (heap st)) _
             (set_heap (heap st ++ map alloc (r :: rest)) st) acc l last (alloc r) o);
    trivial.
  - cbv zeta. simpl obj_name. simpl obj_edges.
    destruct (String.eqb (name r) (obj_name o)).
    + destruct (obj_edges o), (edges (collaborators r)); reflexivity.
    + destruct (obj_edges o); reflexivity.
  - simpl. rewrite lookup_app_r by lia. now rewrite Nat.sub_diag.
  - simpl. now rewrite lookup_app_l.
Qed.

(** The first page of an organization. *)
Lemma merge_page_first organization rc page r st :
  nodes page = [r] ->
  (forall acc, obj_get (ToString organization) (result st) <> Some (Some acc)) ->
  merge_page organization rc page st =
    let cur := length (heap st) in
    let h0 := heap st ++ [alloc r] in
    match edges (collaborators r) with
    | Some es =>
        next_call cur (repositories_pageInfo page)
          {| acc_nodes := [cur]; acc_pageInfo := repositories_pageInfo page |} 1
          (set_result
             (obj_set (ToString organization)
                (Some {| acc_nodes := [cur]; acc_pageInfo := repositories_pageInfo page |})
                (result st))
             (set_heap (<[cur := set_edges (Some (es ++ es)) (alloc r)]> h0) st))
    | None => Stop (set_heap h0 st) Thrown
    end.
Proof.
  intros Hnodes Hacc. unfold merge_page. rewrite Hnodes.
  rewrite (merge_first organization rc (length (heap st)) _
             (set_heap (heap st ++ map alloc [r]) st) (alloc r)); trivial.
  - cbv zeta. simpl obj_edges.
    destruct (edges (collaborators r)); reflexivity.
  - simpl. rewrite lookup_app_r by lia. now rewrite Nat.sub_diag.
Qed.

(** Every merge keeps the accumulated sequences well-shaped. *)
Lemma merge_page_store_ok organization rc page r st :
  store_ok st -> nodes page = [r] ->
  store_ok (step_state (merge_page organization rc page st)).
Proof.
  intros Hok Hnodes.
  assert (Hgrow : length (heap st) <= length (heap st ++ [alloc r]))
    by (rewrite length_app; lia).
  destruct (obj_get (ToString organization) (result st)) as [[acc|]|] eqn:Hacc.
  - destruct (Hok _ _ Hacc) as (Hne & Hnd & Hall).
    destruct (exists_last Hne) as (l & last & Hl).
    assert (Hlast : last < length (heap st)).
    { rewrite Hl in Hall. apply Forall_app in Hall as [_ Hall].
      now inversion Hall. }
    destruct (lookup_lt_is_Some_2 _ _ Hlast) as [o Ho].
    rewrite (merge_page_existing organization rc page r [] st acc l last o); trivial.
    cbv zeta. simpl map.
    destruct (String.eqb (name r) (obj_name o)).
    + destruct (obj_edges o), (edges (collaborators r));
        try (simpl; now apply store_ok_grow).
      rewrite next_call_state. apply store_ok_set; trivial.
      * rewrite length_insert. exact Hgrow.
      * rewrite <- Hl. repeat split; trivial. simpl.
        eapply Forall_impl; [exact Hall|]. simpl. intros.
        rewrite length_insert, length_app. lia.
    + destruct (obj_edges o); [|simpl; now apply store_ok_grow].
      rewrite next_call_state. apply store_ok_set; trivial.
      * rewrite length_insert. exact Hgrow.
      * unfold sequence_ok. simpl.
        replace (l ++ [last; length (heap st)])
          with (acc_nodes acc ++ [length (heap st)])
          by (rewrite Hl, <- app_assoc; reflexivity).
        split; [now destruct (acc_nodes acc)|]. split.
        -- apply NoDup_app. split; [exact Hnd|]. split; [|apply NoDup_singleton].
           intros x Hx Hx'. apply list_elem_of_singleton in Hx'. subst x.
           rewrite Forall_forall in Hall. specialize (Hall _ Hx). lia.
        -- apply Forall_app. split.
           ++ eapply Forall_impl; [exact Hall|]. simpl. intros.
              rewrite length_insert, length_app. lia.
           ++ constructor; [|constructor].
              rewrite length_insert, length_app. simpl. lia.
  - rewrite (merge_page_first organization rc page r st); trivial;
      [|intros a; rewrite Hacc; discriminate].
    cbv zeta. destruct (edges (collaborators r));
      [|simpl; now apply store_ok_grow].
    rewrite next_call_state. apply store_ok_set; trivial.
    + rewrite length_insert. exact Hgrow.
    + repeat split; simpl; [discriminate|apply NoDup_singleton|].
      constructor; [|constructor]. rewrite length_insert, length_app. simpl. lia.
  - rewrite (merge_page_first organization rc page r st); trivial;
      [|intros a; rewrite Hacc; discriminate].
    cbv zeta. destruct (edges (collaborators r));
      [|simpl; now apply store_ok_grow].
    rewrite next_call_state. apply store_ok_set; trivial.
    + rewrite length_insert. exact Hgrow.
    + repeat split; simpl; [discriminate|apply NoDup_singleton|].
      constructor; [|constructor]. rewrite length_insert, length_app. simpl. lia.
Qed.
End MergePageFacts.

(** Every merge of a one-repository page keeps each accumulated
    repository sequence non-empty, free of repeated objects and within the
    store. Unless it throws, the merge leaves the organization
    with an accumulator such that: if there was one before, the page's
    repository is appended to the sequence exactly when its name differs
    from the name of the last entry (the former last entry then receives
    [previousCursor]), and otherwise the sequence is unchanged and the
    page's edges are appended, in order, to the edges of the last entry;
    in both cases every other object already in the store is left as it
    was, so only the last entry can change. If there was no accumulator,
    the sequence becomes the page's repository alone, and the older
    objects are left as they were. *)
Theorem merge_preserves_sequence (organization rc : JsVal) (page : RepositoriesPage)
    (r : RepositoryNode) (st : Collector) :
  store_ok st ->
  nodes page = [r] ->
  let cur := length (heap st) in
  let s := merge_page organization rc page st in
  let st' := step_state s in
  store_ok st' /\
  (step_thrown s = false ->
   exists acc', obj_get (ToString organization) (result st') = Some (Some acc') /\
     match obj_get (ToString organization) (result st) with
     | Some (Some acc) =>
         exists (l : list loc) (last : loc) (o : RepoObj),
           acc_nodes acc = l ++ [last] /\ heap st !! last = Some o /\
           (if String.eqb (name r) (obj_name o)
            then acc_nodes acc' = acc_nodes acc /\
                 exists le ce, obj_edges o = Some le /\
                   edges (collaborators r) = Some ce /\
                   heap st' !! last = Some (set_edges (Some (le ++ ce)) o)
            else acc_nodes acc' = acc_nodes acc ++ [cur] /\
                 heap st' !! last = Some (set_previousCursor rc o) /\
                 heap st' !! cur = Some (alloc r)) /\
           (forall x : loc, x < cur -> x <> last -> heap st' !! x = heap st !! x)
     | _ =>
         acc_nodes acc' = [cur] /\
         (forall x : loc, x < cur -> heap st' !! x = heap st !! x)
     end).
Proof.
  intros Hok Hnodes cur s st'.
  split; [now apply merge_page_store_ok with (r := r)|].
  unfold st', s. clear st' s.
  destruct (obj_get (ToString organization) (result st)) as [[acc|]|] eqn:Hacc.
  - destruct (Hok _ _ Hacc) as (Hne & Hnd & Hall).
    destruct (exists_last Hne) as (l & last & Hl).
    assert (Hlast : last < length (heap st)).
    { rewrite Hl in Hall. apply Forall_app in Hall as [_ Hall]. now inversion Hall. }
    destruct (lookup_lt_is_Some_2 _ _ Hlast) as [o Ho].
    rewrite (merge_page_existing organization rc page r [] st acc l last o); trivial.
    cbv zeta. simpl map.
    assert (Hother : forall (v : RepoObj) (x : loc), x < cur -> x <> last ->
              <[last := v]> (heap st ++ [alloc r]) !! x = heap st !! x).
    { intros v x Hx Hxl. rewrite list_lookup_insert_ne by congruence.
      now rewrite lookup_app_l. }
    destruct (String.eqb (name r) (obj_name o)) eqn:Hname.
    + destruct (obj_edges o) as [le|] eqn:Hle; [|discriminate].
      destruct (edges (collaborators r)) as [ce|] eqn:Hce; [|discriminate].
      intros _. rewrite next_call_state. simpl.
      eexists. split; [apply obj_get_set_eq|].
      exists l, last, o. rewrite Hname. simpl. rewrite Hl.
      repeat split; trivial.
      * exists le, ce. repeat split; trivial.
        apply list_lookup_insert_eq. rewrite length_app. lia.
      * intros. now apply Hother.
    + destruct (obj_edges o) as [le|] eqn:Hle; [|discriminate].
      intros _. rewrite next_call_state. simpl.
      eexists. split; [apply obj_get_set_eq|].
      exists l, last, o. rewrite Hname. simpl. rewrite Hl.
      repeat split; trivial.
      * now rewrite <- app_assoc.
      * apply list_lookup_insert_eq. rewrite length_app. lia.
      * rewrite list_lookup_insert_ne by (unfold cur; lia).
        rewrite lookup_app_r by (unfold cur; lia).
        unfold cur. now rewrite Nat.sub_diag.
      * intros. now apply Hother.
  - rewrite (merge_page_first organization rc page r st); trivial;
      [|intros a; rewrite Hacc; discriminate].
    cbv zeta. destruct (edges (collaborators r)); [|discriminate].
    intros _. rewrite next_call_state. simpl.
    eexists. split; [apply obj_get_set_eq|]. simpl. split; [reflexivity|].
    intros x Hx. rewrite list_lookup_insert_ne by (unfold cur in Hx; lia).
    now rewrite lookup_app_l.
  - rewrite (merge_page_first organization rc page r st); trivial;
      [|intros a; rewrite Hacc; discriminate].
    cbv zeta. destruct (edges (collaborators r)); [|discriminate].
    intros _. rewrite next_call_state. simpl.
    eexists. split; [apply obj_get_set_eq|]. simpl. split; [reflexivity|].
    intros x Hx. rewrite list_lookup_insert_ne by (unfold cur in Hx; lia).
    now rewrite lookup_app_l.
Qed.

(** ** The traversal *)

Section TraversalFacts.
Variable graphqlClient : JsVal -> JsVal -> JsVal -> Response.

Lemma request_resolved fuel organization cc rc st d :
  graphqlClient organization (default_null cc) (default_null rc) = Resolved d ->
  requestOrganizationData graphqlClient (S fuel) organization cc rc st
  = (log (EvQuery organization (default_null cc) (default_null rc)) st, ReqData d).
Proof. intros H. simpl. now rewrite H. Qed.

Lemma collectData_S fuel organization cc rc st :
  collectData graphqlClient (S fuel) organization cc rc st =
    let out := requestOrganizationData graphqlClient (S fuel) organization cc rc st in
    match collect_step organization rc (fst out) (snd out) with
    | Stop st2 o => (st2, o)
    | Again st2 cc' rc' => collectData graphqlClient fuel organization cc' rc' st2
    end.
Proof.
  cbn [collectData]. cbv zeta.
  destruct (requestOrganizationData graphqlClient (S fuel) organization cc rc st).
  reflexivity.
Qed.

(** One invocation of [collectData] whose query resolves with a page. *)
Lemma collectData_page fuel organization cc rc st page r rest :
  graphqlClient organization (default_null cc) (default_null rc) = Resolved (Some page) ->
  nodes page = r :: rest ->
  collectData graphqlClient (S fuel) organization cc rc st =
    match merge_page organization rc page
            (log (EvQuery organization (default_null cc) (default_null rc)) st) with
    | Stop st2 o => (st2, o)
    | Again st2 cc' rc' => collectData graphqlClient fuel organization cc' rc' st2
    end.
Proof.
  intros Hg Hnodes. rewrite collectData_S.
  rewrite (request_resolved _ _ _ _ _ _ Hg). cbv zeta. simpl fst. simpl snd.
  unfold collect_step. now rewrite Hnodes.
Qed.
End TraversalFacts.

Lemma second_repository_paged_r2 :
  second_repository_paged (JStr "acme") JNull (JStr "1") = Resolved (Some page_of_r2).
Proof. vm_compute. reflexivity. Qed.

Lemma second_repository_paged_r1_again :
  second_repository_paged (JStr "acme") (JStr "1") JNull = Resolved (Some page_of_r1_again).
Proof. vm_compute. reflexivity. Qed.

Lemma about_to_fetch_r2_step fuel st :
  about_to_fetch_r2 st ->
  exists st', about_to_refetch_r1 st' /\
    collectData second_repository_paged (S fuel) (JStr "acme") JNull (JStr "1") st
    = collectData second_repository_paged fuel (JStr "acme") (JStr "1") JNull st'.
Proof.
  intros (acc & l & x & ox & Hacc & Hl & Hx & Hname & Hedges & Hall & Hnotin & Hprev).
  assert (Hxlt : x < length (heap st)) by (eapply lookup_lt_Some; eauto).
  erewrite collectData_page;
    [|exact second_repository_paged_r2|reflexivity].
  set (st0 := log _ st).
  rewrite (merge_page_existing (JStr "acme") (JStr "1") page_of_r2 r2_first_page
             [] st0 acc l x ox);
    [|reflexivity|exact Hacc|exact Hl|exact Hx].
  cbv zeta. simpl name. rewrite Hname. simpl String.eqb. cbv iota.
  destruct (obj_edges ox) as [held|] eqn:Hheld; [|congruence].
  simpl map. simpl repositories_pageInfo.
  set (cur := length (heap st0)).
  set (h' := <[x := set_previousCursor (JStr "1") ox]> (heap st0 ++ _)).
  set (st1 := set_result _ _).
  assert (Hcur : h' !! cur = Some (alloc r2_first_page)).
  { unfold h'. rewrite list_lookup_insert_ne by (unfold cur, st0; simpl; lia).
    rewrite lookup_app_r by (unfold cur; lia). unfold cur. now rewrite Nat.sub_diag. }
  assert (Hst1 : about_to_refetch_r1 st1).
  { eexists _, (l ++ [x]), cur, _. unfold st1. simpl.
    rewrite obj_get_set_eq. split; [reflexivity|]. simpl.
    split; [now rewrite <- app_assoc|]. split; [exact Hcur|]. split; [reflexivity|].
    split; [simpl; discriminate|].
    apply Forall_app. split.
    - eapply Forall_impl; [exact Hall|]. simpl. intros. unfold h'.
      rewrite length_insert, length_app. unfold st0. simpl. lia.
    - constructor; [|constructor]. unfold h'.
      rewrite length_insert, length_app. unfold st0. simpl. lia. }
  exists st1. split; [exact Hst1|].
  unfold next_call. change (heap st1) with h'. rewrite Hcur. simpl obj_pageInfo.
  simpl hasNextPage. cbv iota. simpl endCursor.
  destruct Hprev as [->|(l' & y & oy & -> & Hy & Hyprev)].
  - reflexivity.
  - rewrite length_app. simpl length.
    replace (Nat.eqb (S (length l' + 1)) 1) with false
      by (symmetry; apply Nat.eqb_neq; lia).
    replace (S (length l' + 1) - 2) with (length l') by lia.
    simpl acc_nodes. rewrite <- app_assoc. rewrite lookup_app_r by lia.
    rewrite Nat.sub_diag. simpl.
    assert (Hyx : y <> x).
    { intros ->. apply Hnotin. apply elem_of_app. right. apply list_elem_of_singleton.
      reflexivity. }
    assert (Hylt : y < length (heap st)) by (eapply lookup_lt_Some; eauto).
    assert (Hy' : h' !! y = Some oy).
    { unfold h'. rewrite list_lookup_insert_ne by congruence.
      rewrite lookup_app_l by (unfold st0; simpl; lia). exact Hy. }
    rewrite Hy', Hyprev. reflexivity.
Qed.

Lemma about_to_refetch_r1_step fuel st :
  about_to_refetch_r1 st ->
  exists st', about_to_fetch_r2 st' /\
    collectData second_repository_paged (S fuel) (JStr "acme") (JStr "1") JNull st
    = collectData second_repository_paged fuel (JStr "acme") JNull (JStr "1") st'.
Proof.
  intros (acc & l & x & ox & Hacc & Hl & Hx & Hname & Hedges & Hall).
  assert (Hxlt : x < length (heap st)) by (eapply lookup_lt_Some; eauto).
  erewrite collectData_page;
    [|exact second_repository_paged_r1_again|reflexivity].
  set (st0 := log _ st).
  rewrite (merge_page_existing (JStr "acme") JNull page_of_r1_again r1_past_the_end
             [] st0 acc l x ox);
    [|reflexivity|exact Hacc|exact Hl|exact Hx].
  cbv zeta. simpl name. rewrite Hname. simpl String.eqb. cbv iota.
  destruct (obj_edges ox) as [held|] eqn:Hheld; [|congruence].
  simpl map. simpl repositories_pageInfo.
  set (cur := length (heap st0)).
  set (h' := <[x := set_previousCursor JNull ox]> (heap st0 ++ _)).
  set (st1 := set_result _ _).
  assert (Hcur : h' !! cur = Some (alloc r1_past_the_end)).
  { unfold h'. rewrite list_lookup_insert_ne by (unfold cur, st0; simpl; lia).
    rewrite lookup_app_r by (unfold cur; lia). unfold cur. now rewrite Nat.sub_diag. }
  assert (Hxh' : h' !! x = Some (set_previousCursor JNull ox)).
  { unfold h'. apply list_lookup_insert_eq. rewrite length_app. unfold st0. simpl. lia. }
  assert (Hst1 : about_to_fetch_r2 st1).
  { eexists _, (l ++ [x]), cur, _. unfold st1. simpl.
    rewrite obj_get_set_eq. split; [reflexivity|]. simpl.
    split; [now rewrite <- app_assoc|]. split; [exact Hcur|]. split; [reflexivity|].
    split; [simpl; discriminate|].
    split; [|split].
    - apply Forall_app. split.
      + eapply Forall_impl; [exact Hall|]. simpl. intros. unfold h'.
        rewrite length_insert, length_app. unfold st0. simpl. lia.
      + constructor; [|constructor]. unfold h'.
        rewrite length_insert, length_app. unfold st0. simpl. lia.
    - intros Hin. apply elem_of_app in Hin as [Hin|Hin].
      + rewrite Forall_forall in Hall. specialize (Hall _ Hin).
        unfold cur, st0 in Hall. simpl in Hall. unfold cur, st0 in *. simpl in *. lia.
      + apply list_elem_of_singleton in Hin. unfold cur, st0 in Hin. simpl in Hin. lia.
    - right. exists l, x, (set_previousCursor JNull ox). repeat split; trivial. }
  exists st1. split; [exact Hst1|].
  unfold next_call. change (heap st1) with h'. rewrite Hcur. reflexivity.
Qed.

Lemma traversal_alternates fuel :
  (forall st, about_to_fetch_r2 st ->
     snd (collectData second_repository_paged fuel (JStr "acme") JNull (JStr "1") st)
     = OutOfFuel) /\
  (forall st, about_to_refetch_r1 st ->
     snd (collectData second_repository_paged fuel (JStr "acme") (JStr "1") JNull st)
     = OutOfFuel).
Proof.
  induction fuel as [|fuel [IH1 IH2]]; [split; reflexivity|].
  split; intros st Hst.
  - destruct (about_to_fetch_r2_step fuel st Hst) as (st' & Hst' & ->). now apply IH2.
  - destruct (about_to_refetch_r1_step fuel st Hst) as (st' & Hst' & ->). now apply IH1.
Qed.

Lemma second_repository_paged_first :
  second_repository_paged (JStr "acme") JNull JNull
  = Resolved (Some
      {| nodes := [ {| name := "r1";
                       collaborators :=
                         {| edges := Some [alice];
                            pageInfo := {| hasNextPage := false; endCursor := JStr "1" |} |} |} ];
         repositories_pageInfo := {| hasNextPage := true; endCursor := JStr "1" |} |}).
Proof. vm_compute. reflexivity. Qed.

(** C7, on the organization of [second_repository_paged] (a well-behaved
    Gateway: two repositories, three collaborators, monotone cursors): the
    traversal started by [startCollection]'s loop never returns, whatever
    the fuel, and so the run never reaches the export. The engine
    alternates for ever between the first page of [r2] and the end of
    [r1], appending a repository at every call. *)
Theorem traversal_never_returns (fuel : nat) :
  snd (collect_organizations second_repository_paged fuel [JStr "acme"]
         (fresh (JStr "acme") JUndefined)) = OutOfFuel /\
  forall enterpriseClient EOL writeFileAsync createandUploadArtifacts postResultsToIssue,
    snd (startCollection second_repository_paged enterpriseClient EOL writeFileAsync
           createandUploadArtifacts postResultsToIssue fuel
           (fresh (JStr "acme") JUndefined)) = Unfinished.
Proof.
  assert (Hloop : snd (collect_organizations second_repository_paged fuel [JStr "acme"]
                         (fresh (JStr "acme") JUndefined)) = OutOfFuel).
  { cbn [collect_organizations].
    set (st0 := set_result _ _).
    assert (H : snd (collectData second_repository_paged fuel (JStr "acme")
                       JUndefined JUndefined st0) = OutOfFuel).
    { destruct fuel as [|fuel]; [reflexivity|].
      erewrite collectData_page; [|exact second_repository_paged_first|reflexivity].
      destruct (merge_page _ _ _ _) as [st1 o|st1 cc rc] eqn:Hm;
        vm_compute in Hm; [discriminate|].
      injection Hm as <- <- <-.
      apply traversal_alternates.
      eexists _, [], 0, _. simpl.
      split; [reflexivity|]. split; [reflexivity|]. split; [reflexivity|].
      split; [reflexivity|]. split; [simpl; discriminate|].
      split; [constructor|]. split; [|now left].
      apply not_elem_of_nil. }
    destruct (collectData _ _ _ _ _ st0) as [st' []]; simpl in H; try discriminate.
    reflexivity. }
  split; [exact Hloop|]. intros.
  unfold startCollection.
  change (expand_enterprise enterpriseClient (fresh (JStr "acme") JUndefined))
    with (fresh (JStr "acme") JUndefined, true). cbv iota beta.
  change (organizations (fresh (JStr "acme") JUndefined)) with [JStr "acme"].
  destruct (collect_organizations _ _ _ _) as [st1 o]. simpl in Hloop. subst o.
  reflexivity.
Qed.

(** ** What the traversal leaves untouched, and how the trace grows *)

Lemma merge_frame organization rc cur data st st' result1 n :
  merge organization rc cur data st = Some (st', result1, n) ->
  organizations st' = organizations st /\ enterprise st' = enterprise st /\
  normalizedData st' = normalizedData st /\ trace st' = trace st /\
  Object_keys (result st') = Object_keys (obj_set (ToString organization) None (result st)).
Proof.
  unfold merge.
  destruct (acc_nodes _ !! _) as [last|]; [|discriminate].
  destruct (heap st !! cur) as [c|]; [|discriminate].
  destruct (heap st !! last) as [o|]; [|discriminate].
  assert (Hkeys : forall v : option Accumulator,
            Object_keys (obj_set (ToString organization) v (result st))
            = Object_keys (obj_set (ToString organization) None (result st))).
  { intros v. unfold obj_set.
    destruct (obj_get (ToString organization) (result st)).
    - now rewrite !Object_keys_replace.
    - destruct (array_index (ToString organization)) as [i|].
      + unfold Object_keys. generalize (result st) as o0.
        induction o0 as [|[k' v'] o0 IH]; simpl; [reflexivity|].
        destruct (array_index k') as [i'|]; [|reflexivity].
        destruct (i <? i')%N; [reflexivity|]. simpl. now f_equal.
      + unfold Object_keys. now rewrite !map_app. }
  destruct (String.eqb (obj_name c) (obj_name o)).
  - destruct (obj_edges o), (obj_edges c); try discriminate.
    intros [= <- <- <-]. simpl. repeat split; trivial.
  - destruct (obj_edges o); try discriminate.
    intros [= <- <- <-]. simpl. repeat split; trivial.
Qed.

Lemma merge_page_frame organization rc page st :
  let st' := step_state (merge_page organization rc page st) in
  organizations st' = organizations st /\ enterprise st' = enterprise st /\
  normalizedData st' = normalizedData st /\ trace st' = trace st.
Proof.
  unfold merge_page.
  destruct (merge _ _ _ _ _) as [[[st1 r1] n]|] eqn:Hm.
  - rewrite next_call_state. apply merge_frame in Hm. simpl in Hm. tauto.
  - simpl. tauto.
Qed.

Lemma collect_step_frame organization rc st r :
  let st' := step_state (collect_step organization rc st r) in
  organizations st' = organizations st /\ enterprise st' = enterprise st /\
  normalizedData st' = normalizedData st /\ trace st' = trace st.
Proof.
  unfold collect_step. destruct r as [[page|]| |]; simpl; try tauto.
  destruct (nodes page); [simpl; tauto|]. apply merge_page_frame.
Qed.

Section TraceFacts.
Variable graphqlClient : JsVal -> JsVal -> JsVal -> Response.

(** The first thing a request does is to send its query. *)
Lemma request_first_query fuel organization cc rc st :
  exists more,
    trace (fst (requestOrganizationData graphqlClient (S fuel) organization cc rc st))
    = trace st ++ EvQuery organization (default_null cc) (default_null rc) :: more.
Proof.
  cbn [requestOrganizationData].
  set (q := EvQuery organization (default_null cc) (default_null rc)).
  assert (Hnil : forall r : Requested, exists more,
             trace (fst (log q st, r)) = trace st ++ q :: more) by (intros; now exists []).
  destruct (graphqlClient _ _ _) as [d|[error|]]; try apply Hnil.
  destruct (String.eqb _ _); try apply Hnil.
  destruct (data error) as [partial|]; try apply Hnil.
  destruct (partial_nodes partial); try apply Hnil.
  destruct (request_frame graphqlClient fuel organization JNull
              (endCursor (partial_pageInfo partial)) (log q st))
    as (_ & _ & _ & _ & _ & more & Hmore).
  exists more. rewrite Hmore. simpl. now rewrite <- app_assoc.
Qed.

Lemma collectData_frame fuel organization cc rc st :
  let st' := fst (collectData graphqlClient fuel organization cc rc st) in
  organizations st' = organizations st /\ enterprise st' = enterprise st /\
  normalizedData st' = normalizedData st /\
  exists more, trace st' = trace st ++ more.
Proof.
  revert cc rc st. induction fuel as [|fuel IH]; intros cc rc st.
  - simpl. repeat split; trivial. exists []. now rewrite app_nil_r.
  - rewrite collectData_S. cbv zeta.
    destruct (request_frame graphqlClient (S fuel) organization cc rc st)
      as (R1 & R2 & _ & R4 & _ & more1 & R6).
    set (out := requestOrganizationData graphqlClient (S fuel) organization cc rc st) in *.
    destruct (collect_step_frame organization rc (fst out) (snd out))
      as (S1 & S2 & S3 & S4).
    destruct (collect_step organization rc (fst out) (snd out)) as [st2 o|st2 cc' rc'];
      simpl in S1, S2, S3, S4.
    + simpl. repeat split; try congruence. exists more1. congruence.
    + destruct (IH cc' rc' st2) as (I1 & I2 & I3 & more2 & I4).
      repeat split; try congruence.
      exists (more1 ++ more2). rewrite I4, S4, R6. now rewrite <- app_assoc.
Qed.

(** Every invocation of [collectData] starts with a query for its
    organization at its cursors. *)
Lemma collectData_first_query fuel organization cc rc st :
  exists more,
    trace (fst (collectData graphqlClient (S fuel) organization cc rc st))
    = trace st ++ EvQuery organization (default_null cc) (default_null rc) :: more.
Proof.
  rewrite collectData_S. cbv zeta.
  destruct (request_first_query fuel organization cc rc st) as (more1 & R).
  set (out := requestOrganizationData graphqlClient (S fuel) organization cc rc st) in *.
  destruct (collect_step_frame organization rc (fst out) (snd out))
    as (_ & _ & _ & S4).
  destruct (collect_step organization rc (fst out) (snd out)) as [st2 o|st2 cc' rc'];
    simpl in S4.
  - exists more1. simpl. congruence.
  - destruct (collectData_frame fuel organization cc' rc' st2) as (_ & _ & _ & more2 & I4).
    exists (more1 ++ more2). rewrite I4, S4, R. now rewrite <- app_assoc.
Qed.

Lemma collect_organizations_frame fuel logins st :
  let st' := fst (collect_organizations graphqlClient fuel logins st) in
  organizations st' = organizations st /\ enterprise st' = enterprise st /\
  normalizedData st' = normalizedData st /\
  exists more, trace st' = trace st ++ more.
Proof.
  revert st. induction logins as [|login rest IH]; intros st.
  - simpl. repeat split; trivial. exists []. now rewrite app_nil_r.
  - cbn [collect_organizations].
    set (st0 := set_result _ st).
    destruct (collectData_frame fuel login JUndefined JUndefined st0)
      as (C1 & C2 & C3 & more1 & C4).
    destruct (collectData graphqlClient fuel login JUndefined JUndefined st0)
      as [st1 o]. simpl in C1, C2, C3, C4.
    assert (Hstop : organizations st1 = organizations st /\
                    enterprise st1 = enterprise st /\
                    normalizedData st1 = normalizedData st /\
                    exists more, trace st1 = trace st ++ more).
    { repeat split; trivial. now exists more1. }
    destruct o; try exact Hstop.
    destruct (IH st1) as (I1 & I2 & I3 & more2 & I4).
    repeat split; try congruence.
    exists (more1 ++ more2). rewrite I4, C4. simpl. now rewrite <- app_assoc.
Qed.
End TraceFacts.

(** ** The run *)

Section RunFacts.
Variable graphqlClient : JsVal -> JsVal -> JsVal -> Response.
Variable enterpriseClient : JsVal -> option (list JsVal).
Variable EOL : string.
Variable writeFileAsync : string -> string -> bool.
Variable createandUploadArtifacts : bool.
Variable postResultsToIssue : string -> bool.

Let endCollection' :=
  endCollection EOL writeFileAsync createandUploadArtifacts postResultsToIssue.
Let startCollection' :=
  startCollection graphqlClient enterpriseClient EOL writeFileAsync
    createandUploadArtifacts postResultsToIssue.

(** [endCollection] normalizes, then writes the structured file first. *)
Lemma endCollection_frame st :
  let st' := fst (endCollection' st) in
  enterprise st' = enterprise st /\ result st' = result st /\ heap st' = heap st /\
  normalizedData st' = normalizedData (normalizeResult st) /\
  exists more,
    trace st' = trace st
      ++ EvWriteFile "./data/raw-data.json"
           (JSON_stringify_records (normalizedData (normalizeResult st))) :: more.
Proof.
  unfold endCollection', endCollection. cbv zeta.
  change (DATA_FOLDER +:+ "/" +:+ ARTIFACT_FILE_NAME +:+ ".json")
    with "./data/raw-data.json".
  change (DATA_FOLDER +:+ "/" +:+ ARTIFACT_FILE_NAME +:+ ".csv")
    with "./data/raw-data.csv".
  assert (Hfin : forall (tr : list Event) (more : list Event) (e : Event),
            tr = trace st ++ e :: more -> exists more', tr = trace st ++ e :: more')
    by (intros tr more e ->; now exists more).
  destruct (writeFileAsync "./data/raw-data.json" _); simpl;
    [|repeat split; apply (Hfin _ []); reflexivity].
  destruct (writeFileAsync "./data/raw-data.csv" _); simpl;
    [|repeat split; eapply Hfin; rewrite <- !app_assoc; reflexivity].
  destruct createandUploadArtifacts; simpl;
    [|repeat split; eapply Hfin; rewrite <- !app_assoc; reflexivity].
  destruct (postResultsToIssue _); simpl;
    repeat split; eapply Hfin; rewrite <- !app_assoc; reflexivity.
Qed.

Lemma expand_enterprise_frame st st0 b :
  expand_enterprise enterpriseClient st = (st0, b) ->
  enterprise st0 = enterprise st /\ normalizedData st0 = normalizedData st /\
  result st0 = result st /\ heap st0 = heap st.
Proof.
  unfold expand_enterprise. destruct (truthy (enterprise st)).
  - simpl. destruct (enterpriseClient (enterprise st)); intros H; inversion H; subst;
      simpl; repeat split; reflexivity.
  - intros H; inversion H; subst. repeat split; reflexivity.
Qed.


(** C10: [normalizeResult] appends to [normalizedData] without clearing
    it. One invocation adds, after what is there, one record per
    collaborator edge of the accumulated state; a second invocation right
    after adds the same records again. So normalization is not
    idempotent: whenever the state holds an edge, two invocations leave
    another collector than one. On a collector that has not normalized
    yet, two invocations leave the records of one invocation twice, and
    the run shows it: when the loop has returned and the first
    [endCollection] rejects, the [catch] runs [endCollection] again and
    the normalized data ends up doubled. *)
Theorem normalizeResult_twice_duplicates st :
  let records :=
    records_in_order (enterprise st) (result st) (heap st) (Object_keys (result st)) in
  normalizedData (normalizeResult st) = normalizedData st ++ records /\
  normalizedData (normalizeResult (normalizeResult st))
  = normalizedData st ++ records ++ records /\
  (records <> [] ->
   normalizedData (normalizeResult (normalizeResult st))
   <> normalizedData (normalizeResult st)) /\
  (normalizedData st = [] ->
   normalizedData (normalizeResult (normalizeResult st))
   = normalizedData (normalizeResult st) ++ normalizedData (normalizeResult st)
   /\
   (forall fuel st0 st1,
       expand_enterprise enterpriseClient st = (st0, true) ->
       collect_organizations graphqlClient fuel (organizations st0) st0 = (st1, Returned) ->
       snd (endCollection' st1) = false ->
       normalizedData (fst (startCollection' fuel st))
       = normalizedData (normalizeResult st1) ++ normalizedData (normalizeResult st1))).
Proof.
  intros records.
  assert (Honce : normalizedData (normalizeResult st) = normalizedData st ++ records)
    by apply normalizeResult_appends.
  assert (Htwice : normalizedData (normalizeResult (normalizeResult st))
                   = normalizedData st ++ records ++ records).
  { destruct (normalizeResult_frame st) as (_ & N2 & N3 & N4 & _).
    rewrite (normalizeResult_same_input st (normalizeResult st) N2 N3 N4).
    fold records. rewrite Honce. now rewrite <- app_assoc. }
  split; [exact Honce|]. split; [exact Htwice|]. split; [|intros Hempty; split].
  - intros Hrecords Heq. rewrite Htwice, Honce in Heq.
    apply (f_equal (@length (list JsVal))) in Heq. rewrite !length_app in Heq.
    destruct records; [congruence|]. simpl in Heq. lia.
  - rewrite Htwice, Honce, Hempty. reflexivity.
  - intros fuel st0 st1 Hexp Hloop Hfail.
    unfold startCollection', startCollection. rewrite Hexp, Hloop.
    fold endCollection'.
    destruct (endCollection_frame st1) as (E1 & E2 & E3 & E4 & _).
    destruct (endCollection' st1) as [st2 b]. cbn [fst snd] in *. subst b.
    destruct (endCollection_frame st2) as (_ & _ & _ & F4 & _).
    unfold finish. cbn [fst snd]. rewrite F4.
    rewrite (normalizeResult_same_input st1 st2 E1 E2 E3), E4.
    f_equal. rewrite normalizeResult_appends.
    destruct (expand_enterprise_frame st st0 true Hexp) as (_ & X2 & _ & _).
    destruct (collect_organizations_frame graphqlClient fuel (organizations st0) st0)
      as (_ & _ & C3 & _).
    rewrite Hloop in C3. simpl in C3. rewrite C3, X2, Hempty. reflexivity.
Qed.

(** C9: with neither input nor environment variable for the organization
    and the enterprise, [validateInput] lets the construction through,
    the collector holds the single entry whose login is [undefined], and
    the run queries the Gateway for that login first. *)
Theorem undefined_organization_is_collected fuel :
  CollectUserData (js_or "" JUndefined) (js_or "" JUndefined)
  = Some (fresh JUndefined JUndefined)
  /\ organizations (fresh JUndefined JUndefined) = [JUndefined]
  /\ exists st ending more,
       main graphqlClient enterpriseClient EOL writeFileAsync createandUploadArtifacts
         postResultsToIssue (S fuel) "" JUndefined "" JUndefined = Some (st, ending)
       /\ trace st = EvQuery JUndefined JNull JNull :: more.
Proof.
  split; [reflexivity|]. split; [reflexivity|].
  unfold main. change (CollectUserData (js_or "" JUndefined) (js_or "" JUndefined))
    with (Some (fresh JUndefined JUndefined)). cbv iota beta.
  fold startCollection'.
  destruct (startCollection' (S fuel) (fresh JUndefined JUndefined)) as [st ending] eqn:Hrun.
  exists st, ending.
  assert (Htrace : exists more, trace st = EvQuery JUndefined JNull JNull :: more);
    [|destruct Htrace as [more Hmore]; now exists more].
  unfold startCollection', startCollection in Hrun.
  change (expand_enterprise enterpriseClient (fresh JUndefined JUndefined))
    with (fresh JUndefined JUndefined, true) in Hrun. cbv iota beta in Hrun.
  change (organizations (fresh JUndefined JUndefined)) with [JUndefined] in Hrun.
  cbn [collect_organizations] in Hrun.
  set (st0 := set_result _ (fresh JUndefined JUndefined)) in Hrun.
  destruct (collectData_first_query graphqlClient fuel JUndefined JUndefined JUndefined st0)
    as (more1 & Hq).
  destruct (collectData graphqlClient (S fuel) JUndefined JUndefined JUndefined st0)
    as [st1 o]. simpl in Hq.
  fold endCollection' in Hrun.
  destruct (endCollection_frame st1) as (_ & _ & _ & _ & more2 & Htr).
  destruct o.
  - destruct (endCollection' st1) as [st2 []] eqn:Hend; simpl in Htr.
    + injection Hrun as <- <-. rewrite Htr, Hq. simpl. now eexists.
    + destruct (endCollection_frame st2) as (_ & _ & _ & _ & more3 & Htr3).
      unfold finish in Hrun. injection Hrun as <- <-.
      rewrite Htr3, Htr, Hq. simpl. now eexists.
  - unfold finish in Hrun. injection Hrun as <- <-. rewrite Htr, Hq. simpl. now eexists.
  - injection Hrun as <- <-. rewrite Hq. simpl. now eexists.
Qed.
End RunFacts.

(** ** The scenarios *)

(** C1, on the scenario of the specification: the traversal of [acme]
    returns after three queries, and the flattened output has four rows,
    not three: the first collaborator page of the first repository (alice)
    is recorded twice, because on the first page [result] is the page
    itself and its edges are appended to themselves. The count for [r1] is
    three although the two pages received for it hold one edge each. *)
Theorem acme_first_page_recorded_twice :
  let run := collect_organizations acme 3 [JStr "acme"] (fresh (JStr "acme") JUndefined) in
  snd run = Returned /\
  trace (fst run) = [ EvQuery (JStr "acme") JNull JNull;
                      EvQuery (JStr "acme") (JStr "1") JNull;
                      EvQuery (JStr "acme") JNull (JStr "1") ] /\
  normalizedData (normalizeResult (fst run))
  = [ record_of JUndefined "acme" "r1" alice;
      record_of JUndefined "acme" "r1" alice;
      record_of JUndefined "acme" "r1" bob;
      record_of JUndefined "acme" "r2" carol ] /\
  normalizedData (normalizeResult (fst run))
  <> [ record_of JUndefined "acme" "r1" alice;
       record_of JUndefined "acme" "r1" bob;
       record_of JUndefined "acme" "r2" carol ] /\
  edge_count_organization (result (fst run)) (heap (fst run)) "acme" = 4.
Proof. vm_compute. repeat split; try reflexivity. discriminate. Qed.

(** C2, where [r1] has one page of collaborators and [r2] two: the second
    page received appends [r2] to the sequence and reports a next
    collaborator page; the entry before [r2] now carries
    [previousCursor = "1"], the cursor that leads to [r2]; yet the third
    query is sent with the repository cursor [null] (and the collaborator
    cursor of [r2]), because [repositoriesInResult] was read before the
    entry was appended. The Gateway answers it with [r1]. *)
Theorem appended_repository_resumes_from_null :
  let start := fresh (JStr "acme") JUndefined in
  let st2 := fst (collectData second_repository_paged 2 (JStr "acme")
                    JUndefined JUndefined start) in
  let st3 := fst (collectData second_repository_paged 3 (JStr "acme")
                    JUndefined JUndefined start) in
  (exists acc before last,
      obj_get "acme" (result st2) = Some (Some acc) /\
      acc_nodes acc = [0; 1] /\
      heap st2 !! 0 = Some before /\ obj_name before = "r1" /\
      previousCursor before = JStr "1" /\
      heap st2 !! 1 = Some last /\ obj_name last = "r2" /\
      obj_pageInfo last = {| hasNextPage := true; endCursor := JStr "1" |}) /\
  trace st2 = [ EvQuery (JStr "acme") JNull JNull;
                EvQuery (JStr "acme") JNull (JStr "1") ] /\
  trace st3 = trace st2 ++ [ EvQuery (JStr "acme") (JStr "1") JNull ] /\
  trace st3 <> trace st2 ++ [ EvQuery (JStr "acme") (JStr "1") (JStr "1") ] /\
  second_repository_paged (JStr "acme") (JStr "1") JNull = Resolved (Some page_of_r1_again) /\
  merge_page (JStr "acme") (JStr "1") page_of_r2
    (log (EvQuery (JStr "acme") JNull (JStr "1"))
       (fst (collectData second_repository_paged 1 (JStr "acme")
               JUndefined JUndefined start)))
  = Again st2 (JStr "1") JNull.
Proof.
  vm_compute. split; [|repeat split; try reflexivity; discriminate].
  eexists _, _, _. repeat split; reflexivity.
Qed.

(** C5, on [second_repository_paged] (the Gateway holds [r1] with alice
    and [r2] with bob and carol): every merge below is of a successful
    page, and after the second one the sequence is [r1; r2] with only the
    last entry in progress. The third query is sent with the repository
    cursor [null] (lines 229-235 read [repositoriesInResult], which is
    stale after an append), the Gateway answers with [r1], and the merge
    appends it: the sequence becomes [r1; r2; r1], where [r2] still lacks
    carol and is not the last entry, a second entry is in progress, and
    [r1] has been appended twice. The fourth page would make it worse. On
    [acme], where the repository with two pages is the first one, the
    invariant holds after every page. *)
Theorem unfinished_repository_is_not_last :
  let repos := [("r1", [alice]); ("r2", [bob; carol])] in
  let after := fun n =>
    fst (collectData second_repository_paged n (JStr "acme") JUndefined JUndefined
           (fresh (JStr "acme") JUndefined)) in
  second_repository_paged = well_behaved_gateway "acme" 1 repos /\
  (exists acc,
      obj_get "acme" (result (after 2)) = Some (Some acc) /\
      map (fun l : loc => obj_name <$> heap (after 2) !! l) (acc_nodes acc)
      = [Some "r1"; Some "r2"] /\
      only_last_in_progress repos (heap (after 2)) acc = true) /\
  trace (after 3) = [ EvQuery (JStr "acme") JNull JNull;
                      EvQuery (JStr "acme") JNull (JStr "1");
                      EvQuery (JStr "acme") (JStr "1") JNull ] /\
  (exists acc r1o r2o again,
      obj_get "acme" (result (after 3)) = Some (Some acc) /\
      acc_nodes acc = [0; 1; 2] /\
      heap (after 3) !! 0 = Some r1o /\ obj_name r1o = "r1" /\
      heap (after 3) !! 1 = Some r2o /\ obj_name r2o = "r2" /\
      obj_edges r2o = Some [bob] /\
      heap (after 3) !! 2 = Some again /\ obj_name again = "r1" /\
      obj_edges again = Some [] /\
      in_progress repos r1o = false /\
      in_progress repos r2o = true /\
      in_progress repos again = true /\
      only_last_in_progress repos (heap (after 3)) acc = false) /\
  (exists acc,
      obj_get "acme" (result (after 4)) = Some (Some acc) /\
      map (fun l : loc => obj_name <$> heap (after 4) !! l) (acc_nodes acc)
      = [Some "r1"; Some "r2"; Some "r1"; Some "r2"] /\
      only_last_in_progress repos (heap (after 4)) acc = false) /\
  forall n acc,
    n <= 3 ->
    let st := fst (collectData acme n (JStr "acme") JUndefined JUndefined
                     (fresh (JStr "acme") JUndefined)) in
    obj_get "acme" (result st) = Some (Some acc) ->
    only_last_in_progress [("r1", [alice; bob]); ("r2", [carol])] (heap st) acc = true.
Proof.
  cbv zeta. split; [reflexivity|].
  split; [vm_compute; eexists; repeat split; reflexivity|].
  split; [vm_compute; reflexivity|].
  split; [vm_compute; eexists _, _, _, _; repeat split; reflexivity|].
  split; [vm_compute; eexists; repeat split; reflexivity|].
  intros n acc Hn.
  destruct n as [|[|[|[|n]]]]; [| | | |lia];
    vm_compute; intros H; inversion H; reflexivity.
Qed.

(** C3 as it is worded does not hold: the error is recognised by the
    literal of line 16 and by nothing else. When the rejections of
    [with_archived1] carry the message the specification gives, the
    message differs from the literal, the request for the second
    repository is answered with [null] after its one query, nothing is
    re-issued, and the traversal returns without ever asking for [r3].
    With the literal, the same request is re-issued at the cursor of the
    partial data and [r3] is collected. *)
Lemma specified_message_is_not_retried :
  message_of_the_specification <> ERROR_MESSAGE_ARCHIVED_REPO /\
  with_archived1_as_specified (JStr "acme") JNull (JStr "1")
  = Rejected (Some archived1_error_as_specified) /\
  requestOrganizationData with_archived1_as_specified 2 (JStr "acme") JNull (JStr "1")
    (fresh (JStr "acme") JUndefined)
  = (log (EvQuery (JStr "acme") JNull (JStr "1")) (fresh (JStr "acme") JUndefined),
     ReqData None) /\
  (let run := collect_organizations with_archived1_as_specified 5 [JStr "acme"]
                (fresh (JStr "acme") JUndefined) in
   snd run = Returned /\
   trace (fst run) = [ EvQuery (JStr "acme") JNull JNull;
                       EvQuery (JStr "acme") JNull (JStr "1") ] /\
   normalizedData (normalizeResult (fst run))
   = [ record_of JUndefined "acme" "r1" alice; record_of JUndefined "acme" "r1" alice ]) /\
  (let run := collect_organizations with_archived1 5 [JStr "acme"]
                (fresh (JStr "acme") JUndefined) in
   snd run = Returned /\
   trace (fst run) = [ EvQuery (JStr "acme") JNull JNull;
                       EvQuery (JStr "acme") JNull (JStr "1");
                       EvQuery (JStr "acme") JNull (JStr "2") ] /\
   normalizedData (normalizeResult (fst run))
   = [ record_of JUndefined "acme" "r1" alice; record_of JUndefined "acme" "r1" alice;
       record_of JUndefined "acme" "r3" carol ]).
Proof.
  split; [discriminate|]. vm_compute. repeat split; reflexivity.
Qed.

(** C6 as it is worded does not hold for a login that is an array index:
    the organizations [b] and [7] are processed in this order, and the
    records of [7] come first, because [Object.keys] enumerates
    integer-like keys before the others. *)
Lemma numeric_login_enumerated_first :
  let run := startCollection b_and_7 enterprise_of_b_and_7 LF writes_succeed true
               posts_succeed 1 (fresh JUndefined (JStr "e")) in
  let st := fst run in
  snd run = ProcessExit /\
  firstn 3 (trace st) = [ EvEnterpriseQuery (JStr "e");
                          EvQuery (JStr "b") JNull JNull;
                          EvQuery (JStr "7") JNull JNull ] /\
  Object_keys (result st) = ["7"; "b"] /\
  normalizedData st = records_in_order (JStr "e") (result st) (heap st) ["7"; "b"] /\
  normalizedData st <> records_in_order (JStr "e") (result st) (heap st) ["b"; "7"] /\
  normalizedData st
  = [ record_of (JStr "e") "7" "r7" carol; record_of (JStr "e") "7" "r7" carol;
      record_of (JStr "e") "b" "rb" bob; record_of (JStr "e") "b" "rb" bob ].
Proof. vm_compute. repeat split; try reflexivity. discriminate. Qed.

(** ** The export *)

Lemma string_app_assoc (a b c : string) : (a +:+ b) +:+ c = a +:+ b +:+ c.
Proof.
  induction a as [|x a IH]; [reflexivity|].
  change (String x ((a +:+ b) +:+ c) = String x (a +:+ b +:+ c)). now f_equal.
Qed.

Lemma string_app_nil_r (a : string) : a +:+ "" = a.
Proof.
  induction a as [|x a IH]; [reflexivity|].
  change (String x (a +:+ "") = String x a). now f_equal.
Qed.

Lemma JSONtoCSV_records EOL json acc :
  fold_left
    (fun csv record =>
       fold_left
         (fun csv i =>
            let csv := csv +:+ ToString (nth i record JUndefined) in
            if negb (Nat.eqb i (length keys - 1)) then csv +:+ "," else csv)
         (seq 0 (length keys)) csv
       +:+ EOL)
    json acc
  = acc +:+ csv_lines EOL json.
Proof.
  revert acc. induction json as [|record rest IH]; intros acc.
  - simpl. now rewrite string_app_nil_r.
  - cbn [fold_left]. rewrite IH. cbn [csv_lines].
    rewrite <- !string_app_assoc. f_equal. f_equal.
    unfold csv_line. simpl. rewrite !string_app_assoc. reflexivity.
Qed.

(** In memory, the CSV text is the header line followed by one line per
    record. *)
Lemma JSONtoCSV_layout EOL json :
  JSONtoCSV EOL json
  = "enterprise,organization,repo,user,login,permission" +:+ EOL +:+ csv_lines EOL json.
Proof.
  unfold JSONtoCSV. rewrite JSONtoCSV_records.
  change (join "," keys) with "enterprise,organization,repo,user,login,permission".
  apply string_app_assoc.
Qed.

(** The JSON text of a string is never the CSV text itself: it opens with
    a double quote. *)
Lemma JSON_stringify_string_differs EOL json :
  JSON_stringify_string (JSONtoCSV EOL json) <> JSONtoCSV EOL json.
Proof. rewrite JSONtoCSV_layout. unfold JSON_stringify_string. simpl. discriminate. Qed.

(** C8, on the scenario of the specification with every export step
    succeeding: two files are written, the first with the JSON text of the
    records; but what is written to [raw-data.csv] is
    [JSON.stringify(csv)], one line that opens with a double quote and
    holds the two characters backslash and n wherever the CSV text has a
    line end. The CSV text itself (header row, then one comma-joined line
    per record) is what [postResultsToIssue] receives. *)
Theorem csv_file_holds_a_json_string :
  let run := main acme no_enterprise LF writes_succeed true posts_succeed 3
               "acme" JUndefined "" JUndefined in
  let csv := "enterprise,organization,repo,user,login,permission" +:+ LF
             +:+ "undefined,acme,r1,Alice,alice,admin" +:+ LF
             +:+ "undefined,acme,r1,Alice,alice,admin" +:+ LF
             +:+ "undefined,acme,r1,Bob,bob,read" +:+ LF
             +:+ "undefined,acme,r2,Carol,carol,write" +:+ LF in
  let written :=
    String quote_char
      ("enterprise,organization,repo,user,login,permission\n"
       +:+ "undefined,acme,r1,Alice,alice,admin\n"
       +:+ "undefined,acme,r1,Alice,alice,admin\n"
       +:+ "undefined,acme,r1,Bob,bob,read\n"
       +:+ "undefined,acme,r2,Carol,carol,write\n"
       +:+ String quote_char EmptyString) in
  exists st json,
    run = Some (st, ProcessExit) /\
    JSONtoCSV LF (normalizedData st) = csv /\
    JSON_stringify_string csv = written /\
    written <> csv /\
    trace st = [ EvQuery (JStr "acme") JNull JNull;
                 EvQuery (JStr "acme") (JStr "1") JNull;
                 EvQuery (JStr "acme") JNull (JStr "1");
                 EvWriteFile "./data/raw-data.json" json;
                 EvWriteFile "./data/raw-data.csv" written;
                 EvUploadArtifacts;
                 EvPostIssue csv;
                 EvExit ].
Proof.
  vm_compute. eexists _, _. repeat split; try reflexivity. discriminate.
Qed.

(** ** Instances *)

(** The retry on [with_archived1]: the query for the second repository is
    rejected, the query re-issued at the cursor of the partial data
    resolves with [r3]. *)
Lemma archived_repository_retry_witness :
  snd (requestOrganizationData with_archived1 2 (JStr "acme") JNull (JStr "1")
         (fresh (JStr "acme") JUndefined))
  = ReqData (Some page_of_r3).
Proof.
  assert (Hrej : with_archived1 (JStr "acme") (default_null JNull) (default_null (JStr "1"))
                 = Rejected (Some archived1_error)) by (vm_compute; reflexivity).
  destruct (archived_repository_retry with_archived1 0 (JStr "acme") JNull (JStr "1")
              (fresh (JStr "acme") JUndefined) (Some archived1_error) Hrej) as [Hretry _].
  destruct (Hretry archived1_error archived1_partial eq_refl eq_refl eq_refl
              ltac:(discriminate)) as (_ & _ & _ & _ & Hresolved).
  apply (Hresolved (Some page_of_r3)). vm_compute. reflexivity.
Defined.


(** The first page of [r2] merged after the first page of [acme]. *)
Lemma merge_preserves_sequence_witness :
  store_ok after_first_page /\
  store_ok (step_state (merge_page (JStr "acme") (JStr "1") page_of_r2 after_first_page)).
Proof.
  assert (H : store_ok after_first_page).
  { apply merge_page_store_ok with (r := {| name := "r1";
        collaborators :=
          {| edges := Some [alice];
             pageInfo := {| hasNextPage := true; endCursor := JStr "1" |} |} |});
      [|reflexivity].
    intros k acc Hk. discriminate Hk. }
  split; [exact H|].
  exact (proj1 (merge_preserves_sequence (JStr "acme") (JStr "1") page_of_r2
                  r2_first_page after_first_page H eq_refl)).
Defined.

(** Normalizing the collected [acme] twice: four records, then eight. *)
Lemma normalizeResult_twice_duplicates_witness :
  let once := [ record_of JUndefined "acme" "r1" alice;
                record_of JUndefined "acme" "r1" alice;
                record_of JUndefined "acme" "r1" bob;
                record_of JUndefined "acme" "r2" carol ] in
  normalizedData acme_collected = [] /\
  normalizedData (normalizeResult acme_collected) = once /\
  normalizedData (normalizeResult (normalizeResult acme_collected)) = once ++ once /\
  normalizedData (normalizeResult (normalizeResult acme_collected))
  <> normalizedData (normalizeResult acme_collected).
Proof.
  intros once.
  assert (Hempty : normalizedData acme_collected = []) by (vm_compute; reflexivity).
  assert (Hrecords : records_in_order (enterprise acme_collected) (result acme_collected)
                       (heap acme_collected) (Object_keys (result acme_collected))
                     = once) by (vm_compute; reflexivity).
  destruct (normalizeResult_twice_duplicates acme no_enterprise LF csv_write_fails true
              posts_succeed acme_collected) as (Honce & _ & Hdiffer & Hfresh).
  rewrite Hrecords, Hempty in Honce. change ([] ++ once) with once in Honce.
  split; [exact Hempty|]. split; [exact Honce|]. split.
  - rewrite (proj1 (Hfresh Hempty)), Honce. reflexivity.
  - apply Hdiffer. rewrite Hrecords. discriminate.
Defined.

(** The same seen from the run: the tabular file cannot be written, the
    [catch] exports again, and every record is there twice. *)
Example second_export_doubles_the_records :
  let run := startCollection acme no_enterprise LF csv_write_fails true posts_succeed 3
               (fresh (JStr "acme") JUndefined) in
  snd run = Unhandled /\
  length (normalizedData (normalizeResult acme_collected)) = 4 /\
  normalizedData (fst run)
  = normalizedData (normalizeResult acme_collected)
    ++ normalizedData (normalizeResult acme_collected).
Proof. vm_compute. repeat split; reflexivity. Qed.

(** ** The invariant along a whole traversal *)

Lemma store_ok_ext st st' :
  result st' = result st -> heap st' = heap st -> store_ok st -> store_ok st'.
Proof. intros R H Hok k acc. rewrite R. unfold sequence_ok. rewrite H. apply Hok. Qed.

Lemma fresh_store_ok organization enterprise : store_ok (fresh organization enterprise).
Proof. intros k acc H. discriminate H. Qed.

Lemma well_behaved_one_per_page login pageSize repos :
  one_repository_per_page (well_behaved_gateway login pageSize repos).
Proof.
  intros organization cc rc page. unfold well_behaved_gateway.
  destruct (decide (organization = JStr login)); [|discriminate].
  destruct (position rc) as [i|]; [|discriminate].
  destruct (position cc) as [j|]; [|discriminate].
  intros [= <-]. unfold repositories_page. simpl.
  destruct (repos !! i) as [[nm es]|]; simpl; lia.
Qed.

Section Throughout.
Variable graphqlClient : JsVal -> JsVal -> JsVal -> Response.
Hypothesis one_per_page : one_repository_per_page graphqlClient.

(** The data a request returns is what the Gateway resolved some query
    with. *)
Lemma request_answer fuel organization cc rc st page :
  snd (requestOrganizationData graphqlClient fuel organization cc rc st)
  = ReqData (Some page) ->
  exists cc' rc', graphqlClient organization cc' rc' = Resolved (Some page).
Proof.
  revert cc rc st. induction fuel as [|fuel IH]; intros cc rc st; [discriminate|].
  cbn [requestOrganizationData].
  destruct (graphqlClient organization (default_null cc) (default_null rc))
    as [d|[error|]] eqn:Hg; simpl.
  - intros [= ->]. eauto.
  - destruct (String.eqb _ _); [|discriminate].
    destruct (data error) as [partial|]; [|discriminate].
    destruct (partial_nodes partial); [discriminate|]. apply IH.
  - discriminate.
Qed.

Lemma collectData_store_ok fuel organization cc rc st :
  store_ok st -> store_ok (fst (collectData graphqlClient fuel organization cc rc st)).
Proof.
  revert cc rc st. induction fuel as [|fuel IH]; intros cc rc st Hok; [exact Hok|].
  rewrite collectData_S. cbv zeta.
  destruct (request_frame graphqlClient (S fuel) organization cc rc st)
    as (_ & _ & R3 & _ & R5 & _).
  pose proof (request_answer (S fuel) organization cc rc st) as Hans.
  set (out := requestOrganizationData graphqlClient (S fuel) organization cc rc st) in *.
  assert (Hok1 : store_ok (fst out)) by (eapply store_ok_ext; eauto).
  assert (Hstep : store_ok (step_state (collect_step organization rc (fst out) (snd out)))).
  { unfold collect_step. destruct (snd out) as [[page|]| |]; try exact Hok1.
    destruct (nodes page) as [|r rest] eqn:Hnodes; [exact Hok1|].
    destruct (Hans page eq_refl) as (cc' & rc' & Hg).
    apply one_per_page in Hg. rewrite Hnodes in Hg.
    destruct rest; [|simpl in Hg; lia].
    now apply merge_page_store_ok with (r := r). }
  destruct (collect_step organization rc (fst out) (snd out)) as [st2 o|st2 cc' rc'];
    simpl in Hstep; [exact Hstep|]. now apply IH.
Qed.

(** From a fresh collector on, every accumulated sequence is well-shaped
    at every point of the run. *)
Lemma collect_organizations_store_ok fuel logins st :
  store_ok st -> store_ok (fst (collect_organizations graphqlClient fuel logins st)).
Proof.
  revert st. induction logins as [|login rest IH]; intros st Hok; [exact Hok|].
  cbn [collect_organizations].
  pose proof (collectData_store_ok fuel login JUndefined JUndefined _
                (store_ok_reset st (ToString login) Hok)) as H.
  destruct (collectData graphqlClient fuel login JUndefined JUndefined _) as [st1 o].
  simpl in H. destruct o; try exact H. now apply IH.
Qed.
End Throughout.

(** ** The order of the organizations *)

Lemma obj_get_None_keys {V : Type} (k : string) (o : JsObject V) :
  obj_get k o = None <-> k ∉ Object_keys o.
Proof.
  unfold Object_keys. induction o as [|[k' v] o IH]; simpl.
  - split; [intros _; apply not_elem_of_nil|reflexivity].
  - rewrite not_elem_of_cons. destruct (String.eqb k k') eqn:E.
    + apply String.eqb_eq in E. split; [discriminate|]. intros [H _]. congruence.
    + apply String.eqb_neq in E. rewrite IH. tauto.
Qed.

Lemma merge_page_keys organization rc page st :
  obj_get (ToString organization) (result st) <> None ->
  Object_keys (result (step_state (merge_page organization rc page st)))
  = Object_keys (result st).
Proof.
  intros Hpresent. unfold merge_page.
  destruct (merge _ _ _ _ _) as [[[st1 r1] n]|] eqn:Hm; [|reflexivity].
  rewrite next_call_state. apply merge_frame in Hm as (_ & _ & _ & _ & Hkeys).
  rewrite Hkeys. simpl. now apply Object_keys_set_present.
Qed.

Section KeyOrder.
Variable graphqlClient : JsVal -> JsVal -> JsVal -> Response.

Lemma collectData_keys fuel organization cc rc st :
  obj_get (ToString organization) (result st) <> None ->
  Object_keys (result (fst (collectData graphqlClient fuel organization cc rc st)))
  = Object_keys (result st).
Proof.
  revert cc rc st. induction fuel as [|fuel IH]; intros cc rc st Hpresent; [reflexivity|].
  rewrite collectData_S. cbv zeta.
  destruct (request_frame graphqlClient (S fuel) organization cc rc st)
    as (_ & _ & R3 & _).
  set (out := requestOrganizationData graphqlClient (S fuel) organization cc rc st) in *.
  assert (Hstep : Object_keys (result (step_state
                     (collect_step organization rc (fst out) (snd out))))
                  = Object_keys (result st)).
  { unfold collect_step. destruct (snd out) as [[page|]| |]; simpl; try now rewrite R3.
    destruct (nodes page); simpl; [now rewrite R3|].
    rewrite merge_page_keys; now rewrite R3. }
  destruct (collect_step organization rc (fst out) (snd out)) as [st2 o|st2 cc' rc'];
    simpl in Hstep; [exact Hstep|].
  rewrite IH; [exact Hstep|].
  rewrite obj_get_None_keys, Hstep, <- obj_get_None_keys. exact Hpresent.
Qed.

(** When no login is an array index, the organizations are enumerated in
    the order in which the loop met them. *)
Lemma collect_organizations_keys fuel logins st st' :
  NoDup (map ToString logins) ->
  Forall (fun login => array_index (ToString login) = None) logins ->
  Forall (fun login => obj_get (ToString login) (result st) = None) logins ->
  collect_organizations graphqlClient fuel logins st = (st', Returned) ->
  Object_keys (result st') = Object_keys (result st) ++ map ToString logins.
Proof.
  revert st. induction logins as [|login rest IH]; intros st Hnd Hidx Hnew Hrun.
  - injection Hrun as <-. simpl. now rewrite app_nil_r.
  - cbn [collect_organizations] in Hrun.
    inversion Hnd as [|? ? Hnotin Hnd']; subst.
    inversion Hidx as [|? ? Hi Hidx']; subst.
    inversion Hnew as [|? ? Hn Hnew']; subst.
    set (st0 := set_result _ st) in Hrun.
    assert (Hk0 : Object_keys (result st0) = Object_keys (result st) ++ [ToString login])
      by (unfold st0; simpl; now apply Object_keys_set_new).
    assert (Hp0 : obj_get (ToString login) (result st0) <> None)
      by (unfold st0; simpl; rewrite obj_get_set_eq; discriminate).
    pose proof (collectData_keys fuel login JUndefined JUndefined st0 Hp0) as Hk1.
    destruct (collectData graphqlClient fuel login JUndefined JUndefined st0) as [st1 o].
    cbn [fst] in Hk1. destruct o; try discriminate.
    rewrite (IH st1 Hnd' Hidx'); [| |exact Hrun].
    + rewrite Hk1, Hk0. simpl. now rewrite <- app_assoc.
    + rewrite Forall_forall in Hnew'. apply Forall_forall. intros l Hl.
      apply obj_get_None_keys. rewrite Hk1, Hk0.
      apply not_elem_of_app. split.
      * apply obj_get_None_keys. now apply Hnew'.
      * rewrite list_elem_of_singleton. intros Heq. apply Hnotin.
        rewrite <- Heq. apply list_elem_of_fmap_2. exact Hl.
Qed.
End KeyOrder.

(** ** The cursors of the next call *)


(** The scenario with an archived repository in the middle: it
    contributes no row, and the third repository is there once. *)
Example archived_repository_contributes_nothing :
  let run := collect_organizations with_archived1 3 [JStr "acme"]
               (fresh (JStr "acme") JUndefined) in
  snd run = Returned /\
  trace (fst run) = [ EvQuery (JStr "acme") JNull JNull;
                      EvQuery (JStr "acme") JNull (JStr "1");
                      EvQuery (JStr "acme") JNull (JStr "2") ] /\
  normalizedData (normalizeResult (fst run))
  = [ record_of JUndefined "acme" "r1" alice;
      record_of JUndefined "acme" "r1" alice;
      record_of JUndefined "acme" "r3" carol ].
Proof. vm_compute. repeat split; reflexivity. Qed.

(** An organization that could not be read leaves a [null] accumulator,
    which yields no record. *)
Lemma normalizeResult_nesting_order_witness :
  obj_get "acme" (result nothing_collected) = Some None /\
  records_of_organization (enterprise nothing_collected) (result nothing_collected)
    (heap nothing_collected) "acme" = [] /\
  normalizedData (normalizeResult nothing_collected) = [].
Proof.
  assert (H : obj_get "acme" (result nothing_collected) = Some None) by reflexivity.
  destruct (normalizeResult_nesting_order nothing_collected) as (Hrec & _ & Hnull & _).
  split; [exact H|]. split; [exact (Hnull "acme" H)|].
  rewrite Hrec. reflexivity.
Defined.

(** * Further properties of the code *)

(** ** What a merge and a traversal keep *)

Lemma object_grows_refl o : object_grows o o.
Proof.
  repeat split. destruct (obj_edges o) as [es|]; [|reflexivity].
  exists []. now rewrite app_nil_r.
Qed.

Lemma object_grows_trans o1 o2 o3 :
  object_grows o1 o2 -> object_grows o2 o3 -> object_grows o1 o3.
Proof.
  intros (N1 & P1 & E1) (N2 & P2 & E2). repeat split; try congruence.
  destruct (obj_edges o1) as [es|].
  - destruct E1 as [m1 E1]. rewrite E1 in E2. destruct E2 as [m2 E2].
    exists (m1 ++ m2). now rewrite app_assoc.
  - rewrite E1 in E2. exact E2.
Qed.

Lemma store_grows_refl h : store_grows h h.
Proof. intros l o H. exists o. split; [exact H|apply object_grows_refl]. Qed.

Lemma store_grows_trans h1 h2 h3 :
  store_grows h1 h2 -> store_grows h2 h3 -> store_grows h1 h3.
Proof.
  intros H12 H23 l o H. destruct (H12 l o H) as (o2 & H2 & G2).
  destruct (H23 l o2 H2) as (o3 & H3 & G3).
  exists o3. split; [exact H3|]. eapply object_grows_trans; eauto.
Qed.

Lemma store_grows_app h more : store_grows h (h ++ more).
Proof.
  intros l o H. exists o. split; [|apply object_grows_refl].
  rewrite lookup_app_l; [exact H|]. eapply lookup_lt_Some; eauto.
Qed.

Lemma store_grows_insert h (last : loc) o o' :
  h !! last = Some o -> object_grows o o' -> store_grows h (<[last := o']> h).
Proof.
  intros Hlast Hg l x Hl. destruct (decide (l = last)) as [->|Hne].
  - exists o'. rewrite list_lookup_insert_eq by (eapply lookup_lt_Some; eauto).
    split; [reflexivity|]. congruence.
  - exists x. rewrite list_lookup_insert_ne by congruence.
    split; [exact Hl|apply object_grows_refl].
Qed.

(** What [merge] does to the state: one object of the sequence it merges
    into is replaced by a grown one, and the accumulator is stored. *)
Lemma merge_effect organization rc (cur : loc) data st st' result1 n :
  merge organization rc cur data st = Some (st', result1, n) ->
  exists (result0 : Accumulator) (i : nat) (last : loc) (o o' : RepoObj),
    result0 = match obj_get (ToString organization) (result st) with
              | Some (Some r) => r
              | _ => data
              end /\
    acc_nodes result0 !! i = Some last /\ heap st !! last = Some o /\
    heap st' = <[last := o']> (heap st) /\ object_grows o o' /\
    result st' = obj_set (ToString organization) (Some result1) (result st) /\
    acc_pageInfo result1 = acc_pageInfo result0 /\
    (acc_nodes result1 = acc_nodes result0 \/
     acc_nodes result1 = acc_nodes result0 ++ [cur]).
Proof.
  unfold merge.
  set (result0 := match obj_get (ToString organization) (result st) with
                  | Some (Some r) => r
                  | _ => data
                  end).
  destruct (acc_nodes result0 !! (length (acc_nodes result0) - 1)) as [last|] eqn:Hlast;
    [|discriminate].
  destruct (heap st !! cur) as [c|]; [|discriminate].
  destruct (heap st !! last) as [o|] eqn:Ho; [|discriminate].
  destruct (String.eqb (obj_name c) (obj_name o)).
  - destruct (obj_edges o) as [le|] eqn:Hle; [|discriminate].
    destruct (obj_edges c) as [ce|]; [|discriminate].
    intros [= <- <- <-].
    exists result0, (length (acc_nodes result0) - 1), last, o,
      (set_edges (Some (le ++ ce)) o).
    repeat split; trivial; [|now left].
    simpl. rewrite Hle. now exists ce.
  - destruct (obj_edges o) as [es|] eqn:Hes; [|discriminate].
    intros [= <- <- <-].
    exists result0, (length (acc_nodes result0) - 1), last, o,
      (set_previousCursor rc o).
    repeat split; trivial; [|now right].
    simpl. rewrite Hes. exists []. now rewrite app_nil_r.
Qed.

(** The same for a whole page. [n0] is any size of the store below which
    the accumulator of the organization holds no object. *)
Lemma merge_page_effect organization rc page st (n0 : nat) :
  n0 <= length (heap st) ->
  (forall acc, obj_get (ToString organization) (result st) = Some (Some acc) ->
               Forall (fun l : loc => n0 <= l) (acc_nodes acc)) ->
  let st' := step_state (merge_page organization rc page st) in
  length (heap st) <= length (heap st') /\
  store_grows (heap st) (heap st') /\
  (forall l : loc, l < n0 -> heap st' !! l = heap st !! l) /\
  (forall k, k <> ToString organization -> obj_get k (result st') = obj_get k (result st)) /\
  accumulator_grows (result st) (result st') (ToString organization) /\
  (forall acc, obj_get (ToString organization) (result st') = Some (Some acc) ->
               Forall (fun l : loc => n0 <= l) (acc_nodes acc)).
Proof.
  intros Hn0 Hacc. unfold merge_page.
  set (h0 := heap st ++ map alloc (nodes page)).
  set (data := {| acc_nodes := seq (length (heap st)) (length (nodes page));
                  acc_pageInfo := repositories_pageInfo page |}).
  assert (Hh0 : length (heap st) <= length h0) by (unfold h0; rewrite length_app; lia).
  assert (Hsame : forall l : loc, l < length (heap st) -> h0 !! l = heap st !! l)
    by (intros; unfold h0; now rewrite lookup_app_l).
  assert (Hrefl : accumulator_grows (result st) (result st) (ToString organization)).
  { intros acc H. exists acc. repeat split; trivial. }
  destruct (merge organization rc (length (heap st)) data (set_heap h0 st))
    as [[[st1 r1] n]|] eqn:Hm.
  - rewrite next_call_state.
    destruct (merge_effect _ _ _ _ _ _ _ _ Hm)
      as (result0 & i & last & o & o' & Hr0 & Hi & Ho & Hh & Hg & Hres & Hpi & Hnodes).
    simpl in Hr0, Ho, Hh, Hres.
    assert (Hdata : Forall (fun l : loc => n0 <= l) (acc_nodes data)).
    { simpl. apply Forall_forall. intros x Hx. apply elem_of_seq in Hx. lia. }
    assert (Hall0 : Forall (fun l : loc => n0 <= l) (acc_nodes result0)).
    { rewrite Hr0. destruct (obj_get (ToString organization) (result st)) as [[a|]|] eqn:E;
        trivial. now apply Hacc. }
    assert (Hlast : n0 <= last).
    { rewrite Forall_forall in Hall0. apply Hall0.
      eapply list_elem_of_lookup_2; eauto. }
    rewrite Hh, Hres. repeat split.
    + rewrite length_insert. exact Hh0.
    + eapply store_grows_trans; [apply store_grows_app|].
      now apply store_grows_insert with (o := o).
    + intros l Hl. rewrite list_lookup_insert_ne by lia. apply Hsame. lia.
    + intros k Hk. now apply obj_get_set_ne.
    + intros acc Ha. exists r1. rewrite obj_get_set_eq. split; [reflexivity|].
      rewrite Ha in Hr0. subst result0. split; [|exact Hpi].
      destruct Hnodes as [->| ->]; [reflexivity|]. now exists [length (heap st)].
    + intros acc. rewrite obj_get_set_eq. intros [= <-].
      destruct Hnodes as [->| ->]; [exact Hall0|].
      apply Forall_app. split; [exact Hall0|]. constructor; [lia|constructor].
  - simpl. repeat split; trivial.
    + apply store_grows_app.
    + intros l Hl. apply Hsame. lia.
Qed.

Lemma accumulator_grows_trans res1 res2 res3 organization :
  accumulator_grows res1 res2 organization ->
  accumulator_grows res2 res3 organization ->
  accumulator_grows res1 res3 organization.
Proof.
  intros H12 H23 acc H. destruct (H12 acc H) as (a2 & H2 & P2 & I2).
  destruct (H23 a2 H2) as (a3 & H3 & P3 & I3).
  exists a3. repeat split; trivial; [|congruence]. now transitivity (acc_nodes a2).
Qed.

Lemma traversal_effect_trans n0 organization st1 st2 st3 :
  traversal_effect n0 organization st1 st2 ->
  traversal_effect n0 organization st2 st3 ->
  traversal_effect n0 organization st1 st3.
Proof.
  intros (L1 & G1 & S1 & K1 & A1 & F1) (L2 & G2 & S2 & K2 & A2 & F2).
  repeat split.
  - lia.
  - eapply store_grows_trans; eauto.
  - intros l Hl. rewrite S2 by exact Hl. now apply S1.
  - intros k Hk. rewrite K2 by exact Hk. now apply K1.
  - eapply accumulator_grows_trans; eauto.
  - exact F2.
Qed.

Lemma traversal_effect_same n0 organization st st' :
  result st' = result st -> heap st' = heap st ->
  (forall acc, obj_get organization (result st) = Some (Some acc) ->
               Forall (fun l : loc => n0 <= l) (acc_nodes acc)) ->
  traversal_effect n0 organization st st'.
Proof.
  intros R H Hacc. unfold traversal_effect. rewrite R, H. repeat split; trivial.
  - apply store_grows_refl.
  - intros acc Ha. exists acc. repeat split; trivial.
Qed.

Section EffectFacts.
Variable graphqlClient : JsVal -> JsVal -> JsVal -> Response.

Lemma collect_step_effect organization rc st r (n0 : nat) :
  n0 <= length (heap st) ->
  (forall acc, obj_get (ToString organization) (result st) = Some (Some acc) ->
               Forall (fun l : loc => n0 <= l) (acc_nodes acc)) ->
  traversal_effect n0 (ToString organization) st
    (step_state (collect_step organization rc st r)).
Proof.
  intros Hn0 Hacc. unfold collect_step.
  destruct r as [[page|]| |]; simpl; try (now apply traversal_effect_same).
  destruct (nodes page); [now apply traversal_effect_same|].
  now apply merge_page_effect.
Qed.

Lemma collectData_effect fuel organization cc rc st (n0 : nat) :
  n0 <= length (heap st) ->
  (forall acc, obj_get (ToString organization) (result st) = Some (Some acc) ->
               Forall (fun l : loc => n0 <= l) (acc_nodes acc)) ->
  traversal_effect n0 (ToString organization) st
    (fst (collectData graphqlClient fuel organization cc rc st)).
Proof.
  revert cc rc st. induction fuel as [|fuel IH]; intros cc rc st Hn0 Hacc.
  - now apply traversal_effect_same.
  - rewrite collectData_S. cbv zeta.
    destruct (request_frame graphqlClient (S fuel) organization cc rc st)
      as (_ & _ & R3 & _ & R5 & _).
    set (out := requestOrganizationData graphqlClient (S fuel) organization cc rc st) in *.
    assert (E1 : traversal_effect n0 (ToString organization) st (fst out))
      by (now apply traversal_effect_same).
    assert (E2 : traversal_effect n0 (ToString organization) (fst out)
                   (step_state (collect_step organization rc (fst out) (snd out)))).
    { apply collect_step_effect; rewrite ?R5, ?R3; trivial. }
    pose proof (traversal_effect_trans _ _ _ _ _ E1 E2) as E12.
    destruct (collect_step organization rc (fst out) (snd out)) as [st2 o|st2 cc' rc'];
      simpl in E12, E2; [exact E12|].
    eapply traversal_effect_trans; [exact E12|].
    destruct E12 as (L & _ & _ & _ & _ & F).
    apply IH; [lia|exact F].
Qed.
End EffectFacts.

Lemma records_of_repository_grow enterprise organization h h' (l : loc) :
  store_grows h h' ->
  records_of_repository enterprise organization h l
    `prefix_of` records_of_repository enterprise organization h' l.
Proof.
  intros Hg. unfold records_of_repository.
  destruct (h !! l) as [o|] eqn:Hl; [|apply prefix_nil].
  destruct (Hg l o Hl) as (o' & Hl' & Hn & _ & He). rewrite Hl', Hn.
  destruct (obj_edges o) as [es|]; [|apply prefix_nil].
  destruct He as [more ->]. rewrite map_app. now eexists.
Qed.

(** A traversal only adds: the store never shrinks, every repository
    object keeps its name and page info while its edges are extended at
    the end, the repository sequence of the organization is extended at
    the end, and so the records of every repository collected so far
    remain, in place, at the beginning of its later records. *)
Theorem traversal_only_adds (graphqlClient : JsVal -> JsVal -> JsVal -> Response)
    (fuel : nat) (organization cc rc : JsVal) (st : Collector) :
  let st' := fst (collectData graphqlClient fuel organization cc rc st) in
  length (heap st) <= length (heap st') /\
  store_grows (heap st) (heap st') /\
  accumulator_grows (result st) (result st') (ToString organization) /\
  forall enterprise name (l : loc),
    records_of_repository enterprise name (heap st) l
      `prefix_of` records_of_repository enterprise name (heap st') l.
Proof.
  destruct (collectData_effect graphqlClient fuel organization cc rc st 0)
    as (L & G & _ & _ & A & _).
  - lia.
  - intros acc _. apply Forall_forall. intros; lia.
  - repeat split; trivial. intros. now apply records_of_repository_grow.
Qed.

Lemma records_of_organization_same enterprise res res' h h' k acc :
  obj_get k res = Some (Some acc) -> obj_get k res' = Some (Some acc) ->
  (forall l : loc, l ∈ acc_nodes acc -> h' !! l = h !! l) ->
  records_of_organization enterprise res' h' k = records_of_organization enterprise res h k.
Proof.
  intros H H' Hsame. unfold records_of_organization. rewrite H, H'. f_equal.
  apply map_ext_in. intros l Hl. unfold records_of_repository.
  rewrite Hsame; [reflexivity|]. now apply list_elem_of_In.
Qed.

(** The loop never disturbs an organization it is not processing: while
    other logins are traversed, the accumulator of an organization
    collected before stays the same object sequence with the same
    objects, and its records stay the same, however each traversal ends. *)
Theorem later_organizations_leave_earlier_records
    (graphqlClient : JsVal -> JsVal -> JsVal -> Response)
    (fuel : nat) (logins : list JsVal) (st : Collector) (k : string) (acc : Accumulator) :
  obj_get k (result st) = Some (Some acc) ->
  Forall (fun l : loc => l < length (heap st)) (acc_nodes acc) ->
  k ∉ map ToString logins ->
  let st' := fst (collect_organizations graphqlClient fuel logins st) in
  obj_get k (result st') = Some (Some acc) /\
  (forall l : loc, l ∈ acc_nodes acc -> heap st' !! l = heap st !! l) /\
  forall enterprise,
    records_of_organization enterprise (result st') (heap st') k
    = records_of_organization enterprise (result st) (heap st) k.
Proof.
  intros Hk Hvalid Hnotin.
  assert (Hmain : let st' := fst (collect_organizations graphqlClient fuel logins st) in
                  obj_get k (result st') = Some (Some acc) /\
                  (forall l : loc, l ∈ acc_nodes acc -> heap st' !! l = heap st !! l)).
  { revert st Hk Hvalid. induction logins as [|login rest IH]; intros st Hk Hvalid.
    - simpl. split; trivial.
    - cbn [collect_organizations].
      apply not_elem_of_cons in Hnotin as [Hne Hrest].
      set (st0 := set_result (obj_set (ToString login) None (result st)) st).
      destruct (collectData_effect graphqlClient fuel login JUndefined JUndefined st0
                  (length (heap st))) as (L & _ & S & K & _ & _).
      + simpl. lia.
      + intros a. unfold st0. simpl. rewrite obj_get_set_eq. discriminate.
      + destruct (collectData graphqlClient fuel login JUndefined JUndefined st0)
          as [st1 o]. simpl in L, S, K.
        assert (Hk1 : obj_get k (result st1) = Some (Some acc)).
        { rewrite K by exact Hne. rewrite obj_get_set_ne by congruence. exact Hk. }
        assert (Hs1 : forall l : loc, l ∈ acc_nodes acc -> heap st1 !! l = heap st !! l).
        { intros l Hl. apply S. rewrite Forall_forall in Hvalid. now apply Hvalid. }
        assert (Hstop : obj_get k (result (st1, o).1) = Some (Some acc) /\
                        (forall l : loc, l ∈ acc_nodes acc ->
                                         heap (st1, o).1 !! l = heap st !! l))
          by (split; assumption).
        destruct o; try exact Hstop.
        destruct (IH Hrest st1 Hk1) as (R1 & R2).
        * eapply Forall_impl; [exact Hvalid|]. simpl. intros; lia.
        * split; [exact R1|]. intros l Hl. rewrite R2 by exact Hl. now apply Hs1. }
  destruct Hmain as (H1 & H2). repeat split; trivial.
  intros enterprise. now apply records_of_organization_same with (acc := acc).
Qed.

(** ** Single-page organizations, retries, entries and queries *)

Section MoreTraversalFacts.
Variable graphqlClient : JsVal -> JsVal -> JsVal -> Response.

(** An organization whose only page holds one repository with no further
    page in either direction: the traversal returns after one query, and
    the organization ends with that repository and every edge of the page
    twice (the page is merged into itself). *)
Theorem single_page_organization_recorded_twice fuel organization st page r es :
  (forall acc, obj_get (ToString organization) (result st) <> Some (Some acc)) ->
  graphqlClient organization JNull JNull = Resolved (Some page) ->
  nodes page = [r] ->
  edges (collaborators r) = Some es ->
  hasNextPage (pageInfo (collaborators r)) = false ->
  hasNextPage (repositories_pageInfo page) = false ->
  let out := collectData graphqlClient (S fuel) organization JUndefined JUndefined st in
  snd out = Returned /\
  trace (fst out) = trace st ++ [EvQuery organization JNull JNull] /\
  forall enterprise,
    records_of_organization enterprise (result (fst out)) (heap (fst out))
      (ToString organization)
    = map (record_of enterprise (ToString organization) (name r)) (es ++ es).
Proof.
  intros Hnone Hg Hnodes Hes Hc Hr.
  cbv zeta. rewrite (collectData_page graphqlClient fuel organization JUndefined JUndefined
                       st page r [] Hg Hnodes).
  simpl default_null.
  rewrite (merge_page_first organization JUndefined page r
             (log (EvQuery organization JNull JNull) st) Hnodes Hnone).
  cbv zeta. rewrite Hes.
  set (cur := length (heap (log (EvQuery organization JNull JNull) st))).
  set (h' := <[cur := _]> _). set (st1 := set_result _ _).
  assert (Hcur : h' !! cur = Some (set_edges (Some (es ++ es)) (alloc r))).
  { unfold h'. apply list_lookup_insert_eq. unfold cur. rewrite length_app. simpl. lia. }
  unfold next_call. change (heap st1) with h'. rewrite Hcur. simpl obj_pageInfo.
  rewrite Hc, Hr. simpl. repeat split.
  intros enterprise. unfold records_of_organization.
  rewrite obj_get_set_eq. simpl. unfold records_of_repository.
  change (heap st) with (heap (log (EvQuery organization JNull JNull) st)).
  fold cur. fold h'. rewrite Hcur. simpl. now rewrite app_nil_r.
Qed.

(** The retry has no bound of its own: against a Gateway that refuses
    every query of the organization as for an archived repository, the
    request sends one query per unit of fuel and is never answered. *)
Theorem archived_retry_is_unbounded fuel organization cc rc st :
  (forall cc' rc', exists error partial,
      graphqlClient organization cc' rc' = Rejected (Some error) /\
      message error = ERROR_MESSAGE_ARCHIVED_REPO /\
      data error = Some partial /\ partial_nodes partial <> []) ->
  let out := requestOrganizationData graphqlClient fuel organization cc rc st in
  snd out = ReqOutOfFuel /\
  length (trace (fst out)) = length (trace st) + fuel.
Proof.
  intros Hg. revert cc rc st. induction fuel as [|fuel IH]; intros cc rc st.
  - simpl. split; [reflexivity|lia].
  - cbn [requestOrganizationData].
    destruct (Hg (default_null cc) (default_null rc)) as (error & partial & -> & Hm & -> & Hn).
    apply String.eqb_eq in Hm. rewrite Hm.
    destruct (partial_nodes partial); [congruence|].
    destruct (IH JNull (endCursor (partial_pageInfo partial))
                (log (EvQuery organization (default_null cc) (default_null rc)) st))
      as (I1 & I2).
    split; [exact I1|]. rewrite I2. simpl. rewrite length_app. simpl. lia.
Qed.

Lemma default_null_defined v : default_null v <> JUndefined.
Proof. destruct v; discriminate. Qed.

Lemma request_queries fuel organization cc rc st :
  exists more,
    trace (fst (requestOrganizationData graphqlClient fuel organization cc rc st))
    = trace st ++ more /\
    Forall (query_for organization) more.
Proof.
  revert cc rc st. induction fuel as [|fuel IH]; intros cc rc st.
  - exists []. simpl. now rewrite app_nil_r.
  - cbn [requestOrganizationData].
    set (q := EvQuery organization (default_null cc) (default_null rc)).
    assert (Hq : query_for organization q).
    { exists (default_null cc), (default_null rc).
      repeat split; apply default_null_defined. }
    assert (Hone : forall r : Requested, exists more,
               trace (fst (log q st, r)) = trace st ++ more /\
               Forall (query_for organization) more).
    { intros r. exists [q]. split; [reflexivity|]. now constructor. }
    destruct (graphqlClient _ _ _) as [d|[error|]]; try apply Hone.
    destruct (String.eqb _ _); try apply Hone.
    destruct (data error) as [partial|]; try apply Hone.
    destruct (partial_nodes partial); try apply Hone.
    destruct (IH JNull (endCursor (partial_pageInfo partial)) (log q st))
      as (more & Hm & Hf).
    exists (q :: more). split; [|now constructor].
    rewrite Hm. simpl. now rewrite <- app_assoc.
Qed.

Lemma collectData_queries fuel organization cc rc st :
  exists more,
    trace (fst (collectData graphqlClient fuel organization cc rc st)) = trace st ++ more /\
    Forall (query_for organization) more.
Proof.
  revert cc rc st. induction fuel as [|fuel IH]; intros cc rc st.
  - exists []. simpl. now rewrite app_nil_r.
  - rewrite collectData_S. cbv zeta.
    destruct (request_queries (S fuel) organization cc rc st) as (more1 & R & F1).
    set (out := requestOrganizationData graphqlClient (S fuel) organization cc rc st) in *.
    destruct (collect_step_frame organization rc (fst out) (snd out)) as (_ & _ & _ & S4).
    destruct (collect_step organization rc (fst out) (snd out)) as [st2 o|st2 cc' rc'];
      simpl in S4.
    + exists more1. simpl. split; [congruence|exact F1].
    + destruct (IH cc' rc' st2) as (more2 & I & F2).
      exists (more1 ++ more2). split; [|now apply Forall_app].
      rewrite I, S4, R. now rewrite <- app_assoc.
Qed.

Lemma collect_organizations_queries fuel logins st :
  exists more,
    trace (fst (collect_organizations graphqlClient fuel logins st)) = trace st ++ more /\
    Forall (fun e => exists login, login ∈ logins /\ query_for login e) more.
Proof.
  revert st. induction logins as [|login rest IH]; intros st.
  - exists []. simpl. now rewrite app_nil_r.
  - cbn [collect_organizations].
    set (st0 := set_result _ st).
    destruct (collectData_queries fuel login JUndefined JUndefined st0) as (more1 & C & F1).
    destruct (collectData graphqlClient fuel login JUndefined JUndefined st0) as [st1 o].
    simpl in C.
    assert (F1' : Forall (fun e => exists l, l ∈ login :: rest /\ query_for l e) more1).
    { eapply Forall_impl; [exact F1|]. intros e He. exists login. split; [left|exact He]. }
    assert (Hstop : exists more,
               trace (st1, o).1 = trace st ++ more /\
               Forall (fun e => exists l, l ∈ login :: rest /\ query_for l e) more)
      by (exists more1; split; assumption).
    destruct o; try exact Hstop.
    destruct (IH st1) as (more2 & I & F2).
    exists (more1 ++ more2). split.
    + rewrite I, C. simpl. now rewrite <- app_assoc.
    + apply Forall_app. split; [exact F1'|].
      eapply Forall_impl; [exact F2|]. intros e (l & Hl & He).
      exists l. split; [now right|exact He].
Qed.

(** The loop talks to the Gateway about the listed logins only, always
    with cursors that are [null] or strings, and leaves the normalized
    data alone. *)
Theorem loop_queries_listed_organizations fuel logins st :
  let st' := fst (collect_organizations graphqlClient fuel logins st) in
  normalizedData st' = normalizedData st /\
  exists more,
    trace st' = trace st ++ more /\
    Forall (fun e => exists login, login ∈ logins /\ query_for login e) more.
Proof.
  split; [apply collect_organizations_frame|apply collect_organizations_queries].
Qed.

(** When the loop returns, every listed login has an entry of its own in
    [result] (possibly [null]), and no entry that was there is gone. *)
Theorem every_organization_gets_an_entry fuel logins st st' :
  collect_organizations graphqlClient fuel logins st = (st', Returned) ->
  (forall login, login ∈ logins -> obj_get (ToString login) (result st') <> None) /\
  (forall k, obj_get k (result st) <> None -> obj_get k (result st') <> None).
Proof.
  revert st. induction logins as [|login rest IH]; intros st Hrun.
  - injection Hrun as <-. split; [|trivial]. intros login H. inversion H.
  - cbn [collect_organizations] in Hrun.
    set (st0 := set_result (obj_set (ToString login) None (result st)) st) in Hrun.
    assert (Hp0 : obj_get (ToString login) (result st0) <> None)
      by (unfold st0; simpl; rewrite obj_get_set_eq; discriminate).
    assert (Hold : forall k, obj_get k (result st) <> None -> obj_get k (result st0) <> None).
    { intros k Hk. unfold st0. simpl. destruct (decide (ToString login = k)) as [<-|Hne].
      - rewrite obj_get_set_eq. discriminate.
      - now rewrite obj_get_set_ne. }
    pose proof (collectData_keys graphqlClient fuel login JUndefined JUndefined st0 Hp0) as Hk1.
    destruct (collectData graphqlClient fuel login JUndefined JUndefined st0) as [st1 o].
    cbn [fst] in Hk1. destruct o; try discriminate.
    destruct (IH st1 Hrun) as (I1 & I2).
    assert (Hkeep : forall k, obj_get k (result st0) <> None -> obj_get k (result st1) <> None).
    { intros k Hk Hn. apply Hk. apply obj_get_None_keys. rewrite <- Hk1.
      now apply obj_get_None_keys. }
    split.
    + intros l Hl. apply elem_of_cons in Hl as [->|Hl]; [|now apply I1].
      apply I2. now apply Hkeep.
    + intros k Hk. apply I2, Hkeep, Hold, Hk.
Qed.
End MoreTraversalFacts.

(** ** Records and their serialisation *)

(** Every record [normalizeResult] adds has six fields; the first is
    [this.enterprise] and the second is a key of [result]. *)
Theorem normalized_records_are_complete (st : Collector) :
  exists more,
    normalizedData (normalizeResult st) = normalizedData st ++ more /\
    Forall (fun record =>
              length record = 6 /\ record !! 0 = Some (enterprise st) /\
              exists k, k ∈ Object_keys (result st) /\ record !! 1 = Some (JStr k))
           more.
Proof.
  eexists. split; [apply normalizeResult_appends|].
  apply Forall_forall. intros record Hin.
  apply list_elem_of_In in Hin. unfold records_in_order in Hin.
  apply in_concat in Hin as (rows & Hrows & Hin).
  apply in_map_iff in Hrows as (k & <- & Hk).
  unfold records_of_organization in Hin.
  destruct (obj_get k (result st)) as [[acc|]|]; try (now destruct Hin).
  apply in_concat in Hin as (rows & Hrows & Hin).
  apply in_map_iff in Hrows as (l & <- & _).
  unfold records_of_repository in Hin.
  destruct (heap st !! l) as [o|]; [|now destruct Hin].
  destruct (obj_edges o) as [es|]; [|now destruct Hin].
  apply in_map_iff in Hin as (edge & <- & _).
  repeat split. exists k. split; [|reflexivity]. now apply list_elem_of_In.
Qed.

Lemma csv_line_six_fields record : csv_line (six_fields record) = csv_line record.
Proof.
  unfold csv_line, six_fields.
  destruct record as [|a [|b [|c [|d [|e [|f rest]]]]]]; reflexivity.
Qed.

Lemma csv_lines_six_fields EOL json :
  csv_lines EOL (map six_fields json) = csv_lines EOL json.
Proof.
  induction json as [|record rest IH]; [reflexivity|].
  cbn [map csv_lines]. now rewrite IH, csv_line_six_fields.
Qed.

(** [JSONtoCSV] reads the first six fields of a record and nothing else:
    a shorter record is printed with [undefined] in the missing places,
    the fields after the sixth are dropped. *)
Theorem JSONtoCSV_reads_six_fields (EOL : string) (json : list (list JsVal)) :
  JSONtoCSV EOL json = JSONtoCSV EOL (map six_fields json) /\
  Forall (fun record => length record = 6) (map six_fields json) /\
  forall record, length record = 6 -> six_fields record = record.
Proof.
  split; [|split].
  - now rewrite !JSONtoCSV_layout, csv_lines_six_fields.
  - apply Forall_forall. intros record Hin.
    apply list_elem_of_fmap in Hin as (r & -> & _).
    unfold six_fields. rewrite length_take, length_app, length_replicate. lia.
  - intros record Hlen. unfold six_fields.
    rewrite take_app_le by lia. apply take_ge. lia.
Qed.

Lemma csv_line_complete record :
  length record = 6 -> csv_line record = join "," (map ToString record).
Proof.
  intros H.
  destruct record as [|a [|b [|c [|d [|e [|f [|g rest]]]]]]]; try discriminate H.
  reflexivity.
Qed.

(** On records of six fields the CSV text is the header row followed by
    one line per record, in order: the fields as text, joined by commas,
    ended by [os.EOL]. Nothing is quoted or escaped. *)
Theorem csv_of_complete_records (EOL : string) (json : list (list JsVal)) :
  Forall (fun record => length record = 6) json ->
  JSONtoCSV EOL json
  = "enterprise,organization,repo,user,login,permission" +:+ EOL
    +:+ concat_strings (map (fun record => join "," (map ToString record) +:+ EOL) json).
Proof.
  intros Hall. rewrite JSONtoCSV_layout. f_equal. f_equal.
  induction Hall as [|record rest Hlen _ IH]; [reflexivity|].
  cbn [csv_lines map concat_strings].
  rewrite IH, csv_line_complete by exact Hlen. now rewrite string_app_assoc.
Qed.

Lemma all_chars_app P a b : all_chars P (a +:+ b) = all_chars P a && all_chars P b.
Proof.
  induction a as [|c a IH]; [reflexivity|].
  change (all_chars P (String c (a +:+ b)) = all_chars P (String c a) && all_chars P b).
  simpl. rewrite IH. now rewrite andb_assoc.
Qed.

Lemma json_escape_printable c : all_chars printable (json_escape c) = true.
Proof. destruct c as [[] [] [] [] [] [] [] []]; reflexivity. Qed.

Lemma json_escape_string_printable s : all_chars printable (json_escape_string s) = true.
Proof.
  induction s as [|c s IH]; [reflexivity|].
  cbn [json_escape_string]. now rewrite all_chars_app, json_escape_printable, IH.
Qed.

(** The JSON text of a string holds no character below U+0020, so no
    line feed and no carriage return, and it opens with a double quote:
    whatever the CSV text is, what [endCollection] writes to the tabular
    file is a single line. *)
Theorem JSON_string_is_one_line (s : string) :
  all_chars printable (JSON_stringify_string s) = true /\
  exists body, JSON_stringify_string s = String quote_char body.
Proof.
  split; [|now eexists].
  unfold JSON_stringify_string.
  change (printable quote_char
          && all_chars printable (json_escape_string s +:+ String quote_char EmptyString)
          = true).
  now rewrite all_chars_app, json_escape_string_printable.
Qed.

(** ** The export and the run *)

Section MoreRunFacts.
Variable graphqlClient : JsVal -> JsVal -> JsVal -> Response.
Variable enterpriseClient : JsVal -> option (list JsVal).
Variable EOL : string.
Variable writeFileAsync : string -> string -> bool.
Variable createandUploadArtifacts : bool.
Variable postResultsToIssue : string -> bool.

Let export := endCollection EOL writeFileAsync createandUploadArtifacts postResultsToIssue.
Let run := startCollection graphqlClient enterpriseClient EOL writeFileAsync
             createandUploadArtifacts postResultsToIssue.

(** [endCollection] takes the steps of the export in a fixed order
    (structured file, tabular file, artifact upload, issue, exit), each
    only after the one before resolved: the steps it attempts are those up
    to and including the first that rejects, whatever the outcomes are, so
    the structured file is always attempted and nothing is attempted after
    a rejection. It reaches [process.exit()] exactly when the two writes,
    the upload and the issue step all resolved. *)
Theorem export_steps_in_order (st : Collector) :
  let steps := export_steps EOL (normalizedData (normalizeResult st)) in
  let resolves := step_resolves writeFileAsync createandUploadArtifacts postResultsToIssue in
  let out := export st in
  trace (fst out) = trace st ++ until_rejected resolves steps /\
  snd out = forallb resolves steps /\
  (snd out = true <-> EvExit ∈ until_rejected resolves steps) /\
  (forall i e, steps !! i = Some e -> resolves e = false ->
               (forall j e', j < i -> steps !! j = Some e' -> resolves e' = true) ->
               until_rejected resolves steps = take (S i) steps /\ snd out = false).
Proof.
  unfold export_steps, step_resolves. cbv zeta.
  set (json := normalizedData (normalizeResult st)).
  set (e1 := EvWriteFile "./data/raw-data.json" _).
  set (e2 := EvWriteFile "./data/raw-data.csv" _).
  set (e4 := EvPostIssue _).
  set (resolves := fun e : Event => match e with
                                    | EvWriteFile path content => writeFileAsync path content
                                    | EvUploadArtifacts => createandUploadArtifacts
                                    | EvPostIssue csv => postResultsToIssue csv
                                    | _ => true
                                    end).
  assert (Hfirst : forall steps i e,
             steps !! i = Some e -> resolves e = false ->
             (forall j e', j < i -> steps !! j = Some e' -> resolves e' = true) ->
             until_rejected resolves steps = take (S i) steps /\
             forallb resolves steps = false).
  { induction steps as [|x steps IH]; intros i e Hi He Hbefore; [discriminate|].
    destruct i as [|i]; simpl in Hi.
    - injection Hi as ->. simpl. rewrite He. split; [now rewrite take_0|reflexivity].
    - assert (Hx : resolves x = true) by (apply (Hbefore 0 x); [lia|reflexivity]).
      destruct (IH i e Hi He) as [I1 I2].
      { intros j e' Hj He'. apply (Hbefore (S j) e'); [lia|exact He']. }
      simpl. rewrite Hx. simpl. split; [now f_equal|exact I2]. }
  assert (Hout : trace (fst (export st))
                 = trace st ++ until_rejected resolves [e1; e2; EvUploadArtifacts; e4; EvExit] /\
                 snd (export st) = forallb resolves [e1; e2; EvUploadArtifacts; e4; EvExit] /\
                 (snd (export st) = true
                  <-> EvExit ∈ until_rejected resolves [e1; e2; EvUploadArtifacts; e4; EvExit])).
  { unfold export, endCollection. cbv zeta.
    change (DATA_FOLDER +:+ "/" +:+ ARTIFACT_FILE_NAME +:+ ".json")
      with "./data/raw-data.json".
    change (DATA_FOLDER +:+ "/" +:+ ARTIFACT_FILE_NAME +:+ ".csv")
      with "./data/raw-data.csv".
    fold json. fold e1. fold e2. fold e4.
    assert (Hno : forall l : list Event,
               Forall (fun e => e <> EvExit) l -> false = true <-> EvExit ∈ l).
    { intros l Hl. split; [discriminate|]. intros Hin.
      rewrite Forall_forall in Hl. now destruct (Hl _ Hin). }
    simpl until_rejected. simpl forallb.
    destruct (writeFileAsync "./data/raw-data.json" _); simpl.
    2:{ repeat split; try discriminate.
        intros Hin. apply list_elem_of_singleton in Hin. discriminate. }
    destruct (writeFileAsync "./data/raw-data.csv" _); simpl.
    2:{ rewrite <- ?app_assoc. split; [reflexivity|]. split; [reflexivity|].
        apply Hno. repeat constructor; discriminate. }
    destruct createandUploadArtifacts; simpl.
    2:{ rewrite <- ?app_assoc. split; [reflexivity|]. split; [reflexivity|].
        apply Hno. repeat constructor; discriminate. }
    destruct (postResultsToIssue _); simpl.
    2:{ rewrite <- ?app_assoc. split; [reflexivity|]. split; [reflexivity|].
        apply Hno. repeat constructor; discriminate. }
    rewrite <- ?app_assoc. split; [reflexivity|]. split; [reflexivity|].
    split; [intros _|reflexivity].
    rewrite !elem_of_cons. do 4 right. now left. }
  destruct Hout as (H1 & H2 & H3).
  split; [exact H1|]. split; [exact H2|]. split; [exact H3|].
  intros i e Hi He Hbefore. destruct (Hfirst _ i e Hi He Hbefore) as [F1 F2].
  split; [exact F1|]. now rewrite H2.
Qed.

(** The events of an export are no queries, and an export leaves
    everything but the normalized data and the trace alone. *)
Lemma endCollection_events st :
  organizations (fst (export st)) = organizations st /\
  result (fst (export st)) = result st /\
  exists more, trace (fst (export st)) = trace st ++ more /\
               Forall (fun e => is_query e = false) more.
Proof.
  unfold export, endCollection. cbv zeta.
  assert (Htr : trace (normalizeResult st) = trace st) by reflexivity.
  assert (Hfin : forall (tr more : list Event),
             tr = trace st ++ more -> Forall (fun e => is_query e = false) more ->
             exists more', tr = trace st ++ more' /\
                           Forall (fun e => is_query e = false) more')
    by (intros tr more -> H; now exists more).
  destruct (writeFileAsync _ _); simpl;
    [|repeat split; eapply Hfin; [reflexivity|repeat constructor]].
  destruct (writeFileAsync _ _); simpl;
    [|repeat split; eapply Hfin; [rewrite <- !app_assoc; reflexivity|repeat constructor]].
  destruct createandUploadArtifacts; simpl;
    [|repeat split; eapply Hfin; [rewrite <- !app_assoc; reflexivity|repeat constructor]].
  destruct (postResultsToIssue _); simpl;
    repeat split; eapply Hfin; try (rewrite <- !app_assoc; reflexivity); repeat constructor.
Qed.

(** The events that follow the loop in [startCollection]: one export, or
    two when the first one rejected. *)
Lemma after_the_loop st1 (o : Outcome) :
  o <> OutOfFuel ->
  let out := match o with
             | OutOfFuel => (st1, Unfinished)
             | Thrown => finish (export st1)
             | Returned => match export st1 with
                           | (st2, true) => (st2, ProcessExit)
                           | (st2, false) => finish (export st2)
                           end
             end in
  snd out <> Unfinished /\
  organizations (fst out) = organizations st1 /\ result (fst out) = result st1 /\
  exists more, trace (fst out) = trace st1 ++ more /\
               Forall (fun e => is_query e = false) more /\
               exists tail,
                 more = EvWriteFile "./data/raw-data.json"
                          (JSON_stringify_records (normalizedData (normalizeResult st1)))
                        :: tail.
Proof.
  intros Ho. cbv zeta.
  destruct (endCollection_events st1) as (O1 & R1 & more1 & T1 & F1).
  destruct (endCollection_frame graphqlClient enterpriseClient EOL writeFileAsync
              createandUploadArtifacts postResultsToIssue st1)
    as (_ & _ & _ & _ & tail1 & W1).
  fold export in W1.
  assert (Hmore1 : more1 = EvWriteFile "./data/raw-data.json"
                     (JSON_stringify_records (normalizedData (normalizeResult st1)))
                   :: tail1).
  { rewrite T1 in W1. now apply app_inv_head in W1. }
  assert (Hone : snd (finish (export st1)) <> Unfinished /\
                 organizations (fst (finish (export st1))) = organizations st1 /\
                 result (fst (finish (export st1))) = result st1 /\
                 exists more, trace (fst (finish (export st1))) = trace st1 ++ more /\
                   Forall (fun e => is_query e = false) more /\
                   exists tail,
                     more = EvWriteFile "./data/raw-data.json"
                              (JSON_stringify_records (normalizedData (normalizeResult st1)))
                            :: tail).
  { unfold finish. simpl. split; [now destruct (snd (export st1))|].
    repeat split; trivial. exists more1. repeat split; trivial. now exists tail1. }
  destruct o; [|exact Hone|congruence].
  destruct (export st1) as [st2 b] eqn:Hexp. cbn [fst snd] in *.
  destruct b.
  - simpl. repeat split; trivial; [discriminate|].
    exists more1. repeat split; trivial. now exists tail1.
  - destruct (endCollection_events st2) as (O2 & R2 & more2 & T2 & F2).
    unfold finish. simpl. split; [now destruct (snd (export st2))|].
    repeat split; try congruence.
    exists (more1 ++ more2). split; [rewrite T2, T1; now rewrite <- app_assoc|].
    split; [now apply Forall_app|]. rewrite Hmore1. now eexists.
Qed.

(** With an enterprise, the logins it lists replace [this.organizations];
    every Gateway query of the run is for one of them, so the organization
    the collector was built with is never queried unless it is listed. If
    the enterprise query fails, the run ends there, unhandled: nothing is
    queried and nothing is written. *)
Theorem enterprise_organizations_are_the_ones_queried (fuel : nat) (st : Collector) :
  truthy (enterprise st) = true ->
  match enterpriseClient (enterprise st) with
  | None => run fuel st = (log (EvEnterpriseQuery (enterprise st)) st, Unhandled)
  | Some logins =>
      organizations (fst (run fuel st)) = logins /\
      exists more,
        trace (fst (run fuel st)) = trace st ++ EvEnterpriseQuery (enterprise st) :: more /\
        forall login cc rc, EvQuery login cc rc ∈ more -> login ∈ logins
  end.
Proof.
  intros Hent. unfold run, startCollection, expand_enterprise. rewrite Hent. cbv zeta.
  simpl enterprise.
  destruct (enterpriseClient (enterprise st)) as [logins|]; [|reflexivity].
  set (st0 := set_organizations logins (log (EvEnterpriseQuery (enterprise st)) st)).
  change (organizations st0) with logins.
  destruct (collect_organizations_queries graphqlClient fuel logins st0)
    as (more1 & T1 & F1).
  destruct (collect_organizations_frame graphqlClient fuel logins st0) as (O1 & _).
  destruct (collect_organizations graphqlClient fuel logins st0) as [st1 o].
  cbn [fst] in T1, O1.
  assert (Hq1 : forall login cc rc, EvQuery login cc rc ∈ more1 -> login ∈ logins).
  { intros login cc rc Hin. rewrite Forall_forall in F1.
    destruct (F1 _ Hin) as (l & Hl & cc' & rc' & Heq & _). now injection Heq as -> _ _. }
  assert (Hexp : forall o', o' <> OutOfFuel ->
            forall out,
              out = match o' with
                    | OutOfFuel => (st1, Unfinished)
                    | Thrown => finish (export st1)
                    | Returned => match export st1 with
                                  | (st2, true) => (st2, ProcessExit)
                                  | (st2, false) => finish (export st2)
                                  end
                    end ->
              organizations (fst out) = logins /\
              exists more,
                trace (fst out) = trace st ++ EvEnterpriseQuery (enterprise st) :: more /\
                forall login cc rc, EvQuery login cc rc ∈ more -> login ∈ logins).
  { intros o' Ho out ->.
    destruct (after_the_loop st1 o' Ho) as (_ & O2 & _ & more2 & T2 & F2 & _).
    split; [rewrite O2; exact O1|].
    exists (more1 ++ more2). split.
    - rewrite T2, T1. unfold st0. simpl. now rewrite <- !app_assoc.
    - intros login cc rc Hin.
      apply elem_of_app in Hin as [Hin|Hin]; [exact (Hq1 _ _ _ Hin)|].
      rewrite Forall_forall in F2. specialize (F2 _ Hin). discriminate F2. }
  fold export. destruct o.
  - apply (Hexp Returned); [discriminate|reflexivity].
  - apply (Hexp Thrown); [discriminate|reflexivity].
  - simpl. split; [exact O1|]. exists more1. split; [|exact Hq1].
    rewrite T1. unfold st0. simpl. now rewrite <- app_assoc.
Qed.
Lemma obj_set_empty {V : Type} (k : string) (v : V) : obj_set k v [] = [(k, v)].
Proof. unfold obj_set. simpl. now destruct (array_index k). Qed.

Lemma truthy_js_or (input : string) (env : JsVal) :
  truthy (js_or input env) = true <-> given input env.
Proof.
  unfold js_or, given. simpl truthy at 1.
  destruct (String.eqb input "") eqn:E; simpl.
  - apply String.eqb_eq in E. subst input. split.
    + intros H. right. destruct env as [| |s]; try discriminate.
      exists s. split; [reflexivity|]. simpl in H. intros ->. discriminate.
    + intros [H|(s & -> & Hs)]; [congruence|].
      simpl. apply String.eqb_neq in Hs. now rewrite Hs.
  - rewrite E. simpl. apply String.eqb_neq in E. tauto.
Qed.

(** The run is refused, before anything is queried or written, exactly
    when an organization and an enterprise are both given; each may come
    from the action input or from the environment variable, and an empty
    text counts as not given. *)
Theorem configuration_error_iff_both_given (fuel : nat)
    (input_organization : string) (env_ORGANIZATION : JsVal)
    (input_enterprise : string) (env_ENTERPRISE : JsVal) :
  main graphqlClient enterpriseClient EOL writeFileAsync createandUploadArtifacts
    postResultsToIssue fuel input_organization env_ORGANIZATION
    input_enterprise env_ENTERPRISE = None
  <-> given input_organization env_ORGANIZATION /\ given input_enterprise env_ENTERPRISE.
Proof.
  unfold main, CollectUserData.
  rewrite <- !truthy_js_or.
  destruct (truthy (js_or input_organization env_ORGANIZATION));
    destruct (truthy (js_or input_enterprise env_ENTERPRISE)); simpl;
    split; try tauto; try discriminate; intros [? ?]; discriminate.
Qed.

(** A run for a single organization starts with the query for it at the
    [null] cursors. *)
Lemma single_organization_first_query fuel organization ent :
  truthy ent = false ->
  exists more,
    trace (fst (run (S fuel) (fresh organization ent)))
    = EvQuery organization JNull JNull :: more.
Proof.
  intros Hent. unfold run, startCollection, expand_enterprise.
  simpl enterprise. rewrite Hent.
  change (organizations (fresh organization ent)) with [organization].
  cbn [collect_organizations].
  set (st0 := set_result _ (fresh organization ent)).
  destruct (collectData_first_query graphqlClient fuel organization JUndefined JUndefined st0)
    as (more1 & Hq).
  destruct (collectData graphqlClient (S fuel) organization JUndefined JUndefined st0)
    as [st1 o]. simpl in Hq.
  fold export. destruct o.
  - destruct (after_the_loop st1 Returned ltac:(discriminate)) as (_ & _ & _ & more2 & T2 & _).
    cbv zeta in T2. rewrite T2, Hq. simpl. now eexists.
  - destruct (after_the_loop st1 Thrown ltac:(discriminate)) as (_ & _ & _ & more2 & T2 & _).
    cbv zeta in T2. rewrite T2, Hq. simpl. now eexists.
  - simpl. rewrite Hq. now eexists.
Qed.

(** The action input for the organization takes precedence over the
    environment variable: when the input is not empty (and no enterprise
    is given) the run is accepted and its first query is for the input,
    whatever [ORGANIZATION] holds. *)
Theorem organization_input_takes_precedence (fuel : nat)
    (input_organization : string) (env_ORGANIZATION : JsVal)
    (input_enterprise : string) (env_ENTERPRISE : JsVal) :
  input_organization <> "" ->
  ~ given input_enterprise env_ENTERPRISE ->
  exists st ending more,
    main graphqlClient enterpriseClient EOL writeFileAsync createandUploadArtifacts
      postResultsToIssue (S fuel) input_organization env_ORGANIZATION
      input_enterprise env_ENTERPRISE = Some (st, ending) /\
    trace st = EvQuery (JStr input_organization) JNull JNull :: more.
Proof.
  intros Hin Hent. rewrite <- truthy_js_or in Hent.
  assert (He : truthy (js_or input_enterprise env_ENTERPRISE) = false)
    by (now destruct (truthy (js_or input_enterprise env_ENTERPRISE))).
  assert (Ho : js_or input_organization env_ORGANIZATION = JStr input_organization).
  { unfold js_or. simpl. apply String.eqb_neq in Hin. now rewrite Hin. }
  unfold main, CollectUserData. rewrite Ho, He, andb_false_r.
  destruct (single_organization_first_query fuel (JStr input_organization)
              (js_or input_enterprise env_ENTERPRISE) He) as (more & Hmore).
  fold run. change {| organizations := [JStr input_organization];
                      enterprise := js_or input_enterprise env_ENTERPRISE;
                      result := []; normalizedData := []; heap := []; trace := [] |}
    with (fresh (JStr input_organization) (js_or input_enterprise env_ENTERPRISE)).
  destruct (run (S fuel) (fresh (JStr input_organization)
                            (js_or input_enterprise env_ENTERPRISE))) as [st ending].
  exists st, ending, more. split; [reflexivity|exact Hmore].
Qed.

(** An enterprise that lists no organization is not an error: no
    organization is queried, [result] stays empty, and the export is
    attempted with an empty record set. *)
Theorem enterprise_without_organizations (fuel : nat) (organization ent : JsVal) :
  truthy ent = true ->
  enterpriseClient ent = Some [] ->
  let out := run fuel (fresh organization ent) in
  snd out <> Unfinished /\ result (fst out) = [] /\
  exists tail,
    trace (fst out)
    = EvEnterpriseQuery ent :: EvWriteFile "./data/raw-data.json" "[]" :: tail /\
    Forall (fun e => is_query e = false) tail.
Proof.
  intros Hent Hnone. unfold run, startCollection, expand_enterprise.
  simpl enterprise. rewrite Hent, Hnone.
  set (st0 := set_organizations [] _).
  change (organizations st0) with (@nil JsVal). cbn [collect_organizations].
  fold export.
  destruct (after_the_loop st0 Returned ltac:(discriminate))
    as (U & _ & R & more & T & F & tail & Hmore).
  cbv zeta in U, R, T. cbv zeta.
  split; [exact U|]. split; [exact R|].
  exists tail. rewrite T, Hmore. split; [reflexivity|].
  rewrite Hmore in F. now inversion F.
Qed.

(** An organization whose first answer is "no data" (no organization, an
    empty page, or a rejection other than the archived-repository one) is
    left with a [null] accumulator after that single query, and the export
    is attempted with an empty record set. *)
Theorem unreadable_organization_exports_nothing (fuel : nat) (organization ent : JsVal) :
  truthy ent = false ->
  no_data (graphqlClient organization JNull JNull) ->
  let out := run (S fuel) (fresh organization ent) in
  snd out <> Unfinished /\
  result (fst out) = [(ToString organization, None)] /\
  exists tail,
    trace (fst out)
    = EvQuery organization JNull JNull :: EvWriteFile "./data/raw-data.json" "[]" :: tail /\
    Forall (fun e => is_query e = false) tail.
Proof.
  intros Hent Hno.
  set (st0 := set_result [(ToString organization, None)] (fresh organization ent)).
  set (st1 := log (EvQuery organization JNull JNull) st0).
  assert (Hcall : collectData graphqlClient (S fuel) organization JUndefined JUndefined st0
                  = (st1, Returned)).
  { rewrite collectData_S. cbv zeta. cbn [requestOrganizationData]. simpl default_null.
    fold st1.
    destruct Hno as [H|[(page & H & Hnodes)|[H|(error & H & Hmsg)]]]; rewrite H.
    - reflexivity.
    - simpl. now rewrite Hnodes.
    - reflexivity.
    - apply String.eqb_neq in Hmsg. now rewrite Hmsg. }
  assert (Hloop : collect_organizations graphqlClient (S fuel) [organization]
                    (fresh organization ent) = (st1, Returned)).
  { cbn [collect_organizations].
    change (result (fresh organization ent)) with (@nil (string * option Accumulator)).
    rewrite obj_set_empty. fold st0. now rewrite Hcall. }
  unfold run, startCollection, expand_enterprise.
  simpl enterprise. rewrite Hent.
  change (organizations (fresh organization ent)) with [organization].
  rewrite Hloop. fold export.
  destruct (after_the_loop st1 Returned ltac:(discriminate))
    as (U & _ & R & more & T & F & tail & Hmore).
  cbv zeta in U, R, T. cbv zeta.
  split; [exact U|]. split; [exact R|].
  exists tail. rewrite T, Hmore. split.
  - assert (Hjson : normalizedData (normalizeResult st1) = []).
    { rewrite normalizeResult_appends. unfold st1, st0. simpl.
      unfold records_in_order, records_of_organization. simpl.
      now rewrite String.eqb_refl. }
    rewrite Hjson. reflexivity.
  - rewrite Hmore in F. now inversion F.
Qed.

(** When the issue step rejects whatever it is given, the run never ends
    with [process.exit()]. *)
Lemma rejecting_post_never_exits (fuel : nat) (st : Collector) :
  (forall csv, postResultsToIssue csv = false) ->
  snd (run fuel st) <> ProcessExit.
Proof.
  intros Hpost.
  assert (Hexp : forall st', snd (export st') = false).
  { intros st'. unfold export, endCollection. cbv zeta.
    destruct (writeFileAsync _ _); [|reflexivity]. simpl.
    destruct (writeFileAsync _ _); [|reflexivity]. simpl.
    destruct createandUploadArtifacts; [|reflexivity]. simpl.
    now rewrite Hpost. }
  unfold run, startCollection.
  destruct (expand_enterprise enterpriseClient st) as [st0 []]; [|discriminate].
  destruct (collect_organizations graphqlClient fuel (organizations st0) st0) as [st1 o].
  fold export. destruct o.
  - pose proof (Hexp st1) as H1. destruct (export st1) as [st2 b]. simpl in H1. subst b.
    unfold finish. simpl. now rewrite Hexp.
  - unfold finish. simpl. now rewrite Hexp.
  - discriminate.
Qed.

End MoreRunFacts.

(** ** The issue and the artifact *)

Lemma split_slash_not_nil s : split_slash s <> [].
Proof.
  destruct s as [|c s]; simpl; [discriminate|].
  destruct (Ascii.eqb c "/"); [discriminate|].
  destruct (split_slash s); discriminate.
Qed.

Lemma split_slash_prefix p rest :
  slash_free p = true ->
  split_slash (p +:+ rest)
  = match split_slash rest with
    | piece :: pieces => (p +:+ piece) :: pieces
    | [] => [p]
    end.
Proof.
  induction p as [|c p IH]; intros Hp.
  - change ("" +:+ rest) with rest. pose proof (split_slash_not_nil rest) as Hne.
    destruct (split_slash rest); [congruence|reflexivity].
  - simpl in Hp. apply andb_true_iff in Hp as [Hc Hp].
    apply negb_true_iff in Hc.
    change (String c p +:+ rest) with (String c (p +:+ rest)).
    cbn [split_slash]. rewrite Hc, (IH Hp).
    pose proof (split_slash_not_nil rest) as Hne.
    destruct (split_slash rest); [congruence|reflexivity].
Qed.

(** Splitting what was joined gives the pieces back. *)
Lemma split_slash_join piece pieces :
  Forall (fun p => slash_free p = true) (piece :: pieces) ->
  split_slash (join "/" (piece :: pieces)) = piece :: pieces.
Proof.
  revert piece. induction pieces as [|q pieces IH]; intros piece Hall.
  - inversion Hall as [|? ? Hp _]; subst. simpl.
    rewrite <- (string_app_nil_r piece) at 1.
    rewrite (split_slash_prefix piece "" Hp). simpl. now rewrite string_app_nil_r.
  - inversion Hall as [|? ? Hp Hrest]; subst.
    change (join "/" (piece :: q :: pieces))
      with (piece +:+ String "/"%char (join "/" (q :: pieces))).
    rewrite (split_slash_prefix piece _ Hp).
    cbn [split_slash]. simpl Ascii.eqb. cbv iota.
    rewrite (IH q Hrest). now rewrite string_app_nil_r.
Qed.

Section IssueFacts.
Variable csvToMarkdown : string -> string.
Variable toLocaleString : string.
Variable issues_create : string -> JsVal -> string -> string -> option nat.
Variable issues_update : string -> JsVal -> nat -> string -> bool.

Let post := postResultsToIssue_calls csvToMarkdown toLocaleString issues_create issues_update.

(** Posting is switched on by any non-empty text of the [issue] input or
    of [ISSUE] (the text is not interpreted, so [false] switches it on as
    well) and is skipped without any Octokit call, successfully, when
    neither is given. When it is on, a repository name leads to the
    creation of an issue, and a missing [GITHUB_REPOSITORY] makes the
    method fail before any call. *)
Theorem posting_is_switched_by_any_text (env_GITHUB_REPOSITORY : JsVal)
    (input_issue : string) (env_ISSUE : JsVal) (csv : string) :
  let options := main_options env_GITHUB_REPOSITORY input_issue env_ISSUE in
  (~ given input_issue env_ISSUE -> post options csv = ([], true)) /\
  (given input_issue env_ISSUE ->
   match env_GITHUB_REPOSITORY with
   | JStr _ => exists owner repo title rest,
                 fst (post options csv)
                 = IssuesCreate owner repo title (csvToMarkdown csv) :: rest
   | _ => post options csv = ([], false)
   end).
Proof.
  cbv zeta. unfold post, postResultsToIssue_calls, main_options. simpl.
  split; intros Hg; rewrite <- truthy_js_or in Hg.
  - now destruct (truthy (js_or input_issue env_ISSUE)).
  - rewrite Hg. simpl. destruct env_GITHUB_REPOSITORY as [| |full]; try reflexivity.
    destruct (issues_create _ _ _ _); simpl; now eexists _, _, _, _.
Qed.

(** The issue is opened in the repository that the text before the first
    slash (the owner) and the text between the first and the second slash
    name; anything after a second slash is ignored, and without a slash
    the repository name is [undefined]. The body is the table made from
    the CSV text. If the creation fails nothing else is called; otherwise
    the issue just created, and no other, is closed at once, and the
    method resolves exactly when that update does. *)
Theorem issue_is_opened_then_closed (options : Options) (csv : string)
    (owner : string) (rest : list string) :
  truthy (options_postToIssue options) = true ->
  options_repository options = JStr (join "/" (owner :: rest)) ->
  Forall (fun p => slash_free p = true) (owner :: rest) ->
  let repo := match rest with
              | name :: _ => JStr name
              | [] => JUndefined
              end in
  let title := "Audit log report for " +:+ toLocaleString in
  let create := IssuesCreate owner repo title (csvToMarkdown csv) in
  post options csv
  = match issues_create owner repo title (csvToMarkdown csv) with
    | None => ([create], false)
    | Some issue_number =>
        ([create; IssuesUpdate owner repo issue_number "closed"],
         issues_update owner repo issue_number "closed")
    end.
Proof.
  intros Hflag Hrepo Hfree. cbv zeta.
  unfold post, postResultsToIssue_calls. rewrite Hflag, Hrepo. cbv zeta.
  rewrite (split_slash_join owner rest Hfree). simpl.
  destruct rest as [|name rest']; reflexivity.
Qed.
End IssueFacts.

(** With posting switched on and no [GITHUB_REPOSITORY], every export
    fails at the issue step, so the run never ends with
    [process.exit()], whatever was collected. *)
Theorem missing_repository_fails_the_run
    (graphqlClient : JsVal -> JsVal -> JsVal -> Response)
    (enterpriseClient : JsVal -> option (list JsVal)) (EOL : string)
    (writeFileAsync : string -> string -> bool) (createandUploadArtifacts : bool)
    (csvToMarkdown : string -> string) (toLocaleString : string)
    (issues_create : string -> JsVal -> string -> string -> option nat)
    (issues_update : string -> JsVal -> nat -> string -> bool)
    (options : Options) (fuel : nat) (st : Collector) :
  truthy (options_postToIssue options) = true ->
  (forall full_name, options_repository options <> JStr full_name) ->
  snd (startCollection graphqlClient enterpriseClient EOL writeFileAsync
         createandUploadArtifacts
         (fun csv => snd (postResultsToIssue_calls csvToMarkdown toLocaleString
                            issues_create issues_update options csv))
         fuel st) <> ProcessExit.
Proof.
  intros Hflag Hrepo. apply rejecting_post_never_exits.
  intros csv. unfold postResultsToIssue_calls. rewrite Hflag. simpl.
  destruct (options_repository options) as [| |full]; try reflexivity.
  now destruct (Hrepo full).
Qed.

(** Outside a workflow run ([GITHUB_RUN_NUMBER] unset or empty) nothing is
    uploaded and the step succeeds. In a workflow run one artifact is
    uploaded, named after the clock, with [continueOnError] set; its files
    are the two files a complete export writes, in the same order, and the
    step resolves exactly when the upload does. *)
Theorem artifact_holds_the_exported_files (GITHUB_RUN_NUMBER : JsVal) (getTime : N)
    (uploadArtifact : ArtifactUpload -> bool) (EOL : string) (json : list (list JsVal)) :
  let out := createandUploadArtifacts_call GITHUB_RUN_NUMBER getTime uploadArtifact in
  (truthy GITHUB_RUN_NUMBER = false -> out = (None, true)) /\
  (truthy GITHUB_RUN_NUMBER = true ->
   exists upload,
     out = (Some upload, uploadArtifact upload) /\
     artifactName upload = "user-report-" +:+ pretty getTime /\
     continueOnError upload = true /\
     files upload = written_paths (export_steps EOL json)).
Proof.
  cbv zeta. unfold createandUploadArtifacts_call. split; intros ->; simpl.
  - reflexivity.
  - eexists. split; [reflexivity|]. repeat split.
Qed.

(** ** Further instances *)

Lemma later_organizations_leave_earlier_records_witness :
  records_of_organization (JStr "e")
    (result (fst (collect_organizations b_and_7 1 [JStr "7"] b_collected)))
    (heap (fst (collect_organizations b_and_7 1 [JStr "7"] b_collected))) "b"
  = records_of_organization (JStr "e") (result b_collected) (heap b_collected) "b".
Proof.
  refine (proj2 (proj2 (later_organizations_leave_earlier_records b_and_7 1 [JStr "7"]
                          b_collected "b" b_accumulator _ _ _)) (JStr "e")).
  - vm_compute. reflexivity.
  - vm_compute. repeat constructor.
  - simpl. apply not_elem_of_cons. split; [discriminate|apply not_elem_of_nil].
Defined.

Lemma single_page_organization_recorded_twice_witness :
  snd (collectData only_b 1 (JStr "b") JUndefined JUndefined b_about_to_start) = Returned.
Proof.
  refine (proj1 (single_page_organization_recorded_twice only_b 0 (JStr "b")
                   b_about_to_start rb_page rb_node [bob] _ _ eq_refl eq_refl
                   eq_refl eq_refl)).
  - intros acc. vm_compute. discriminate.
  - vm_compute. reflexivity.
Defined.

Lemma archived_retry_is_unbounded_witness :
  snd (requestOrganizationData always_archived 5 (JStr "acme") JNull JNull
         (fresh (JStr "acme") JUndefined)) = ReqOutOfFuel.
Proof.
  refine (proj1 (archived_retry_is_unbounded always_archived 5 (JStr "acme") JNull JNull
                   (fresh (JStr "acme") JUndefined) _)).
  intros cc' rc'. exists archived1_error, archived1_partial.
  repeat split. discriminate.
Defined.

Lemma every_organization_gets_an_entry_witness :
  obj_get "acme" (result acme_collected) <> None.
Proof.
  assert (Hrun : collect_organizations acme 3 [JStr "acme"] (fresh (JStr "acme") JUndefined)
                 = (acme_collected, Returned)) by (vm_compute; reflexivity).
  apply (proj1 (every_organization_gets_an_entry acme 3 [JStr "acme"] _ _ Hrun) (JStr "acme")).
  apply list_elem_of_singleton. reflexivity.
Defined.

Lemma csv_of_complete_records_witness :
  JSONtoCSV LF [record_of JUndefined "acme" "r1" alice]
  = "enterprise,organization,repo,user,login,permission" +:+ LF
    +:+ "undefined,acme,r1,Alice,alice,admin" +:+ LF.
Proof.
  rewrite (csv_of_complete_records LF [record_of JUndefined "acme" "r1" alice]).
  - reflexivity.
  - repeat constructor.
Defined.

Lemma enterprise_organizations_are_the_ones_queried_witness :
  organizations (fst (startCollection b_and_7 enterprise_of_b_and_7 LF writes_succeed true
                        posts_succeed 1 (fresh JUndefined (JStr "e"))))
  = [JStr "b"; JStr "7"].
Proof.
  exact (proj1 (enterprise_organizations_are_the_ones_queried b_and_7 enterprise_of_b_and_7
                  LF writes_succeed true posts_succeed 1 (fresh JUndefined (JStr "e"))
                  eq_refl)).
Defined.

Lemma organization_input_takes_precedence_witness :
  exists st ending more,
    main acme no_enterprise LF writes_succeed true posts_succeed 1
      "acme" (JStr "other") "" JUndefined = Some (st, ending) /\
    trace st = EvQuery (JStr "acme") JNull JNull :: more.
Proof.
  apply organization_input_takes_precedence.
  - discriminate.
  - intros [H|(s & H & _)]; [congruence|discriminate].
Defined.

Lemma enterprise_without_organizations_witness :
  result (fst (startCollection acme empty_enterprise LF writes_succeed true posts_succeed 0
                 (fresh JUndefined (JStr "e")))) = [].
Proof.
  exact (proj1 (proj2 (enterprise_without_organizations acme empty_enterprise LF
                         writes_succeed true posts_succeed 0 JUndefined (JStr "e")
                         eq_refl eq_refl))).
Defined.

Lemma unreadable_organization_exports_nothing_witness :
  result (fst (startCollection no_organization no_enterprise LF writes_succeed true
                 posts_succeed 1 (fresh (JStr "empty-org") JUndefined)))
  = [("empty-org", None)].
Proof.
  refine (proj1 (proj2 (unreadable_organization_exports_nothing no_organization
                          no_enterprise LF writes_succeed true posts_succeed 0
                          (JStr "empty-org") JUndefined eq_refl _))).
  left. reflexivity.
Defined.

Lemma posting_is_switched_by_any_text_witness :
  exists owner repo title rest,
    fst (postResultsToIssue_calls as_it_is "now" creates_issue_7 updates_succeed
           (main_options (JStr "octo/audit") "false" JUndefined) "csv")
    = IssuesCreate owner repo title "csv" :: rest.
Proof.
  refine (proj2 (posting_is_switched_by_any_text as_it_is "now" creates_issue_7
                   updates_succeed (JStr "octo/audit") "false" JUndefined "csv") _).
  left. discriminate.
Defined.

Lemma issue_is_opened_then_closed_witness :
  postResultsToIssue_calls as_it_is "now" creates_issue_7 updates_succeed
    audit_options "csv"
  = ([ IssuesCreate "octo" (JStr "audit") "Audit log report for now" "csv";
       IssuesUpdate "octo" (JStr "audit") 7 "closed" ], true).
Proof.
  refine (issue_is_opened_then_closed as_it_is "now" creates_issue_7 updates_succeed
            audit_options "csv" "octo" ["audit"] eq_refl eq_refl _).
  repeat constructor.
Defined.

Lemma missing_repository_fails_the_run_witness :
  snd (startCollection acme no_enterprise LF writes_succeed true
         (fun csv => snd (postResultsToIssue_calls as_it_is "now" creates_issue_7
                            updates_succeed options_without_repository csv))
         3 (fresh (JStr "acme") JUndefined)) <> ProcessExit.
Proof.
  apply missing_repository_fails_the_run; [reflexivity|].
  intros full_name. discriminate.
Defined.

Lemma artifact_holds_the_exported_files_witness :
  exists upload,
    createandUploadArtifacts_call (JStr "12") 1700000000000 (fun _ => true)
    = (Some upload, true) /\
    artifactName upload = "user-report-1700000000000" /\
    continueOnError upload = true /\
    files upload = ["./data/raw-data.json"; "./data/raw-data.csv"].
Proof.
  destruct (proj2 (artifact_holds_the_exported_files (JStr "12") 1700000000000
                     (fun _ => true) LF []) eq_refl)
    as (upload & H1 & H2 & H3 & H4).
  exists upload. repeat split; trivial.
Defined.

Lemma collect_organizations_keys_witness :
  Object_keys (result b_and_acme_collected) = ["b"; "acme"].
Proof.
  assert (Hrun : collect_organizations b_and_acme 3 [JStr "b"; JStr "acme"]
                   (fresh JUndefined JUndefined) = (b_and_acme_collected, Returned))
    by (vm_compute; reflexivity).
  refine (collect_organizations_keys b_and_acme 3 [JStr "b"; JStr "acme"] _ _ _ _ _ Hrun).
  - simpl. apply NoDup_cons. split.
    + apply not_elem_of_cons. split; [discriminate|apply not_elem_of_nil].
    + apply NoDup_singleton.
  - repeat constructor.
  - repeat constructor.
Defined.

Lemma collect_organizations_store_ok_witness :
  store_ok acme_collected.
Proof.
  exact (collect_organizations_store_ok acme (well_behaved_one_per_page "acme" 1 _)
           3 [JStr "acme"] (fresh (JStr "acme") JUndefined)
           (fresh_store_ok (JStr "acme") JUndefined)).
Defined.


(** ** Organizations whose repositories have one collaborator page each *)

Lemma records_of_repository_kept enterprise organization h (l last : loc)
    (o : RepoObj) c more :
  h !! last = Some o -> l < length h ->
  records_of_repository enterprise organization
    (<[last := set_previousCursor c o]> (h ++ more)) l
  = records_of_repository enterprise organization h l.
Proof.
  intros Ho Hl. unfold records_of_repository.
  assert (Hlast : last < length h) by (eapply lookup_lt_Some; eauto).
  destruct (decide (l = last)) as [->|Hne].
  - rewrite list_lookup_insert_eq by (rewrite length_app; lia). now rewrite Ho.
  - rewrite list_lookup_insert_ne by congruence. now rewrite lookup_app_l.
Qed.

Section ChainFacts.
Variable graphqlClient : JsVal -> JsVal -> JsVal -> Response.

(** The repositories after the first one: each is appended, and its
    records follow those collected so far. *)
Lemma chain_is_collected enterprise organization chain :
  forall rc st acc (l : list loc) (last : loc) (o : RepoObj),
    chain <> [] ->
    served_in_turn graphqlClient organization rc (obj_name o) chain ->
    obj_get (ToString organization) (result st) = Some (Some acc) ->
    acc_nodes acc = l ++ [last] ->
    heap st !! last = Some o ->
    obj_edges o <> None ->
    Forall (fun x : loc => x < length (heap st)) (acc_nodes acc) ->
    let out := collectData graphqlClient (length chain) organization JNull rc st in
    snd out = Returned /\
    length (trace (fst out)) = length (trace st) + length chain /\
    records_of_organization enterprise (result (fst out)) (heap (fst out))
      (ToString organization)
    = records_of_organization enterprise (result st) (heap st) (ToString organization)
      ++ concat (map (fun rp => node_records enterprise (ToString organization) (fst rp))
                     chain).
Proof.
  induction chain as [|[r pi] rest IH];
    intros rc st acc l last o Hne Hserved Hacc Hl Ho Hedges Hall; [congruence|].
  destruct Hserved as (Hg & Hname & Hc & Hr & Hsome & Hrest).
  cbn [length]. cbv zeta.
  rewrite (collectData_page graphqlClient (length rest) organization JNull rc st
             (one_page r pi) r [] Hg eq_refl).
  set (st0 := log _ st).
  rewrite (merge_page_existing organization rc (one_page r pi) r [] st0 acc l last o
             eq_refl Hacc Hl Ho).
  cbv zeta. apply String.eqb_neq in Hname. rewrite Hname.
  destruct (obj_edges o) as [held|] eqn:Hheld; [|congruence].
  simpl map. simpl repositories_pageInfo.
  set (cur := length (heap st0)).
  set (h' := <[last := set_previousCursor rc o]> (heap st0 ++ [alloc r])).
  set (acc' := {| acc_nodes := l ++ [last; cur]; acc_pageInfo := acc_pageInfo acc |}).
  set (st1 := set_result _ _).
  assert (Hlast : last < length (heap st)) by (eapply lookup_lt_Some; eauto).
  assert (Hcur : h' !! cur = Some (alloc r)).
  { unfold h'. rewrite list_lookup_insert_ne by (unfold cur, st0; simpl; lia).
    rewrite lookup_app_r by (unfold cur; lia). unfold cur. now rewrite Nat.sub_diag. }
  assert (Hrec : records_of_organization enterprise (result st1) (heap st1)
                   (ToString organization)
                 = records_of_organization enterprise (result st) (heap st)
                     (ToString organization)
                   ++ node_records enterprise (ToString organization) r).
  { unfold records_of_organization. unfold st1 at 1. simpl result.
    rewrite obj_get_set_eq, Hacc. change (heap st1) with h'. simpl acc_nodes.
    replace (l ++ [last; cur]) with (acc_nodes acc ++ [cur])
      by (rewrite Hl, <- app_assoc; reflexivity).
    rewrite map_app, concat_app. simpl. rewrite app_nil_r. f_equal.
    - f_equal. apply map_ext_in. intros x Hx. unfold h'.
      apply (records_of_repository_kept enterprise (ToString organization)
               (heap st) x last o rc [alloc r] Ho).
      rewrite Forall_forall in Hall. apply Hall. now apply list_elem_of_In.
    - unfold records_of_repository, node_records. now rewrite Hcur. }
  unfold next_call. change (heap st1) with h'. rewrite Hcur. simpl obj_pageInfo.
  rewrite Hc, Hr.
  destruct rest as [|rp rest'].
  - cbn [fst snd length map concat]. split; [reflexivity|]. split.
    + unfold st1, st0. simpl. rewrite length_app. simpl. lia.
    + rewrite Hrec. now rewrite app_nil_r.
  - destruct (IH (endCursor pi) st1 acc' (l ++ [last]) cur (alloc r)) as (I1 & I2 & I3).
    + discriminate.
    + exact Hrest.
    + unfold st1. simpl. apply obj_get_set_eq.
    + unfold acc'. simpl. now rewrite <- app_assoc.
    + exact Hcur.
    + simpl. apply Hsome. discriminate.
    + unfold acc'. simpl.
      replace (l ++ [last; cur]) with (acc_nodes acc ++ [cur])
        by (rewrite Hl, <- app_assoc; reflexivity).
      assert (Hlen : length h' = S (length (heap st))).
      { unfold h'. rewrite length_insert, length_app. simpl. lia. }
      rewrite Hlen. apply Forall_app. split.
      * eapply Forall_impl; [exact Hall|]. simpl. intros; lia.
      * constructor; [|constructor]. unfold cur, st0. simpl. lia.
    + cbv zeta in I1, I2, I3. split; [exact I1|]. split.
      * rewrite I2. unfold st1. simpl. rewrite length_app. simpl. lia.
      * rewrite I3, Hrec. cbn [map concat fst]. now rewrite <- app_assoc.
Qed.

(** An organization served one repository per page, every repository
    with a single collaborator page, a name other than its predecessor's
    and (the last one apart) an edge list: started from a [null] entry,
    the traversal returns after exactly one query per repository, and the
    records of the organization are those of its repositories in the order
    served, each edge once, except that the edges of the first repository
    come twice. *)
Theorem single_page_repositories_are_collected (organization : JsVal)
    (st : Collector) (r : RepositoryNode) (pi : PageInfo) (es : list Edge)
    (chain : list (RepositoryNode * PageInfo)) :
  (forall acc, obj_get (ToString organization) (result st) <> Some (Some acc)) ->
  graphqlClient organization JNull JNull = Resolved (Some (one_page r pi)) ->
  edges (collaborators r) = Some es ->
  hasNextPage (pageInfo (collaborators r)) = false ->
  hasNextPage pi = match chain with [] => false | _ :: _ => true end ->
  served_in_turn graphqlClient organization (endCursor pi) (name r) chain ->
  let out := collectData graphqlClient (S (length chain)) organization
               JUndefined JUndefined st in
  snd out = Returned /\
  length (trace (fst out)) = length (trace st) + S (length chain) /\
  forall enterprise,
    records_of_organization enterprise (result (fst out)) (heap (fst out))
      (ToString organization)
    = map (record_of enterprise (ToString organization) (name r)) (es ++ es)
      ++ concat (map (fun rp => node_records enterprise (ToString organization) (fst rp))
                     chain).
Proof.
  intros Hnone Hg Hes Hc Hr Hserved. cbv zeta.
  rewrite (collectData_page graphqlClient (length chain) organization JUndefined JUndefined
             st (one_page r pi) r [] Hg eq_refl).
  simpl default_null.
  set (st0 := log (EvQuery organization JNull JNull) st).
  rewrite (merge_page_first organization JUndefined (one_page r pi) r st0 eq_refl Hnone).
  cbv zeta. rewrite Hes. simpl repositories_pageInfo.
  set (cur := length (heap st0)).
  set (o := set_edges (Some (es ++ es)) (alloc r)).
  set (h' := <[cur := o]> (heap st0 ++ [alloc r])).
  set (acc := {| acc_nodes := [cur]; acc_pageInfo := pi |}).
  set (st1 := set_result _ _).
  assert (Hcur : h' !! cur = Some o).
  { unfold h'. apply list_lookup_insert_eq. unfold cur. rewrite length_app. simpl. lia. }
  assert (Hrec : forall enterprise,
             records_of_organization enterprise (result st1) (heap st1)
               (ToString organization)
             = map (record_of enterprise (ToString organization) (name r)) (es ++ es)).
  { intros enterprise. unfold records_of_organization. unfold st1 at 1. simpl result.
    rewrite obj_get_set_eq. change (heap st1) with h'. simpl.
    unfold records_of_repository. rewrite Hcur. simpl. now rewrite app_nil_r. }
  unfold next_call. change (heap st1) with h'. rewrite Hcur. simpl obj_pageInfo.
  rewrite Hc, Hr.
  destruct chain as [|rp rest].
  - cbn [fst snd length map concat]. split; [reflexivity|]. split.
    + unfold st1, st0. simpl. rewrite length_app. simpl. lia.
    + intros enterprise. rewrite Hrec. now rewrite app_nil_r.
  - assert (Hchain : forall enterprise,
              let out := collectData graphqlClient (length (rp :: rest)) organization
                           JNull (endCursor pi) st1 in
              snd out = Returned /\
              length (trace (fst out)) = length (trace st1) + length (rp :: rest) /\
              records_of_organization enterprise (result (fst out)) (heap (fst out))
                (ToString organization)
              = records_of_organization enterprise (result st1) (heap st1)
                  (ToString organization)
                ++ concat (map (fun rp => node_records enterprise (ToString organization)
                                            (fst rp)) (rp :: rest))).
    { intros enterprise.
      apply (chain_is_collected enterprise organization (rp :: rest) (endCursor pi) st1
               acc [] cur o).
      - discriminate.
      - exact Hserved.
      - unfold st1. simpl. apply obj_get_set_eq.
      - reflexivity.
      - exact Hcur.
      - simpl. discriminate.
      - simpl. constructor; [|constructor]. change (heap st1) with h'. unfold h'.
        rewrite length_insert, length_app. unfold cur, st0. simpl. lia. }
    destruct (Hchain JNull) as (H1 & H2 & _). cbv zeta in H1, H2.
    split; [exact H1|]. split.
    + rewrite H2. unfold st1, st0. simpl. rewrite length_app. simpl. lia.
    + intros enterprise. destruct (Hchain enterprise) as (_ & _ & H3).
      cbv zeta in H3. rewrite H3, Hrec. reflexivity.
Qed.

(** A rejection with the archived-repository message that carries no
    usable partial data (none, or a page without nodes) makes the request
    throw while it builds its log line. Unlike the failures that yield "no
    data", this one leaves the loop: the organizations after it are never
    queried. *)
Theorem unusable_archived_error_leaves_the_loop fuel login rest st error :
  graphqlClient login JNull JNull = Rejected (Some error) ->
  message error = ERROR_MESSAGE_ARCHIVED_REPO ->
  (data error = None \/
   exists partial, data error = Some partial /\ partial_nodes partial = []) ->
  let st0 := set_result (obj_set (ToString login) None (result st)) st in
  collectData graphqlClient (S fuel) login JUndefined JUndefined st0
  = (log (EvQuery login JNull JNull) st0, Thrown) /\
  collect_organizations graphqlClient (S fuel) (login :: rest) st
  = (log (EvQuery login JNull JNull) st0, Thrown).
Proof.
  intros Hg Hmsg Hdata st0.
  assert (Hcall : collectData graphqlClient (S fuel) login JUndefined JUndefined st0
                  = (log (EvQuery login JNull JNull) st0, Thrown)).
  { rewrite collectData_S. cbv zeta. cbn [requestOrganizationData]. simpl default_null.
    rewrite Hg. apply String.eqb_eq in Hmsg. rewrite Hmsg.
    destruct Hdata as [->|(partial & -> & ->)]; reflexivity. }
  split; [exact Hcall|]. cbn [collect_organizations]. fold st0. now rewrite Hcall.
Qed.

(** The first page of an organization must carry an edge list: when its
    repository has [null] edges the merge throws, the entry of the
    organization stays [null], and the loop is left. *)
Theorem null_edges_on_the_first_page_throw fuel organization st page r :
  (forall acc, obj_get (ToString organization) (result st) <> Some (Some acc)) ->
  graphqlClient organization JNull JNull = Resolved (Some page) ->
  nodes page = [r] ->
  edges (collaborators r) = None ->
  let out := collectData graphqlClient (S fuel) organization JUndefined JUndefined st in
  snd out = Thrown /\ result (fst out) = result st /\
  trace (fst out) = trace st ++ [EvQuery organization JNull JNull].
Proof.
  intros Hnone Hg Hnodes Hes. cbv zeta.
  rewrite (collectData_page graphqlClient fuel organization JUndefined JUndefined
             st page r [] Hg Hnodes).
  simpl default_null.
  rewrite (merge_page_first organization JUndefined page r
             (log (EvQuery organization JNull JNull) st) Hnodes Hnone).
  cbv zeta. rewrite Hes. simpl. repeat split.
Qed.

(** Processing a login starts it over: whatever had been collected for
    it, when its first answer is "no data" its entry is [null] afterwards
    and the loop goes on. *)
Theorem a_login_processed_again_starts_over fuel login rest st :
  no_data (graphqlClient login JNull JNull) ->
  exists st1,
    collect_organizations graphqlClient (S fuel) (login :: rest) st
    = collect_organizations graphqlClient (S fuel) rest st1 /\
    obj_get (ToString login) (result st1) = Some None /\
    heap st1 = heap st /\
    trace st1 = trace st ++ [EvQuery login JNull JNull].
Proof.
  intros Hno.
  set (st0 := set_result (obj_set (ToString login) None (result st)) st).
  exists (log (EvQuery login JNull JNull) st0).
  assert (Hcall : collectData graphqlClient (S fuel) login JUndefined JUndefined st0
                  = (log (EvQuery login JNull JNull) st0, Returned)).
  { rewrite collectData_S. cbv zeta. cbn [requestOrganizationData]. simpl default_null.
    destruct Hno as [H|[(page & H & Hnodes)|[H|(error & H & Hmsg)]]]; rewrite H.
    - reflexivity.
    - simpl. now rewrite Hnodes.
    - reflexivity.
    - apply String.eqb_neq in Hmsg. now rewrite Hmsg. }
  split; [|split; [|split]].
  - cbn [collect_organizations]. fold st0. now rewrite Hcall.
  - simpl. apply obj_get_set_eq.
  - reflexivity.
  - reflexivity.
Qed.
End ChainFacts.

Lemma single_page_repositories_are_collected_witness :
  let out := collectData two_small_repositories 2 (JStr "acme") JUndefined JUndefined
               acme_about_to_start in
  snd out = Returned /\
  length (trace (fst out)) = length (trace acme_about_to_start) + 2 /\
  forall enterprise,
    records_of_organization enterprise (result (fst out)) (heap (fst out)) "acme"
    = map (record_of enterprise "acme" "r1") ([alice] ++ [alice])
      ++ concat (map (fun rp => node_records enterprise "acme" (fst rp))
                     [(small_r2, {| hasNextPage := false; endCursor := JStr "2" |})]).
Proof.
  apply (single_page_repositories_are_collected two_small_repositories (JStr "acme")
           acme_about_to_start small_r1
           {| hasNextPage := true; endCursor := JStr "1" |} [alice]
           [(small_r2, {| hasNextPage := false; endCursor := JStr "2" |})]).
  - intros acc. vm_compute. discriminate.
  - vm_compute. reflexivity.
  - reflexivity.
  - reflexivity.
  - reflexivity.
  - simpl. split; [vm_compute; reflexivity|].
    split; [vm_compute; discriminate|]. repeat split. intros H. now destruct H.
Defined.

Lemma unusable_archived_error_leaves_the_loop_witness :
  let st0 := set_result (obj_set "acme" None
                           (result (fresh (JStr "acme") JUndefined)))
               (fresh (JStr "acme") JUndefined) in
  collectData archived_without_data 3 (JStr "acme") JUndefined JUndefined st0
  = (log (EvQuery (JStr "acme") JNull JNull) st0, Thrown) /\
  collect_organizations archived_without_data 3 [JStr "acme"; JStr "b"]
    (fresh (JStr "acme") JUndefined)
  = (log (EvQuery (JStr "acme") JNull JNull) st0, Thrown).
Proof.
  apply (unusable_archived_error_leaves_the_loop archived_without_data 2 (JStr "acme")
           [JStr "b"] (fresh (JStr "acme") JUndefined) bare_archived_error).
  - reflexivity.
  - reflexivity.
  - left. reflexivity.
Defined.

Lemma null_edges_on_the_first_page_throw_witness :
  let out := collectData serves_null_edges 3 (JStr "acme") JUndefined JUndefined
               acme_about_to_start in
  snd out = Thrown /\ result (fst out) = result acme_about_to_start /\
  trace (fst out) = trace acme_about_to_start ++ [EvQuery (JStr "acme") JNull JNull].
Proof.
  apply (null_edges_on_the_first_page_throw serves_null_edges 2 (JStr "acme")
           acme_about_to_start page_without_edges r1_without_edges).
  - intros acc. vm_compute. discriminate.
  - reflexivity.
  - reflexivity.
  - reflexivity.
Defined.

Lemma a_login_processed_again_starts_over_witness :
  exists st1,
    collect_organizations unreachable 3 [JStr "b"; JStr "acme"] b_collected
    = collect_organizations unreachable 3 [JStr "acme"] st1 /\
    obj_get "b" (result st1) = Some None /\
    heap st1 = heap b_collected /\
    trace st1 = trace b_collected ++ [EvQuery (JStr "b") JNull JNull].
Proof.
  apply (a_login_processed_again_starts_over unreachable 2 (JStr "b") [JStr "acme"]
           b_collected).
  right. right. right.
  exists {| message := "Bad credentials"; data := None |}.
  split; [reflexivity|]. vm_compute. discriminate.
Defined.

Lemma JSONtoCSV_reads_six_fields_witness :
  JSONtoCSV LF [[JStr "e"; JStr "acme"]]
  = JSONtoCSV LF (map six_fields [[JStr "e"; JStr "acme"]]) /\
  six_fields (record_of JUndefined "acme" "r1" alice) = record_of JUndefined "acme" "r1" alice.
Proof.
  destruct (JSONtoCSV_reads_six_fields LF [[JStr "e"; JStr "acme"]]) as (H1 & _ & H3).
  split; [exact H1|]. apply H3. reflexivity.
Defined.

(** ** A repository without edges followed by another *)

Section NullEdgesFacts.
Variable graphqlClient : JsVal -> JsVal -> JsVal -> Response.

(** When the last entry of the accumulator has [null] edges and the page
    received names another repository, the invocation throws while it
    builds the log line of line 219: the repository is not appended,
    [result] and the objects collected so far are left as they were, and
    the traversal ends there after that one query. *)
Theorem null_edges_before_another_repository_throw fuel organization cc rc st
    page r rest acc (l : list loc) (last : loc) (o : RepoObj) :
  graphqlClient organization (default_null cc) (default_null rc) = Resolved (Some page) ->
  nodes page = r :: rest ->
  obj_get (ToString organization) (result st) = Some (Some acc) ->
  acc_nodes acc = l ++ [last] ->
  heap st !! last = Some o ->
  name r <> obj_name o ->
  obj_edges o = None ->
  let out := collectData graphqlClient (S fuel) organization cc rc st in
  snd out = Thrown /\
  result (fst out) = result st /\
  (forall x : loc, x < length (heap st) -> heap (fst out) !! x = heap st !! x) /\
  trace (fst out) = trace st ++ [EvQuery organization (default_null cc) (default_null rc)].
Proof.
  intros Hg Hnodes Hacc Hl Ho Hname Hedges. cbv zeta.
  rewrite (collectData_page graphqlClient fuel organization cc rc st page r rest Hg Hnodes).
  rewrite (merge_page_existing organization rc page r rest
             (log (EvQuery organization (default_null cc) (default_null rc)) st)
             acc l last o Hnodes Hacc Hl Ho).
  cbv zeta. apply String.eqb_neq in Hname. rewrite Hname, Hedges.
  cbn [fst snd]. split; [reflexivity|]. split; [reflexivity|]. split; [|reflexivity].
  intros x Hx. simpl. now rewrite lookup_app_l.
Qed.
End NullEdgesFacts.

Lemma null_edges_before_another_repository_throw_witness :
  let out := collectData null_edges_in_the_middle 1 (JStr "acme") JNull (JStr "2")
               r2_without_edges_appended in
  snd out = Thrown /\ result (fst out) = result r2_without_edges_appended.
Proof.
  destruct (null_edges_before_another_repository_throw null_edges_in_the_middle 0
              (JStr "acme") JNull (JStr "2") r2_without_edges_appended page_of_r3
              {| name := "r3";
                 collaborators :=
                   {| edges := Some [carol];
                      pageInfo := {| hasNextPage := false; endCursor := JStr "1" |} |} |}
              []
              {| acc_nodes := [0; 1];
                 acc_pageInfo := {| hasNextPage := true; endCursor := JStr "1" |} |}
              [0] 1
              {| obj_name := "r2"; obj_edges := None;
                 obj_pageInfo := {| hasNextPage := false; endCursor := JNull |};
                 previousCursor := JUndefined |})
    as (H1 & H2 & _).
  - reflexivity.
  - reflexivity.
  - vm_compute. reflexivity.
  - reflexivity.
  - vm_compute. reflexivity.
  - simpl. discriminate.
  - reflexivity.
  - split; assumption.
Defined.

Lemma export_steps_in_order_witness :
  let steps := export_steps LF (normalizedData (normalizeResult acme_collected)) in
  snd (endCollection LF csv_write_fails true posts_succeed acme_collected) = false /\
  until_rejected (step_resolves csv_write_fails true posts_succeed) steps = take 2 steps.
Proof.
  destruct (export_steps_in_order acme no_enterprise LF csv_write_fails true posts_succeed
              acme_collected)
    as (_ & _ & _ & H).
  destruct (H 1 _ eq_refl) as [H1 H2].
  - vm_compute. reflexivity.
  - intros j e' Hj He'. destruct j as [|j]; [|lia]. injection He' as <-. reflexivity.
  - split; assumption.
Defined.
